(** * fleetidy: carrier scoring engine and ISS estimator

    A shallow embedding of the scoring core of [fred_postgres.py]
    (eligibility classifier, component scores, insurance normalizer, grade
    assigner) and of [iss_estimator.py], with the properties of the
    specification checked against it.

    Conventions of the embedding.
    - A row (a Python [dict] read from a CSV file) is a [gmap string value].
      A cell is [None], text or an integer.  Every function of the engine
      reads a cell through [str()], so a float or bool cell of a typed
      loader behaves as the text [str()] gives for it.
    - Text is a [string] of bytes.  Case mapping, white space and digits
      follow Python on ASCII text; bytes above 127 are left alone.
    - Python exceptions are explicit: a computation returns [Ok v] or
      [Raise e], and [try_except] is the [try: ... except (...)] statement.
      Division raises [ZeroDivisionError] on a zero divisor.
    - Text is converted to a number as [float()] does it, with the rounding
      to binary64 and the overflow to infinity; [int()] of an infinity
      raises [OverflowError].
    - The arithmetic on scores and ratings is done on exact rationals [Q],
      and [round(x, k)] rounds the exact value (ties to even).  A binary64
      result can differ from the exact one in the last decimal kept when
      the exact value is a tie; no property below depends on it.  Where a
      comparison sits on a rounding boundary (the grade ceilings), and for
      the range of the weighted sum, the binary64 computation is replayed
      with primitive floats.
    - What differs between two interpreter processes (the key of the
      built-in string hash, the date, the generator behind [random]) is a
      parameter, [Py.process].
    - The dictionaries of [results] are mutated in place through several
      lists.  A reference is a position in [results]; a write is an [alter]
      at that position.
    - Console output is left out, except for the share computed for the
      grade table, which divides by the number of eligible carriers.
    - A row of [csv.DictReader] is an association list where the order of
      its keys matters (the aliases that
      [augment_row_with_normalized_keys] appends); [Rows.dict_of] turns it
      into the dictionary the engine reads.
    - [datetime.strptime] is modelled for the one format the loaders use,
      ['%d-%b-%y'], with the month names of the C locale.  A [datetime]
      at midnight is its year, month and day. *)

From Stdlib Require Import ZArith QArith Qround String Ascii List Lia Lqa.
From Stdlib Require Import DecimalString Floats Uint63.
From stdpp Require Import base option gmap strings list.

Import ListNotations.
Local Open Scope Z_scope.
Set Warnings "-inexact-float".

(* ===================================================================== *)
(** * The Python runtime the engine relies on *)
(* ===================================================================== *)

Module Py.

(** ** Exceptions *)

Inductive exn : Set :=
| ValueError
| TypeError
| OverflowError
| ZeroDivisionError.

Definition exn_eqb (a b : exn) : bool :=
  match a, b with
  | ValueError, ValueError | TypeError, TypeError
  | OverflowError, OverflowError
  | ZeroDivisionError, ZeroDivisionError => true
  | _, _ => false
  end.

Inductive result (A : Type) : Type :=
| Ok (a : A)
| Raise (e : exn).
Arguments Ok {A} a.
Arguments Raise {A} e.

Definition bind {A B} (r : result A) (k : A -> result B) : result B :=
  match r with
  | Ok a => k a
  | Raise e => Raise e
  end.

(** [try: body  except (handled...): return dflt] *)
Definition try_except {A} (body : result A) (handled : list exn) (dflt : A)
  : result A :=
  match body with
  | Ok a => Ok a
  | Raise e => if existsb (exn_eqb e) handled then Ok dflt else Raise e
  end.

(** [except Exception] catches every exception modelled here. *)
Definition try_except_all {A} (body : result A) (dflt : A) : A :=
  match body with
  | Ok a => a
  | Raise _ => dflt
  end.

Definition returns {A} (r : result A) : Prop := exists a, r = Ok a.

(** ** Text *)

(** [str.isspace] on ASCII: TAB, LF, VT, FF, CR, FS, GS, RS, US, space. *)
Definition is_space (c : ascii) : bool :=
  let n := N_of_ascii c in
  ((9 <=? n)%N && (n <=? 13)%N) || ((28 <=? n)%N && (n <=? 32)%N).

Fixpoint lstrip_by (p : ascii -> bool) (s : string) : string :=
  match s with
  | String c s' => if p c then lstrip_by p s' else s
  | EmptyString => EmptyString
  end.

Definition strip_by (p : ascii -> bool) (s : string) : string :=
  String.rev (lstrip_by p (String.rev (lstrip_by p s))).

(** [s.strip()] *)
Definition strip (s : string) : string := strip_by is_space s.

(** [s.strip(c)] for a one-character argument *)
Definition strip_char (c : ascii) (s : string) : string :=
  strip_by (Ascii.eqb c) s.

Definition upper_ascii (c : ascii) : ascii :=
  let n := N_of_ascii c in
  if ((97 <=? n)%N && (n <=? 122)%N)%bool then ascii_of_N (n - 32) else c.

Definition lower_ascii (c : ascii) : ascii :=
  let n := N_of_ascii c in
  if ((65 <=? n)%N && (n <=? 90)%N)%bool then ascii_of_N (n + 32) else c.

Fixpoint map_string (f : ascii -> ascii) (s : string) : string :=
  match s with
  | String c s' => String (f c) (map_string f s')
  | EmptyString => EmptyString
  end.

(** [s.upper()], [s.lower()] *)
Definition upper (s : string) : string := map_string upper_ascii s.
Definition lower (s : string) : string := map_string lower_ascii s.

(** [needle in s] *)
Fixpoint contains (needle s : string) : bool :=
  String.prefix needle s ||
  match s with
  | String _ s' => contains needle s'
  | EmptyString => false
  end.

(** [s.split(sep)] for a one-character separator *)
Fixpoint split_go (sep : ascii) (cur : string) (s : string) : list string :=
  match s with
  | EmptyString => [String.rev cur]
  | String c s' =>
      if Ascii.eqb c sep
      then String.rev cur :: split_go sep EmptyString s'
      else split_go sep (String c cur) s'
  end.

Definition split (sep : ascii) (s : string) : list string :=
  split_go sep EmptyString s.

(** [x in xs] for a list (or tuple) of strings *)
Definition str_in (x : string) (xs : list string) : bool :=
  existsb (String.eqb x) xs.

(** [s[i:j]] for [0 <= i <= j] *)
Definition slice (i j : nat) (s : string) : string :=
  String.substring i (j - i) s.

Definition len (s : string) : Z := Z.of_nat (String.length s).

(** ** Cells and rows *)

Inductive value : Type :=
| PNone
| PStr (s : string)
| PInt (z : Z).

Abbreviation dict := (gmap string value).

(** [row.get(key, dflt)] *)
Definition get (row : dict) (key : string) (dflt : value) : value :=
  default dflt (row !! key).

(** [str(v)] *)
Definition str (v : value) : string :=
  match v with
  | PNone => "None"
  | PStr s => s
  | PInt z => NilZero.string_of_int (Z.to_int z)
  end.

Definition is_none (v : value) : bool :=
  match v with PNone => true | _ => false end.

(** [v == ''] *)
Definition eq_empty (v : value) : bool :=
  match v with PStr EmptyString => true | _ => false end.

(** truth value of [v] in a condition *)
Definition truthy (v : value) : bool :=
  match v with
  | PNone => false
  | PStr s => negb (String.eqb s "")
  | PInt z => negb (z =? 0)
  end.

(** [a or b] *)
Definition py_or (a b : value) : value := if truthy a then a else b.

(** ** Numbers *)

(** A Python float: a binary64 number (held as the rational it denotes),
    an infinity or NaN. *)
Inductive pyfloat : Type :=
| FFinite (q : Q)
| FInf (negative : bool)
| FNan.

(** Round to the nearest integer, ties to even: [n / d] for [d > 0]. *)
Definition round_half_even (n d : Z) : Z :=
  let q := n / d in
  let r := n mod d in
  match 2 * r ?= d with
  | Lt => q
  | Gt => q + 1
  | Eq => if Z.even q then q else q + 1
  end.

(** [floor (log2 (n / d))] for [n, d > 0] *)
Definition floor_log2 (n d : Z) : Z :=
  let k := Z.log2 n - Z.log2 d in
  let below :=
    if 0 <=? k then n <? d * 2 ^ k else n * 2 ^ (- k) <? d in
  if below then k - 1 else k.

(** The binary64 number nearest to a rational (ties to even, gradual
    underflow, overflow to infinity): what [float()] returns for a decimal
    numeral. *)
Definition b64_round (q : Q) : pyfloat :=
  let n := Z.abs (Qnum q) in
  let d := Zpos (Qden q) in
  if n =? 0 then FFinite 0 else
  let neg := Qnum q <? 0 in
  let e := floor_log2 n d in
  let p := Z.max (e - 52) (-1074) in
  let m :=
    if 0 <=? p then round_half_even n (d * 2 ^ p)
    else round_half_even (n * 2 ^ (- p)) d in
  let sgn := if neg then -1 else 1 in
  if 0 <=? p then
    if 2 ^ 1024 <=? m * 2 ^ p then FInf neg
    else FFinite (inject_Z (sgn * m * 2 ^ p))
  else FFinite (Qred (Qmake (sgn * m) (Z.to_pos (2 ^ (- p))))).

Definition digit_val (c : ascii) : option Z :=
  let n := N_of_ascii c in
  if ((48 <=? n)%N && (n <=? 57)%N)%bool then Some (Z.of_N n - 48) else None.

(** [digit (["_"] digit)*] after a first digit: the value, the number of
    digits read and the rest of the input. *)
Fixpoint digits_go (acc : Z) (cnt : Z) (l : list ascii)
  : Z * Z * list ascii :=
  match l with
  | c :: l' =>
      match digit_val c with
      | Some d => digits_go (10 * acc + d) (cnt + 1) l'
      | None =>
          if Ascii.eqb c "_" then
            match l' with
            | c2 :: l'' =>
                match digit_val c2 with
                | Some d => digits_go (10 * acc + d) (cnt + 1) l''
                | None => (acc, cnt, l)
                end
            | [] => (acc, cnt, l)
            end
          else (acc, cnt, l)
      end
  | [] => (acc, cnt, [])
  end.

(** [digitpart]: at least one digit *)
Definition digitpart (l : list ascii) : option (Z * Z * list ascii) :=
  match l with
  | c :: l' =>
      match digit_val c with
      | Some d => Some (digits_go d 1 l')
      | None => None
      end
  | [] => None
  end.

(** an optional sign: [true] for minus *)
Definition sign (l : list ascii) : bool * list ascii :=
  match l with
  | "-"%char :: l' => (true, l')
  | "+"%char :: l' => (false, l')
  | _ => (false, l)
  end.

(** [int(s)] for text [s] in base 10; [None] is [ValueError] *)
Definition int_of_str (s : string) : option Z :=
  let '(neg, l) := sign (list_ascii_of_string (strip s)) in
  match digitpart l with
  | Some (v, _, []) => Some (if neg then - v else v)
  | _ => None
  end.

(** [number ::= [digitpart] "." digitpart | digitpart ["."]]:
    the mantissa as an integer, the number of fraction digits and the rest
    of the input *)
Definition number (l : list ascii) : option (Z * Z * list ascii) :=
  match digitpart l with
  | Some (i, _, "."%char :: l1) =>
      match digitpart l1 with
      | Some (f, k, l2) => Some (i * 10 ^ k + f, k, l2)
      | None => Some (i, 0, l1)
      end
  | Some (i, _, l1) => Some (i, 0, l1)
  | None =>
      match l with
      | "."%char :: l1 => digitpart l1
      | _ => None
      end
  end.

(** [exponent ::= ("e" | "E") [sign] digitpart], when present *)
Definition exponent (l : list ascii) : option (Z * list ascii) :=
  match l with
  | c :: l1 =>
      if Ascii.eqb (lower_ascii c) "e" then
        let '(neg, l2) := sign l1 in
        match digitpart l2 with
        | Some (e, _, l3) => Some (if neg then - e else e, l3)
        | None => None
        end
      else Some (0, l)
  | [] => Some (0, [])
  end.

(** the rational [m * 10 ^ e] *)
Definition scale10 (m e : Z) : Q :=
  if 0 <=? e then inject_Z (m * 10 ^ e)
  else Qmake m (Z.to_pos (10 ^ (- e))).

(** [float(s)] for text [s]; [None] is [ValueError] *)
Definition float_of_str (s : string) : option pyfloat :=
  let '(neg, l) := sign (list_ascii_of_string (strip s)) in
  let word := lower (string_of_list_ascii l) in
  if str_in word ["inf"; "infinity"] then Some (FInf neg)
  else if String.eqb word "nan" then Some FNan
  else
    match number l with
    | Some (m, k, l1) =>
        match exponent l1 with
        | Some (e, []) =>
            Some (b64_round (scale10 (if neg then - m else m) (e - k)))
        | _ => None
        end
    | None => None
    end.

(** [float(str(v))] *)
Definition py_float (s : string) : result pyfloat :=
  match float_of_str s with
  | Some f => Ok f
  | None => Raise ValueError
  end.

(** [int(f)] for a float: truncation towards zero *)
Definition int_of_float (f : pyfloat) : result Z :=
  match f with
  | FFinite q => Ok (Z.quot (Qnum q) (Zpos (Qden q)))
  | FInf _ => Raise OverflowError
  | FNan => Raise ValueError
  end.

(** [int(s)] *)
Definition py_int (s : string) : result Z :=
  match int_of_str s with
  | Some z => Ok z
  | None => Raise ValueError
  end.

(** comparisons of a float with a rational constant; every comparison
    with NaN is false *)
Definition float_ge (f : pyfloat) (c : Q) : bool :=
  match f with
  | FFinite q => Qle_bool c q
  | FInf negative => negb negative
  | FNan => false
  end.

Definition float_le (f : pyfloat) (c : Q) : bool :=
  match f with
  | FFinite q => Qle_bool q c
  | FInf negative => negative
  | FNan => false
  end.

(** [round(x, k)] on the exact value of [x]: ties to even *)
Definition round_ndigits (x : Q) (k : Z) : Q :=
  let s := 10 ^ k in
  Qred (Qmake (round_half_even (Qnum x * s) (Zpos (Qden x))) (Z.to_pos s)).

(** [a / b] *)
Definition truediv (a b : Q) : result Q :=
  if Qeq_bool b 0 then Raise ZeroDivisionError else Ok (Qred (a / b)).

(** ** Dates: [datetime(y, m, d)] and its ordinal *)

Definition is_leap (y : Z) : bool :=
  (y mod 4 =? 0) && (negb (y mod 100 =? 0) || (y mod 400 =? 0)).

Definition days_in_month (y m : Z) : Z :=
  if m =? 2 then (if is_leap y then 29 else 28)
  else if (m =? 4) || (m =? 6) || (m =? 9) || (m =? 11) then 30
  else 31.

Definition days_before_year (y : Z) : Z :=
  let y1 := y - 1 in
  y1 * 365 + y1 / 4 - y1 / 100 + y1 / 400.

Definition days_before_month (y m : Z) : Z :=
  fold_right Z.add 0
    (map (days_in_month y) (map Z.of_nat (seq 1 (Z.to_nat (m - 1))))).

(** [datetime(y, m, d).toordinal()]; an invalid date is [ValueError] *)
Definition date_ordinal (y m d : Z) : result Z :=
  if (1 <=? y) && (y <=? 9999) && (1 <=? m) && (m <=? 12)
     && (1 <=? d) && (d <=? days_in_month y m)
  then Ok (days_before_year y + days_before_month y m + d)
  else Raise ValueError.

(** ** What differs from one interpreter process to the next *)

(** [hash_str] is the built-in [hash()] on [str], keyed per process by
    [PYTHONHASHSEED]; [today] is [datetime.now()] as a proleptic Gregorian
    ordinal; [randbelow seed n] is the first [Random(seed)._randbelow(n)],
    the draw behind [Random(seed).randint(a, b)]. *)
Record process : Type := {
  hash_str : string -> Z;
  today : Z;
  randbelow : Z -> Z -> Z;
  randbelow_range : forall seed n, 0 < n -> 0 <= randbelow seed n < n;
}.

(** [random.Random(seed).randint(a, b)], the first draw of a generator *)
Definition randint (P : process) (seed a b : Z) : Z :=
  a + randbelow P seed (b - a + 1).

End Py.

#[global] Instance result_ret : MRet Py.result := @Py.Ok.
#[global] Instance result_bind : MBind Py.result :=
  fun A B k r => Py.bind r k.

(* ===================================================================== *)
(** * iss_estimator.py *)
(* ===================================================================== *)

Module Iss.
Import Py.

Inductive ISSBucket : Set := INSPECT | OPTIONAL | PASS.

Definition bucket_value (b : ISSBucket) : string :=
  match b with
  | INSPECT => "Inspect"
  | OPTIONAL => "Optional"
  | PASS => "Pass"
  end.

Inductive ISSSource : Set := SAFETY | INSUFFICIENT.

Definition source_value (s : ISSSource) : string :=
  match s with
  | SAFETY => "SAFETY"
  | INSUFFICIENT => "INSUFFICIENT"
  end.

Record ISSResult : Type := {
  iss_score : Z;
  bucket : ISSBucket;
  source : ISSSource;
  group : option Z;
  case : option string;
  alerts : gmap string bool;
  confidence : string;
}.

(** [ISSConfig]; [run_date] is read by no function and is left out. *)
Record ISSConfig : Type := {
  seed : option Z;
  col_unsafe : string;
  col_hos : string;
  col_driver_fit : string;
  col_csaa : string;
  col_veh_maint : string;
  col_hm : string;
  col_crash : string;
  col_alert_unsafe : string;
  col_alert_hos : string;
  col_alert_driver_fit : string;
  col_alert_csaa : string;
  col_alert_veh_maint : string;
  col_alert_hm : string;
  col_alert_crash : string;
}.

(** [ISSConfig()] *)
Definition default_config : ISSConfig := {|
  seed := None;
  col_unsafe := "UNSAFE_DRIV_MEASURE";
  col_hos := "HOS_DRIV_MEASURE";
  col_driver_fit := "DRIV_FIT_MEASURE";
  col_csaa := "CONTR_SUBST_MEASURE";
  col_veh_maint := "VEH_MAINT_MEASURE";
  col_hm := "HM_MEASURE";
  col_crash := "CRASH_MEASURE";
  col_alert_unsafe := "UNSAFE_DRIV_ALERT";
  col_alert_hos := "HOS_DRIV_ALERT";
  col_alert_driver_fit := "DRIV_FIT_ALERT";
  col_alert_csaa := "CONTR_SUBST_ALERT";
  col_alert_veh_maint := "VEH_MAINT_ALERT";
  col_alert_hm := "HM_ALERT";
  col_alert_crash := "CRASH_ALERT";
|}.

Definition ROADSIDE_BASICS : gset string :=
  {[ "HOS"; "DRIVER_FIT"; "CSAA"; "VEH_MAINT"; "HM" ]}.

(** [get_alert(row, col)] *)
Definition get_alert (row : dict) (col : string) : bool :=
  let val := upper (strip (str (py_or (get row col (PStr "")) (PStr "")))) in
  str_in val ["Y"; "YES"; "TRUE"; "1"; "X"].

(** [get_percentile(row, col)] *)
Definition get_percentile (row : dict) (col : string)
  : result (option pyfloat) :=
  let val := get row col (PStr "") in
  if is_none val || eq_empty val then Ok None
  else
    try_except
      (pct ← py_float (strip (str val));
       if float_ge pct 0 && float_le pct 100 then Ok (Some pct)
       else Ok None)
      [ValueError; TypeError] None.

(** [get_int(row, col, default=0)] *)
Definition get_int (row : dict) (col : string) (dflt : Z) : result Z :=
  let val := get row col (PStr "") in
  if is_none val || eq_empty val then Ok dflt
  else
    try_except (f ← py_float (strip (str val)); int_of_float f)
      [ValueError; TypeError] dflt.

(** [alert and pct is not None and pct >= 85] *)
Definition high_risk (alert : bool) (pct : option pyfloat) : bool :=
  alert && match pct with Some p => float_ge p 85 | None => false end.

(** [assign_group(alerts, percentiles, n_alert_total, n_alert_roadside)] *)
Definition assign_group (alerts : gmap string bool)
    (percentiles : gmap string (option pyfloat))
    (n_alert_total n_alert_roadside : Z) : option Z :=
  let alert_unsafe := default false (alerts !! "UNSAFE") in
  let alert_hos := default false (alerts !! "HOS") in
  let alert_driver_fit := default false (alerts !! "DRIVER_FIT") in
  let alert_csaa := default false (alerts !! "CSAA") in
  let alert_veh_maint := default false (alerts !! "VEH_MAINT") in
  let alert_hm := default false (alerts !! "HM") in
  let alert_crash := default false (alerts !! "CRASH") in
  let pct_unsafe := default None (percentiles !! "UNSAFE") in
  let pct_hos := default None (percentiles !! "HOS") in
  let pct_crash := default None (percentiles !! "CRASH") in
  let has_any_percentile :=
    existsb (fun kv : string * option pyfloat => bool_decide (is_Some kv.2))
      (map_to_list percentiles) in
  if negb has_any_percentile then None
  else if 4 <=? n_alert_total then Some 1
  else
    let high_risk_alerts :=
      (if high_risk alert_unsafe pct_unsafe then 1 else 0)
      + (if high_risk alert_hos pct_hos then 1 else 0)
      + (if high_risk alert_crash pct_crash then 1 else 0) in
    if (2 <=? n_alert_total) && (2 <=? high_risk_alerts) then Some 1
    else if 3 <=? n_alert_roadside then Some 2
    else if n_alert_roadside =? 2 then Some 3
    else if (2 <=? n_alert_total) && (n_alert_roadside =? 1) then Some 4
    else
      let single :=
        if n_alert_total =? 1 then
          if alert_hos then Some 5
          else if alert_unsafe then Some 7
          else if alert_crash then Some 8
          else if alert_veh_maint then Some 9
          else if alert_driver_fit then Some 10
          else if alert_csaa then Some 11
          else if alert_hm then Some 12
          else None
        else None in
      match single with
      | Some g => Some g
      | None =>
          if has_any_percentile && (n_alert_total =? 0) then Some 13
          else Some 13
      end.

(** [x in (a, b, ...)] for integers *)
Definition int_in (x : Z) (xs : list Z) : bool := existsb (Z.eqb x) xs.

(** [safety_algorithm_score(group, rng)]; [rng] is the seed of a generator
    that has not drawn yet.  A call of the estimator draws at most once. *)
Definition safety_algorithm_score (P : process) (group : Z) (rng : Z) : Z :=
  if int_in group [1; 2; 3; 4; 5] then
    let base := 99 - (group - 1) * 4 in
    let variation := randint P rng (-3) 3 in
    Z.max 75 (Z.min 99 (base + variation))
  else if int_in group [7; 8; 9; 10; 11; 12] then
    let base := 74 - (group - 7) * 4 in
    let variation := randint P rng (-3) 3 in
    Z.max 50 (Z.min 74 (base + variation))
  else if group =? 13 then randint P rng 25 49
  else 62.

(** the fleet size read for case D4 *)
Definition fleet_size (carrier : dict) : result Z :=
  power_units ← get_int carrier "POWER_UNITS" 0;
  power_units ←
    (if power_units =? 0 then get_int carrier "TRUCK_UNITS" 0
     else Ok power_units);
  if power_units =? 0 then get_int carrier "TOT_PWR" 1 else Ok power_units.

Definition insufficient (score : Z) (c : string) : ISSResult := {|
  iss_score := score;
  bucket := OPTIONAL;
  source := INSUFFICIENT;
  group := None;
  case := Some c;
  alerts := ∅;
  confidence := "estimated";
|}.

(** [insufficient_data_algorithm(carrier, basic_row, config, rng)] *)
Definition insufficient_data_algorithm (P : process) (carrier : dict)
    (basic_row : dict) (config : ISSConfig) (rng : Z) : result ISSResult :=
  vehicle_insp_ct ← get_int basic_row "VEHICLE_INSP_CT" 0;
  driver_insp_ct ← get_int basic_row "DRIVER_INSP_CT" 0;
  power_units ← fleet_size carrier;
  (* Case D2: minimum inspections met *)
  if (5 <=? vehicle_insp_ct) || (3 <=? driver_insp_ct) then
    Ok (insufficient 50 "D2")
  (* Case D3: one away from the minimum *)
  else if (vehicle_insp_ct =? 4) || (driver_insp_ct =? 2) then
    let score := randint P rng 55 62 in
    Ok (insufficient score "D3")
  (* Case D4: zero inspections *)
  else if (vehicle_insp_ct =? 0) && (driver_insp_ct =? 0) then
    let score :=
      if 100 <=? power_units then 69
      else if 50 <=? power_units then 68
      else if 20 <=? power_units then 67
      else if 10 <=? power_units then 66
      else if 5 <=? power_units then 65
      else if 2 <=? power_units then 64
      else 63 in
    Ok (insufficient score "D4")
  (* Case D5: some inspections but below the threshold *)
  else
    let total_insp := vehicle_insp_ct + driver_insp_ct in
    let bin_score := Z.min 19 (total_insp * 3) in
    let score := 50 + bin_score in
    Ok (insufficient score "D5").

(** [config.seed if config.seed else hash(dot) % (2**31)]: a configured
    seed of [0] is false in a condition and falls back to the hash. *)
Definition rng_seed (P : process) (config : ISSConfig) (dot : string) : Z :=
  match seed config with
  | Some s => if s =? 0 then hash_str P dot mod 2 ^ 31 else s
  | None => hash_str P dot mod 2 ^ 31
  end.

Definition bucket_of_score (score : Z) : ISSBucket :=
  if 75 <=? score then INSPECT
  else if 50 <=? score then OPTIONAL
  else PASS.

(** [estimate_iss(carrier, basic_row, config=None)] *)
Definition estimate_iss (P : process) (carrier : dict)
    (basic_row : option dict) (config : option ISSConfig)
  : result ISSResult :=
  let config := default default_config config in
  let dot := str (get carrier "DOT_NUMBER" (PStr "")) in
  let rng := rng_seed P config dot in
  match basic_row with
  | None => insufficient_data_algorithm P carrier ∅ config rng
  | Some basic_row =>
      let alerts : gmap string bool :=
        {[ "UNSAFE" := get_alert basic_row (col_alert_unsafe config);
           "HOS" := get_alert basic_row (col_alert_hos config);
           "DRIVER_FIT" := get_alert basic_row (col_alert_driver_fit config);
           "CSAA" := get_alert basic_row (col_alert_csaa config);
           "VEH_MAINT" := get_alert basic_row (col_alert_veh_maint config);
           "HM" := get_alert basic_row (col_alert_hm config);
           "CRASH" := get_alert basic_row (col_alert_crash config) ]} in
      p_unsafe ← get_percentile basic_row (col_unsafe config);
      p_hos ← get_percentile basic_row (col_hos config);
      p_driver_fit ← get_percentile basic_row (col_driver_fit config);
      p_csaa ← get_percentile basic_row (col_csaa config);
      p_veh_maint ← get_percentile basic_row (col_veh_maint config);
      p_hm ← get_percentile basic_row (col_hm config);
      p_crash ← get_percentile basic_row (col_crash config);
      let percentiles : gmap string (option pyfloat) :=
        {[ "UNSAFE" := p_unsafe; "HOS" := p_hos;
           "DRIVER_FIT" := p_driver_fit; "CSAA" := p_csaa;
           "VEH_MAINT" := p_veh_maint; "HM" := p_hm;
           "CRASH" := p_crash ]} in
      let n_alert_total :=
        Z.of_nat (length (List.filter (fun kv : string * bool => kv.2)
                            (map_to_list alerts))) in
      let n_alert_roadside :=
        Z.of_nat (length (List.filter
                            (fun kv : string * bool =>
                               kv.2 && bool_decide (kv.1 ∈ ROADSIDE_BASICS))
                            (map_to_list alerts))) in
      match assign_group alerts percentiles n_alert_total n_alert_roadside
      with
      | None => insufficient_data_algorithm P carrier basic_row config rng
      | Some g =>
          let score := safety_algorithm_score P g rng in
          Ok {| iss_score := score;
                bucket := bucket_of_score score;
                source := SAFETY;
                group := Some g;
                case := None;
                alerts := alerts;
                confidence := "estimated" |}
      end
  end.

(** The dictionary [get_iss_display_data] returns, as a record of its
    keys. *)
Record display : Type := {
  d_iss_score : Z;
  d_iss_bucket : string;
  d_iss_source : string;
  d_iss_group : option Z;
  d_iss_case : option string;
  d_iss_alerts : gmap string bool;
  d_iss_confidence : string;
}.

(** [get_iss_display_data(carrier, basic_row, config=None)] *)
Definition get_iss_display_data (P : process) (carrier : dict)
    (basic_row : option dict) (config : option ISSConfig) : result display :=
  r ← estimate_iss P carrier basic_row config;
  Ok {| d_iss_score := iss_score r;
        d_iss_bucket := bucket_value (bucket r);
        d_iss_source := source_value (source r);
        d_iss_group := group r;
        d_iss_case := case r;
        d_iss_alerts := alerts r;
        d_iss_confidence := confidence r |}.

End Iss.

(* ===================================================================== *)
(** * fred_postgres.py: utilities and the eligibility classifier *)
(* ===================================================================== *)

Module Fred.
Import Py.

(** the character [chr(34)], the argument of [.strip(...)] in the parsers *)
Definition dquote : ascii := ascii_of_N 34.

(** [safe_int(value, default=0)].  [int(float('inf'))] raises
    [OverflowError], which the [except] clause does not list. *)
Definition safe_int (v : value) (dflt : Z) : result Z :=
  if is_none v || eq_empty v then Ok dflt
  else
    try_except
      (f ← py_float (strip_char dquote (strip (str v))); int_of_float f)
      [ValueError; TypeError] dflt.

(** [safe_float(value, default=0.0)] *)
Definition safe_float (v : value) (dflt : pyfloat) : result pyfloat :=
  if is_none v || eq_empty v then Ok dflt
  else
    try_except (py_float (strip_char dquote (strip (str v))))
      [ValueError; TypeError] dflt.

Definition true_words : list string := ["Y"; "YES"; "TRUE"; "1"; "X"].

(** [is_true_value(value)] *)
Definition is_true_value (v : value) : bool :=
  if is_none v then false
  else str_in (strip (upper (str v))) true_words.

(** [safe_str(value, default='')] *)
Definition safe_str (v : value) (dflt : string) : string :=
  if is_none v then dflt else str v.

(** [sum(f(x) for x in xs)], left to right from [acc] *)
Fixpoint sum_results {A} (f : A -> result Z) (xs : list A) (acc : Z)
  : result Z :=
  match xs with
  | [] => Ok acc
  | x :: xs' => v ← f x; sum_results f xs' (acc + v)
  end.

Definition passenger_equipment_fields : list string :=
  [ "OWNCOACH"; "TRMCOACH"; "TRPCOACH"; "OWNBUS_16"; "TRMBUS_16";
    "TRPBUS_16";
    "OWNSCHOOL_1_8"; "OWNSCHOOL_9_15"; "OWNSCHOOL_16";
    "TRMSCHOOL_1_8"; "TRMSCHOOL_9_15"; "TRMSCHOOL_16";
    "TRPSCHOOL_1_8"; "TRPSCHOOL_9_15"; "TRPSCHOOL_16";
    "OWNVAN_1_8"; "OWNVAN_9_15"; "TRMVAN_1_8"; "TRMVAN_9_15";
    "TRPVAN_1_8"; "TRPVAN_9_15";
    "OWNLIMO_1_8"; "OWNLIMO_9_15"; "OWNLIMO_16";
    "TRMLIMO_1_8"; "TRMLIMO_9_15"; "TRMLIMO_16";
    "TRPLIMO_1_8"; "TRPLIMO_9_15"; "TRPLIMO_16" ].

Definition truck_power_fields : list string :=
  [ "TRUCK_UNITS"; "POWER_UNITS";
    "OWNTRUCK"; "OWNTRACT"; "TRMTRUCK"; "TRMTRACT"; "TRPTRUCK";
    "TRPTRACT" ].

(** [sum(safe_int(carrier.get(f, '')) for f in fields)] *)
Definition sum_fields (carrier : dict) (fields : list string) : result Z :=
  sum_results (fun f => safe_int (get carrier f (PStr "")) 0) fields 0.

(** The conditions of the cascade, in the order the classifier reads
    them.  Each is written once and used by [should_exclude_carrier]. *)

(** Rule 1: a status code is present and is not "A" *)
Definition status_code (carrier : dict) : string :=
  strip (upper (safe_str (get carrier "STATUS_CODE" (PStr "")) "")).

Definition inactive (carrier : dict) : bool :=
  negb (String.eqb (status_code carrier) "")
  && negb (String.eqb (status_code carrier) "A").

(** Rule 2, first test: the classification text names passengers *)
Definition classdef_upper (carrier : dict) : string :=
  upper (safe_str (get carrier "CLASSDEF" (PStr "")) "").

Definition passenger_classdef (carrier : dict) : bool :=
  contains "PRIVATE PASSENGER" (classdef_upper carrier)
  || str_in "PASSENGER" (split ";" (classdef_upper carrier)).

(** Rule 4: the authority named by the classification text *)
Definition has_us_mail (classdef : string) : bool :=
  contains "U. S. MAIL" classdef || contains "U.S. MAIL" classdef
  || contains "US MAIL" classdef.

(** the legacy authority flags of the fallback *)
Definition other_authority (carrier : dict) : bool :=
  is_true_value (get carrier "US_MAIL" (PStr ""))
  || is_true_value (get carrier "FEDERAL_GOVERNMENT" (PStr ""))
  || is_true_value (get carrier "STATE_GOVERNMENT" (PStr ""))
  || is_true_value (get carrier "LOCAL_GOVERNMENT" (PStr ""))
  || is_true_value (get carrier "INDIAN_TRIBE" (PStr ""))
  || is_true_value (get carrier "MIGRANT" (PStr "")).

(** Rules 4 to 6: what the authority fields decide once a carrier has
    passed the first three rules *)
Definition authority_outcome (carrier : dict) : bool * string :=
  let classdef := classdef_upper carrier in
  let has_authorized_for_hire := contains "AUTHORIZED FOR HIRE" classdef in
  let has_exempt_for_hire := contains "EXEMPT FOR HIRE" classdef in
  let has_private_property := contains "PRIVATE PROPERTY" classdef in
  if has_authorized_for_hire || has_exempt_for_hire then (false, "")
  else if has_us_mail classdef then (false, "")
  else if has_private_property then (true, "private_not_for_hire")
  else
    let is_private_property :=
      is_true_value (get carrier "PRIVATE_PROPERTY" (PStr "")) in
    let is_authorized_for_hire :=
      is_true_value (get carrier "AUTHORIZED_FOR_HIRE" (PStr "")) in
    let is_exempt_for_hire :=
      is_true_value (get carrier "EXEMPT_FOR_HIRE" (PStr "")) in
    if is_private_property && negb is_authorized_for_hire
       && negb is_exempt_for_hire
    then (true, "private_not_for_hire")
    else if is_authorized_for_hire || is_exempt_for_hire then (false, "")
    else if other_authority carrier then (false, "")
    else (true, "no_for_hire_authority").

(** [should_exclude_carrier(carrier)] *)
Definition should_exclude_carrier (carrier : dict) : result (bool * string) :=
  (* Rule 1: inactive / not in service *)
  if inactive carrier then Ok (true, "inactive_status")
  (* Rule 2: passenger carriers *)
  else if passenger_classdef carrier then Ok (true, "passenger_operation")
  else if is_true_value (get carrier "CRGO_PASSENGERS" (PStr ""))
  then Ok (true, "passenger_operation")
  else
    total_passenger_equipment ← sum_fields carrier passenger_equipment_fields;
    if 0 <? total_passenger_equipment then Ok (true, "passenger_operation")
    else if is_true_value (get carrier "PRIVATE_PASSENGER_BUSINESS" (PStr ""))
    then Ok (true, "passenger_operation")
    else if is_true_value
              (get carrier "PRIVATE_PASSENGER_NONBUSINESS" (PStr ""))
    then Ok (true, "passenger_operation")
    else
      (* Rule 3: no truck or tractor power *)
      total_truck_power ← sum_fields carrier truck_power_fields;
      if total_truck_power <=? 0 then Ok (true, "no_truck_power")
      (* Rules 4 to 6: for-hire authority *)
      else Ok (authority_outcome carrier).

(** ** Scoring functions *)

Definition Qltb (a b : Q) : bool := negb (Qle_bool b a).

(** [max(a, b)] and [min(a, b)]: the first argument is kept unless the
    second is strictly greater (smaller) *)
Definition py_max (a b : Q) : Q := if Qltb a b then b else a.
Definition py_min (a b : Q) : Q := if Qltb b a then b else a.

Definition value_eqb (a b : value) : bool :=
  match a, b with
  | PNone, PNone => true
  | PStr x, PStr y => String.eqb x y
  | PInt x, PInt y => x =? y
  | _, _ => false
  end.

(** A risk flag: its kind and the values formatted into its text. *)
Inductive flag : Type :=
| BasicAlert (name : string)
| FatalCrashes (fatalities : Z)
| InjuryCrashes (injuries : Z)
| HazmatReleases (releases : Z)
| HighCrashFrequency (total_crashes : Z)
| HighOOSRate (oos_rate : Q)
| ElevatedOOSRate (oos_rate : Q)
| ViolationPattern (basic : value) (count : Z).

(** a [for] loop that threads a state and may raise *)
Fixpoint for_each {A S} (body : S -> A -> result S) (s : S) (xs : list A)
  : result S :=
  match xs with
  | [] => Ok s
  | x :: xs' => s' ← body s x; for_each body s' xs'
  end.

(** [calculate_experience_score(carrier)] *)
Definition calculate_experience_score (P : process) (carrier : dict)
  : result Q :=
  let score : Q := 100%Q in
  let add_date_str := safe_str (get carrier "ADD_DATE" (PStr "")) "" in
  score ←
    (if negb (String.eqb add_date_str "") && (8 <=? len add_date_str) then
       try_except
         (add_year ← py_int (slice 0 4 add_date_str);
          add_month ← py_int (slice 4 6 add_date_str);
          add_day ← py_int (slice 6 8 add_date_str);
          add_date ← date_ordinal add_year add_month add_day;
          let years_operating :=
            (inject_Z (today P - add_date) / 365.25)%Q in
          if Qltb years_operating 1 then Ok (score - 30)%Q
          else if Qltb years_operating 2 then Ok (score - 20)%Q
          else if Qltb years_operating 3 then Ok (score - 10)%Q
          else if Qltb years_operating 5 then Ok (score - 5)%Q
          else Ok score)
         [ValueError; TypeError] score
     else Ok score);
  Ok (py_max 0 score).

Definition basic_categories : list (string * string * string) :=
  [ ("UNSAFE_DRIV_MEASURE", "UNSAFE_DRIV_ALERT", "Unsafe Driving");
    ("HOS_DRIV_MEASURE", "HOS_DRIV_ALERT", "Hours-of-Service");
    ("DRIV_FIT_MEASURE", "DRIV_FIT_ALERT", "Driver Fitness");
    ("CONTR_SUBST_MEASURE", "CONTR_SUBST_ALERT", "Controlled Substances");
    ("VEH_MAINT_MEASURE", "VEH_MAINT_ALERT", "Vehicle Maintenance");
    ("HM_MEASURE", "HM_ALERT", "Hazardous Materials");
    ("CRASH_MEASURE", "CRASH_ALERT", "Crash Indicator") ].

(** the body of the loop over [basic_categories] *)
Definition safety_step (basic : dict) (st : Q * list flag)
    (cat : string * string * string) : result (Q * list flag) :=
  let '(score, flags) := st in
  let '(measure_col, alert_col, name) := cat in
  measure ← safe_float (get basic measure_col PNone) (FFinite 0);
  let has_alert := is_true_value (get basic alert_col (PStr "")) in
  if has_alert then Ok ((score - 15)%Q, flags ++ [BasicAlert name])
  else if float_ge measure 75 then Ok ((score - 10)%Q, flags)
  else if float_ge measure 65 then Ok ((score - 5)%Q, flags)
  else Ok (score, flags).

(** [calculate_safety_score(carrier, basic_data)] *)
Definition calculate_safety_score (carrier : dict) (basic_data : list dict)
  : result (Q * list flag) :=
  match basic_data with
  | [] => Ok (100%Q, [])
  | basic :: _ =>
      '(score, flags) ←
        for_each (safety_step basic) (100%Q, []) basic_categories;
      Ok (py_max 0 score, flags)
  end.

(** the body of the loop over the crash records *)
Definition crash_step (st : Z * Z * Z) (crash : dict) : result (Z * Z * Z) :=
  let '(fatalities, injuries, hazmat_releases) := st in
  f ← safe_int (get crash "FATALITIES" (PInt 0)) 0;
  i ← safe_int (get crash "INJURIES" (PInt 0)) 0;
  Ok (fatalities + f, injuries + i,
      if is_true_value (get crash "HAZMAT_RELEASED" (PStr ""))
      then hazmat_releases + 1 else hazmat_releases).

(** [calculate_crash_score(carrier, crashes)] *)
Definition calculate_crash_score (carrier : dict) (crashes : list dict)
  : result (Q * list flag) :=
  match crashes with
  | [] => Ok (100%Q, [])
  | _ =>
      let total_crashes := Z.of_nat (length crashes) in
      '(fatalities, injuries, hazmat_releases) ←
        for_each crash_step (0, 0, 0) crashes;
      let score : Q := 100%Q in
      let flags : list flag := [] in
      let '(score, flags) :=
        if 0 <? fatalities
        then ((score - inject_Z (Z.min 50 (fatalities * 25)))%Q,
              flags ++ [FatalCrashes fatalities])
        else (score, flags) in
      let '(score, flags) :=
        if 0 <? injuries
        then ((score - inject_Z (Z.min 30 (injuries * 5)))%Q,
              flags ++ [InjuryCrashes injuries])
        else (score, flags) in
      let '(score, flags) :=
        if 0 <? hazmat_releases
        then ((score - inject_Z (Z.min 20 (hazmat_releases * 10)))%Q,
              flags ++ [HazmatReleases hazmat_releases])
        else (score, flags) in
      let '(score, flags) :=
        if 5 <=? total_crashes
        then ((score - 15)%Q, flags ++ [HighCrashFrequency total_crashes])
        else if 3 <=? total_crashes
        then ((score - 10)%Q, flags ++ [HighCrashFrequency total_crashes])
        else if 1 <=? total_crashes
        then (score, flags ++ [HighCrashFrequency total_crashes])
        else (score, flags) in
      Ok (py_max 0 score, flags)
  end.

(** [violation_by_basic[basic] += 1] on a [defaultdict(int)], which keeps
    its keys in the order they were first counted *)
Fixpoint count_key (k : value) (m : list (value * Z)) : list (value * Z) :=
  match m with
  | [] => [(k, 1)]
  | (k', n) :: m' =>
      if value_eqb k k' then (k', n + 1) :: m'
      else (k', n) :: count_key k m'
  end.

Definition violation_by_basic (violations : list dict) : list (value * Z) :=
  fold_left (fun m v => count_key (get v "BASIC_Desc" (PStr "Unknown")) m)
    violations [].

(** [calculate_inspection_score(carrier, inspections, violations)] *)
Definition calculate_inspection_score (carrier : dict)
    (inspections violations : list dict) : result (Q * list flag) :=
  match inspections with
  | [] => Ok (100%Q, [])
  | _ =>
      let score : Q := 100%Q in
      let flags : list flag := [] in
      let total_inspections := Z.of_nat (length inspections) in
      let oos_count :=
        Z.of_nat (length (List.filter
           (fun i => is_true_value (get i "OOS_TOTAL" (PStr "")))
           inspections)) in
      '(score, flags) ←
        (if 0 <? total_inspections then
           ratio ← truediv (inject_Z oos_count) (inject_Z total_inspections);
           let oos_rate := (ratio * 100)%Q in
           if Qle_bool 50 oos_rate
           then Ok ((score - 30)%Q, flags ++ [HighOOSRate oos_rate])
           else if Qle_bool 30 oos_rate
           then Ok ((score - 20)%Q, flags ++ [ElevatedOOSRate oos_rate])
           else if Qle_bool 20 oos_rate then Ok ((score - 10)%Q, flags)
           else Ok (score, flags)
         else Ok (score, flags));
      let flags :=
        flags ++
        map (fun kc : value * Z => ViolationPattern kc.1 kc.2)
          (List.filter (fun kc : value * Z => 10 <=? kc.2)
             (violation_by_basic violations)) in
      Ok (py_max 0 score, flags)
  end.

(** ** The per-carrier pass *)

(** The tables [data[...]] that [process_carrier] reads, keyed by DOT
    number.  The trend tables are copied into the result unread and are
    left out, as are the name, address, contact, scope and commodity
    entries of the result: none of them is read by a later pass. *)
Record dataset : Type := {
  basic_by_dot : gmap string (list dict);
  crashes_by_dot : gmap string (list dict);
  inspections_by_dot : gmap string (list dict);
  violations_by_dot : gmap string (list dict);
}.

(** The dictionary built by [process_carrier]. *)
Record score_result : Type := {
  dot_number : string;
  power_units : Z;
  drivers : Z;
  total_drivers : Z;
  cdl_drivers : Z;
  own_trucks : Z;
  own_tractors : Z;
  own_trailers : Z;
  term_trucks : Z;
  term_tractors : Z;
  term_trailers : Z;
  trip_trucks : Z;
  trip_tractors : Z;
  trip_trailers : Z;
  experience_score : Q;
  safety_score : Q;
  crash_score : Q;
  inspection_score : Q;
  combined_score : Q;
  risk_flags : list flag;
  annual_mileage : Z;
  has_sufficient_mileage : bool;
  iss_score : option Z;
  iss_bucket : option string;
  iss_source : option string;
  crash_count : Z;
  inspection_count : Z;
  violation_count : Z;
  rank : option Z;
  fred_score_grade : option string;
  insurance_rating : option Q;
}.

(** [HAS_ISS]: the estimator module is part of the repository *)
Definition HAS_ISS : bool := true.

(** [process_carrier(carrier, data)] *)
Definition process_carrier (P : process) (carrier : dict) (data : dataset)
  : result score_result :=
  let dot := strip (str (get carrier "DOT_NUMBER" (PStr ""))) in
  let basic_data := default [] (basic_by_dot data !! dot) in
  let crashes := default [] (crashes_by_dot data !! dot) in
  let inspections := default [] (inspections_by_dot data !! dot) in
  let violations := default [] (violations_by_dot data !! dot) in
  experience_score ← calculate_experience_score P carrier;
  '(safety_score, safety_flags) ← calculate_safety_score carrier basic_data;
  '(crash_score, crash_flags) ← calculate_crash_score carrier crashes;
  '(inspection_score, inspection_flags) ←
    calculate_inspection_score carrier inspections violations;
  let all_flags := safety_flags ++ crash_flags ++ inspection_flags in
  mileage ← safe_int (get carrier "MCS150_MILEAGE" (PInt 0)) 0;
  mileage ←
    (if mileage =? 0 then safe_int (get carrier "TOT_MILEAGE" (PInt 0)) 0
     else Ok mileage);
  let iss_data : option Iss.display :=
    match basic_data with
    | basic :: _ =>
        if HAS_ISS then
          try_except_all
            (d ← Iss.get_iss_display_data P carrier (Some basic) None;
             Ok (Some d))
            None
        else None
    | [] => None
    end in
  own_trucks ← safe_int (get carrier "OWNTRUCK" (PInt 0)) 0;
  own_tractors ← safe_int (get carrier "OWNTRACT" (PInt 0)) 0;
  own_trailers ← safe_int (get carrier "OWNTRAIL" (PInt 0)) 0;
  term_trucks ← safe_int (get carrier "TRMTRUCK" (PInt 0)) 0;
  term_tractors ← safe_int (get carrier "TRMTRACT" (PInt 0)) 0;
  term_trailers ← safe_int (get carrier "TRMTRAIL" (PInt 0)) 0;
  trip_trucks ← safe_int (get carrier "TRPTRUCK" (PInt 0)) 0;
  trip_tractors ← safe_int (get carrier "TRPTRACT" (PInt 0)) 0;
  trip_trailers ← safe_int (get carrier "TRPTRAIL" (PInt 0)) 0;
  power_units ← safe_int (get carrier "POWER_UNITS" (PInt 0)) 0;
  drivers ← safe_int (get carrier "DRIVERS" (PInt 0)) 0;
  total_drivers ← safe_int (get carrier "TOTAL_DRIVERS" (PInt 0)) 0;
  cdl_drivers ← safe_int (get carrier "TOTAL_CDL" (PInt 0)) 0;
  Ok {|
    dot_number := dot;
    power_units := power_units;
    drivers := drivers;
    total_drivers := total_drivers;
    cdl_drivers := cdl_drivers;
    own_trucks := own_trucks;
    own_tractors := own_tractors;
    own_trailers := own_trailers;
    term_trucks := term_trucks;
    term_tractors := term_tractors;
    term_trailers := term_trailers;
    trip_trucks := trip_trucks;
    trip_tractors := trip_tractors;
    trip_trailers := trip_trailers;
    experience_score := round_ndigits experience_score 1;
    safety_score := round_ndigits safety_score 1;
    crash_score := round_ndigits crash_score 1;
    inspection_score := round_ndigits inspection_score 1;
    combined_score :=
      round_ndigits
        (experience_score * 0.15 + safety_score * 0.35
         + crash_score * 0.30 + inspection_score * 0.20)%Q 1;
    risk_flags := all_flags;
    annual_mileage := mileage;
    has_sufficient_mileage := 100000 <=? mileage;
    iss_score := Iss.d_iss_score <$> iss_data;
    iss_bucket := Iss.d_iss_bucket <$> iss_data;
    iss_source := Iss.d_iss_source <$> iss_data;
    crash_count := Z.of_nat (length crashes);
    inspection_count := Z.of_nat (length inspections);
    violation_count := Z.of_nat (length violations);
    rank := None;
    fred_score_grade := None;
    insurance_rating := None;
  |}.

(** ** The population passes *)

(** [r['rank'] = v] *)
Definition set_rank (v : option Z) (r : score_result) : score_result := {|
  dot_number := dot_number r;
  power_units := power_units r;
  drivers := drivers r;
  total_drivers := total_drivers r;
  cdl_drivers := cdl_drivers r;
  own_trucks := own_trucks r;
  own_tractors := own_tractors r;
  own_trailers := own_trailers r;
  term_trucks := term_trucks r;
  term_tractors := term_tractors r;
  term_trailers := term_trailers r;
  trip_trucks := trip_trucks r;
  trip_tractors := trip_tractors r;
  trip_trailers := trip_trailers r;
  experience_score := experience_score r;
  safety_score := safety_score r;
  crash_score := crash_score r;
  inspection_score := inspection_score r;
  combined_score := combined_score r;
  risk_flags := risk_flags r;
  annual_mileage := annual_mileage r;
  has_sufficient_mileage := has_sufficient_mileage r;
  iss_score := iss_score r;
  iss_bucket := iss_bucket r;
  iss_source := iss_source r;
  crash_count := crash_count r;
  inspection_count := inspection_count r;
  violation_count := violation_count r;
  rank := v;
  fred_score_grade := fred_score_grade r;
  insurance_rating := insurance_rating r;
|}.

(** [r['fred_score_grade'] = v] *)
Definition set_fred_score_grade (v : option string) (r : score_result) : score_result := {|
  dot_number := dot_number r;
  power_units := power_units r;
  drivers := drivers r;
  total_drivers := total_drivers r;
  cdl_drivers := cdl_drivers r;
  own_trucks := own_trucks r;
  own_tractors := own_tractors r;
  own_trailers := own_trailers r;
  term_trucks := term_trucks r;
  term_tractors := term_tractors r;
  term_trailers := term_trailers r;
  trip_trucks := trip_trucks r;
  trip_tractors := trip_tractors r;
  trip_trailers := trip_trailers r;
  experience_score := experience_score r;
  safety_score := safety_score r;
  crash_score := crash_score r;
  inspection_score := inspection_score r;
  combined_score := combined_score r;
  risk_flags := risk_flags r;
  annual_mileage := annual_mileage r;
  has_sufficient_mileage := has_sufficient_mileage r;
  iss_score := iss_score r;
  iss_bucket := iss_bucket r;
  iss_source := iss_source r;
  crash_count := crash_count r;
  inspection_count := inspection_count r;
  violation_count := violation_count r;
  rank := rank r;
  fred_score_grade := v;
  insurance_rating := insurance_rating r;
|}.

(** [r['insurance_rating'] = v] *)
Definition set_insurance_rating (v : option Q) (r : score_result) : score_result := {|
  dot_number := dot_number r;
  power_units := power_units r;
  drivers := drivers r;
  total_drivers := total_drivers r;
  cdl_drivers := cdl_drivers r;
  own_trucks := own_trucks r;
  own_tractors := own_tractors r;
  own_trailers := own_trailers r;
  term_trucks := term_trucks r;
  term_tractors := term_tractors r;
  term_trailers := term_trailers r;
  trip_trucks := trip_trucks r;
  trip_tractors := trip_tractors r;
  trip_trailers := trip_trailers r;
  experience_score := experience_score r;
  safety_score := safety_score r;
  crash_score := crash_score r;
  inspection_score := inspection_score r;
  combined_score := combined_score r;
  risk_flags := risk_flags r;
  annual_mileage := annual_mileage r;
  has_sufficient_mileage := has_sufficient_mileage r;
  iss_score := iss_score r;
  iss_bucket := iss_bucket r;
  iss_source := iss_source r;
  crash_count := crash_count r;
  inspection_count := inspection_count r;
  violation_count := violation_count r;
  rank := rank r;
  fred_score_grade := fred_score_grade r;
  insurance_rating := v;
|}.

(** The list [results] holds one dictionary per carrier, each built by its
    own call of [process_carrier]; the passes below filter and sort
    references to these dictionaries and write to them in place.  A
    reference is the position in [results], kept with the dictionary it
    points to; a write is an [alter] of the store at that position.  The
    entries a pass reads are not the ones it writes. *)
Definition enumerate {A} (l : list A) : list (nat * A) :=
  imap (fun i x => (i, x)) l.

(** [[r for r in results if r['has_sufficient_mileage']]] *)
Definition eligible_refs (results : list score_result)
  : list (nat * score_result) :=
  List.filter (fun ir : nat * score_result => has_sufficient_mileage ir.2)
    (enumerate results).

(** [sum(...)] over integers *)
Definition sum_Z (l : list Z) : Z := fold_left Z.add l 0.

(** the rating computed in pass 2 for a carrier with positive mileage *)
Definition rating_of (global_viol_rate global_crash_rate : Q)
    (r : score_result) : result Q :=
  mileage_100k ← truediv (inject_Z (annual_mileage r)) 100000;
  viol_rate ← truediv (inject_Z (violation_count r)) mileage_100k;
  crash_rate ← truediv (inject_Z (crash_count r)) mileage_100k;
  viol_mult ←
    (if Qltb 0 global_viol_rate then truediv viol_rate global_viol_rate
     else Ok 1%Q);
  crash_mult ←
    (if Qltb 0 global_crash_rate then truediv crash_rate global_crash_rate
     else Ok 1%Q);
  let rating := (100 * (0.4 * viol_mult + 0.6 * crash_mult))%Q in
  let rating := py_max 1 (py_min 500 rating) in
  Ok (round_ndigits rating 2).

(** the body of the loop of pass 2 *)
Definition insurance_step (global_viol_rate global_crash_rate : Q)
    (store : list score_result) (ir : nat * score_result)
  : result (list score_result) :=
  let '(i, r) := ir in
  if 0 <? annual_mileage r then
    rating ← rating_of global_viol_rate global_crash_rate r;
    Ok (alter (set_insurance_rating (Some rating)) i store)
  else Ok store.

(** the two global rates of pass 1 *)
Definition global_rates (eligible : list (nat * score_result))
  : result (Q * Q) :=
  let total_violations :=
    sum_Z (map (fun ir : nat * score_result => violation_count ir.2)
             eligible) in
  let total_crashes :=
    sum_Z (map (fun ir : nat * score_result => crash_count ir.2)
             eligible) in
  let total_mileage :=
    sum_Z (map (fun ir : nat * score_result => annual_mileage ir.2)
             eligible) in
  if 0 <? total_mileage then
    v ← truediv (inject_Z total_violations) (inject_Z total_mileage);
    c ← truediv (inject_Z total_crashes) (inject_Z total_mileage);
    Ok ((v * 100000)%Q, (c * 100000)%Q)
  else Ok (0%Q, 0%Q).

(** [calculate_insurance_ratings(results)]: the store after the call.
    The statistics printed at the end are left out. *)
Definition calculate_insurance_ratings (results : list score_result)
  : result (list score_result) :=
  let eligible := eligible_refs results in
  match eligible with
  | [] => Ok results
  | _ =>
      '(global_viol_rate, global_crash_rate) ← global_rates eligible;
      for_each (insurance_step global_viol_rate global_crash_rate)
        results eligible
  end.

Definition grade_thresholds : list (Q * string) :=
  [ (0.03, "A+"); (0.10, "A"); (0.20, "A-");
    (0.30, "B+"); (0.45, "B"); (0.55, "B-");
    (0.65, "C+"); (0.75, "C"); (0.85, "C-");
    (0.90, "D+"); (0.96, "D"); (0.98, "D-");
    (1.00, "F") ]%Q.

(** [list.sort(key=..., reverse=True)]: descending and stable, records
    with equal keys keep their order *)
Fixpoint insert_desc {A} (key : A -> Q) (x : A) (l : list A) : list A :=
  match l with
  | [] => [x]
  | y :: l' =>
      if Qltb (key x) (key y) then y :: insert_desc key x l'
      else x :: l
  end.

Definition sort_desc {A} (key : A -> Q) (l : list A) : list A :=
  fold_right (insert_desc key) [] l.

(** the first grade whose ceiling is at least the percentile *)
Definition grade_for (percentile : Q) : option string :=
  snd <$> List.find (fun tg : Q * string => Qle_bool percentile tg.1)
            grade_thresholds.

(** The same walk with the binary64 arithmetic of the interpreter:
    [i / len(eligible)] is the correctly rounded quotient of two integers
    and the ceilings are the doubles nearest to the decimal literals. *)
Definition b64_of_nat (k : nat) : float :=
  PrimFloat.of_uint63 (Uint63.of_Z (Z.of_nat k)).

Definition grade_thresholds_b64 : list (float * string) :=
  [ (0.03, "A+"); (0.10, "A"); (0.20, "A-");
    (0.30, "B+"); (0.45, "B"); (0.55, "B-");
    (0.65, "C+"); (0.75, "C"); (0.85, "C-");
    (0.90, "D+"); (0.96, "D"); (0.98, "D-");
    (1.00, "F") ]%float.

Definition grade_for_b64 (n k : nat) : option string :=
  snd <$> List.find
            (fun tg : float * string =>
               PrimFloat.leb (PrimFloat.div (b64_of_nat k) (b64_of_nat n)) tg.1)
            grade_thresholds_b64.

(** The weighted sum of [process_carrier] with the binary64 arithmetic of
    the interpreter, for scores given as integers. *)
Definition weighted_sum_b64 (e s c i : nat) : float :=
  (b64_of_nat e * 0.15 + b64_of_nat s * 0.35 + b64_of_nat c * 0.30
   + b64_of_nat i * 0.20)%float.

(** the multiples of 5 from 0 to 100 *)
Definition score_steps : list nat := map (Nat.mul 5) (seq 0 21).

(** the body of the loop over the sorted eligible carriers; [n] is
    [len(eligible)] and [k] the index given by [enumerate] *)
Definition grade_step (n : Z)
    (st : list score_result * gmap string Z)
    (kir : nat * (nat * score_result))
  : result (list score_result * gmap string Z) :=
  let '(store, grade_counts) := st in
  let '(k, (i, r)) := kir in
  percentile ← truediv (inject_Z (Z.of_nat k)) (inject_Z n);
  let store := alter (set_rank (Some (Z.of_nat k + 1))) i store in
  match grade_for percentile with
  | Some grade =>
      Ok (alter (set_fred_score_grade (Some grade)) i store,
          <[grade := default 0 (grade_counts !! grade) + 1]> grade_counts)
  | None => Ok (store, grade_counts)
  end.

(** the table printed at the end: grade, count and share in percent *)
Definition grade_distribution (grade_counts : gmap string Z)
    (eligible : list (nat * score_result)) : result (list (string * Z * Q)) :=
  for_each
    (fun acc (tg : Q * string) =>
       let count := default 0 (grade_counts !! tg.2) in
       pct ←
         (match eligible with
          | _ :: _ =>
              q ← truediv (inject_Z count)
                    (inject_Z (Z.of_nat (length eligible)));
              Ok (q * 100)%Q
          | [] => Ok 0%Q
          end);
       Ok (acc ++ [(tg.2, count, pct)]))
    [] grade_thresholds.

(** [assign_fred_grades(results)]: the store after the call *)
Definition assign_fred_grades (results : list score_result)
  : result (list score_result) :=
  let eligible :=
    sort_desc (fun ir : nat * score_result => combined_score ir.2)
      (eligible_refs results) in
  '(store, grade_counts) ←
    for_each (grade_step (Z.of_nat (length eligible))) (results, ∅)
      (enumerate eligible);
  _ ← grade_distribution grade_counts eligible;
  Ok store.

(** [process_all_carriers(carriers, data)] *)
Definition process_all_carriers (P : process) (carriers : list dict)
    (data : dataset) : result (list score_result) :=
  results ←
    for_each (fun results carrier =>
                result ← process_carrier P carrier data;
                Ok (results ++ [result]))
      [] carriers;
  results ← calculate_insurance_ratings results;
  assign_fred_grades results.

End Fred.

(* ===================================================================== *)
(** * fred_postgres.py: rows, field names and dates; the credibility factor of iss_estimator.py *)
(* ===================================================================== *)

Module Rows.
Import Py.


(** a character of the class [[a-z0-9]] *)
Definition is_lower_alnum (c : ascii) : bool :=
  let n := N_of_ascii c in
  ((97 <=? n)%N && (n <=? 122)%N) || ((48 <=? n)%N && (n <=? 57)%N).

(** [re.sub(r'[^a-z0-9]+', '_', s)]: every maximal run of characters
    outside the class becomes one underscore; [in_run] tells that the
    run the scan is in has been replaced already *)
Fixpoint sub_runs (in_run : bool) (s : string) : string :=
  match s with
  | EmptyString => EmptyString
  | String c s' =>
      if is_lower_alnum c then String c (sub_runs false s')
      else if in_run then sub_runs true s'
      else String "_" (sub_runs true s')
  end.

(** [normalize_fieldname(name)] *)
Definition normalize_fieldname (name : option string) : string :=
  match name with
  | None => ""
  | Some name =>
      let name := lower (strip name) in
      let name := sub_runs false name in
      strip_char "_" name
  end.

(** A row as [csv.DictReader] yields it: the cells in the order of the
    header, under pairwise distinct keys. *)
Definition row : Type := list (string * value).

(** [key in d] *)
Definition has_key (key : string) (d : row) : bool :=
  existsb (fun kv : string * value => String.eqb key kv.1) d.

(** the body of the loop of [augment_row_with_normalized_keys]; a new key
    goes to the end of the dictionary *)
Definition augment_step (augmented : row) (kv : string * value) : row :=
  let normalized := normalize_fieldname (Some kv.1) in
  if negb (String.eqb normalized "") && negb (has_key normalized augmented)
  then augmented ++ [(normalized, kv.2)]
  else augmented.

(** [augment_row_with_normalized_keys(row)] *)
Definition augment_row_with_normalized_keys (r : row) : row :=
  fold_left augment_step r r.

(** the row as the dictionary the engine reads *)
Definition dict_of (r : row) : dict := list_to_map r.

End Rows.

Module Dates.
Import Py.

(** a [datetime] at midnight *)
Record date : Type := { year : Z; month : Z; day : Z }.

(** the day of the month under [%d]: the pattern
    [3[0-1]|[1-2]\d|0[1-9]|[1-9]| [1-9]]; the token read and the rest *)
Definition day_token (l : list ascii) : option (Z * list ascii) :=
  match l with
  | c1 :: c2 :: rest =>
      match digit_val c1, digit_val c2 with
      | Some a, Some b =>
          if ((a =? 3) && (b <=? 1)) || ((1 <=? a) && (a <=? 2))
             || ((a =? 0) && (1 <=? b))
          then Some (10 * a + b, rest)
          else if 1 <=? a then Some (a, c2 :: rest) else None
      | Some a, None => if 1 <=? a then Some (a, c2 :: rest) else None
      | None, Some b =>
          if Ascii.eqb c1 " " && (1 <=? b) then Some (b, rest) else None
      | None, None => None
      end
  | [c1] =>
      match digit_val c1 with
      | Some a => if 1 <=? a then Some (a, []) else None
      | None => None
      end
  | [] => None
  end.

(** the abbreviated month names of the C locale *)
Definition month_names : list string :=
  [ "jan"; "feb"; "mar"; "apr"; "may"; "jun";
    "jul"; "aug"; "sep"; "oct"; "nov"; "dec" ].

Fixpoint index_of (x : string) (l : list string) (i : Z) : option Z :=
  match l with
  | [] => None
  | y :: l' => if String.eqb x y then Some i else index_of x l' (i + 1)
  end.

(** the month under [%b], matched without regard to case *)
Definition month_token (l : list ascii) : option (Z * list ascii) :=
  match l with
  | c1 :: c2 :: c3 :: rest =>
      match index_of (lower (string_of_list_ascii [c1; c2; c3]))
              month_names 1 with
      | Some m => Some (m, rest)
      | None => None
      end
  | _ => None
  end.

(** the year under [%y]: two digits, from 69 to 99 in the century 1900
    and from 00 to 68 in the century 2000 *)
Definition year_token (l : list ascii) : option (Z * list ascii) :=
  match l with
  | c1 :: c2 :: rest =>
      match digit_val c1, digit_val c2 with
      | Some a, Some b =>
          let y := 10 * a + b in
          Some (if y <=? 68 then y + 2000 else y + 1900, rest)
      | _, _ => None
      end
  | _ => None
  end.

Definition hyphen (l : list ascii) : option (list ascii) :=
  match l with
  | "-"%char :: rest => Some rest
  | _ => None
  end.

(** [datetime.strptime(s, '%d-%b-%y')]; [None] is [ValueError]: the text
    does not match, text remains after the year, or the day is not one of
    the month *)
Definition strptime (s : string) : option date :=
  '(d, l) ← day_token (list_ascii_of_string s);
  l ← hyphen l;
  '(m, l) ← month_token l;
  l ← hyphen l;
  '(y, l) ← year_token l;
  match l with
  | [] =>
      match date_ordinal y m d with
      | Ok _ => Some {| year := y; month := m; day := d |}
      | Raise _ => None
      end
  | _ => None
  end.

End Dates.

Module Trends.
Import Py Dates.

(** [parse_fmcsa_date(date_str)] *)
Definition parse_fmcsa_date (date_str : option string) : option date :=
  match date_str with
  | None => None
  | Some s =>
      if String.eqb s "" then None
      else strptime (strip_char Fred.dquote s)
  end.

(** [get_quarter_period(dt)] *)
Definition get_quarter_period (dt : date) : string :=
  let quarter := (month dt - 1) / 3 + 1 in
  ("Q" ++ str (PInt quarter) ++ " " ++ str (PInt (year dt)))%string.

End Trends.

Module Credibility.
Import Py.

(** [calculate_credibility(vehicle_insp_ct, driver_insp_ct)], which no
    function of the estimator calls *)
Definition calculate_credibility (vehicle_insp_ct driver_insp_ct : Z) : Q :=
  let veh_cred := Fred.py_min 1 (inject_Z vehicle_insp_ct / 5) in
  let drv_cred := Fred.py_min 1 (inject_Z driver_insp_ct / 3) in
  ((veh_cred + drv_cred) / 2)%Q.

End Credibility.

(* ===================================================================== *)
(** * Interpreter processes and records used as examples *)
(* ===================================================================== *)

Module Sample.

(** Two processes, with the values observed in CPython 3.11 started with
    [PYTHONHASHSEED=1] and with [PYTHONHASHSEED=2]: [hash('12345')], and
    the first [_randbelow(7)] of [random.Random(hash('12345') % 2**31)],
    which is [1] in the first process ([randint(-3, 3) = -2]) and [4] in
    the second ([randint(-3, 3) = 1]).  Arguments that were not observed
    are mapped to [0].  The date of both runs is 2026-11-04. *)

Definition hash_1 (s : string) : Z :=
  if String.eqb s "12345" then 4252209717912509601 else 0.

Definition hash_2 (s : string) : Z :=
  if String.eqb s "12345" then 3506579155491189276 else 0.

Definition randbelow (seed n : Z) : Z :=
  if (seed =? 312712353) && (n =? 7) then 1
  else if (seed =? 1272410652) && (n =? 7) then 4
  else 0.

Lemma randbelow_range (seed n : Z) : 0 < n -> 0 <= randbelow seed n < n.
Proof.
  intros Hn. unfold randbelow.
  destruct (Z.eqb_spec seed 312712353), (Z.eqb_spec n 7); simpl;
    try lia;
    destruct (Z.eqb_spec seed 1272410652); simpl; lia.
Qed.

Definition process_1 : Py.process := {|
  Py.hash_str := hash_1;
  Py.today := 739924;
  Py.randbelow := randbelow;
  Py.randbelow_range := randbelow_range;
|}.

Definition process_2 : Py.process := {|
  Py.hash_str := hash_2;
  Py.today := 739924;
  Py.randbelow := randbelow;
  Py.randbelow_range := randbelow_range;
|}.

(** the first process a year later, on 2027-11-04 *)
Definition process_next_year : Py.process := {|
  Py.hash_str := hash_1;
  Py.today := 740289;
  Py.randbelow := randbelow;
  Py.randbelow_range := randbelow_range;
|}.

(** a carrier with the DOT number 12345, and a BASIC row with a single
    alert, on Hours-of-Service at the 80th percentile *)
Definition carrier_12345 : Py.dict := {[ "DOT_NUMBER" := Py.PStr "12345" ]}.

Definition basic_hos_alert : Py.dict :=
  {[ "HOS_DRIV_ALERT" := Py.PStr "Y"; "HOS_DRIV_MEASURE" := Py.PStr "80" ]}.

(** a carrier whose POWER_UNITS cell reads as an infinite float, and a
    BASIC row without percentiles whose inspection counts are zero *)
Definition carrier_inf_power : Py.dict := {[ "POWER_UNITS" := Py.PStr "inf" ]}.

Definition basic_no_inspection : Py.dict :=
  {[ "VEHICLE_INSP_CT" := Py.PStr "0"; "DRIVER_INSP_CT" := Py.PStr "0" ]}.

(** an active carrier with three trucks, authorised for hire *)
Definition carrier_for_hire : Py.dict :=
  {[ "STATUS_CODE" := Py.PStr "A"; "OWNTRUCK" := Py.PStr "3";
     "CLASSDEF" := Py.PStr "Authorized For Hire;Private Property" ]}.

(** a carrier registered in January 2024 with 250000 miles a year, and
    its records: one BASIC row, two crashes (one fatality, two injuries),
    three inspections (one out of service), no violation *)
Definition carrier_77 : Py.dict :=
  {[ "DOT_NUMBER" := Py.PStr " 77 "; "ADD_DATE" := Py.PStr "20240115";
     "MCS150_MILEAGE" := Py.PStr "250000"; "POWER_UNITS" := Py.PStr "12" ]}.

Definition records_77 : Fred.dataset := {|
  Fred.basic_by_dot :=
    {[ "77" := [ {[ "HOS_DRIV_ALERT" := Py.PStr "Y";
                    "HOS_DRIV_MEASURE" := Py.PStr "80";
                    "CRASH_MEASURE" := Py.PStr "70" ]} ] ]};
  Fred.crashes_by_dot :=
    {[ "77" := [ {[ "FATALITIES" := Py.PStr "1" ]};
                 {[ "INJURIES" := Py.PStr "2" ]} ] ]};
  Fred.inspections_by_dot :=
    {[ "77" := [ {[ "OOS_TOTAL" := Py.PStr "Y" ]}; ∅; ∅ ] ]};
  Fred.violations_by_dot := ∅;
|}.

(** a carrier without any record *)
Definition carrier_78 : Py.dict :=
  {[ "DOT_NUMBER" := Py.PStr "78"; "MCS150_MILEAGE" := Py.PStr "5000";
     "POWER_UNITS" := Py.PStr "2" ]}.

(** a result of the per-carrier pass, given by its DOT number, annual
    mileage, crash and violation counts and combined score; the entries
    that the population passes do not read are those of a carrier without
    records and without equipment *)
Definition result_with (dot : string) (mileage crashes violations : Z)
    (combined : Q) : Fred.score_result := {|
  Fred.dot_number := dot;
  Fred.power_units := 0;
  Fred.drivers := 0;
  Fred.total_drivers := 0;
  Fred.cdl_drivers := 0;
  Fred.own_trucks := 0;
  Fred.own_tractors := 0;
  Fred.own_trailers := 0;
  Fred.term_trucks := 0;
  Fred.term_tractors := 0;
  Fred.term_trailers := 0;
  Fred.trip_trucks := 0;
  Fred.trip_tractors := 0;
  Fred.trip_trailers := 0;
  Fred.experience_score := 100%Q;
  Fred.safety_score := 100%Q;
  Fred.crash_score := 100%Q;
  Fred.inspection_score := 100%Q;
  Fred.combined_score := combined;
  Fred.risk_flags := [];
  Fred.annual_mileage := mileage;
  Fred.has_sufficient_mileage := 100000 <=? mileage;
  Fred.iss_score := None;
  Fred.iss_bucket := None;
  Fred.iss_source := None;
  Fred.crash_count := crashes;
  Fred.inspection_count := 0;
  Fred.violation_count := violations;
  Fred.rank := None;
  Fred.fred_score_grade := None;
  Fred.insurance_rating := None;
|}.

(** four carriers: two with the same profile, one below 100000 miles *)
Definition population_4 : list Fred.score_result :=
  [ result_with "1" 200000 1 2 90; result_with "2" 200000 1 2 80;
    result_with "3" 5000 0 0 70; result_with "4" 300000 0 1 60 ].

(** a hundred eligible carriers with the combined scores 90.0, 90.1, ...,
    99.9 *)
Definition population_100 : list Fred.score_result :=
  map (fun k : nat =>
         result_with (Py.str (Py.PInt (Z.of_nat k))) 150000 0 0
           (Qmake (900 + Z.of_nat k) 10))
    (seq 0 100).

End Sample.

(* ===================================================================== *)
(** * Properties *)
(* ===================================================================== *)

(** ** The error monad *)

Section Results.
Import Py.
Context {A B : Type}.

Lemma bind_Ok_inv (m : result A) (k : A -> result B) (b : B) :
  (x ← m; k x) = Ok b -> exists a, m = Ok a /\ k a = Ok b.
Proof. destruct m as [a|e]; [eauto | discriminate]. Qed.

End Results.

(** case analysis on the first computation of a sequence *)
Ltac bind_inv H :=
  let a := fresh "a" in
  let Ha := fresh "Ha" in
  apply bind_Ok_inv in H; destruct H as (a & Ha & H).

(** ** Rational arithmetic *)

Section Rationals.
Import Py Fred.

Lemma Qltb_lt (a b : Q) : Qltb a b = true <-> (a < b)%Q.
Proof.
  unfold Qltb. rewrite negb_true_iff, <- not_true_iff_false, Qle_bool_iff.
  split; [apply Qnot_le_lt | apply Qlt_not_le].
Qed.

Lemma Qltb_ge (a b : Q) : Qltb a b = false <-> (b <= a)%Q.
Proof.
  unfold Qltb. rewrite negb_false_iff. apply Qle_bool_iff.
Qed.

Lemma py_max_spec (a b : Q) :
  (a <= py_max a b)%Q /\ (b <= py_max a b)%Q
  /\ (forall c : Q, (a <= c)%Q -> (b <= c)%Q -> (py_max a b <= c)%Q).
Proof.
  unfold py_max. destruct (Qltb a b) eqn:E.
  - apply Qltb_lt in E. repeat split; [lra | lra | auto].
  - apply Qltb_ge in E. repeat split; [lra | lra | auto].
Qed.

Lemma py_min_spec (a b : Q) :
  (py_min a b <= a)%Q /\ (py_min a b <= b)%Q
  /\ (forall c : Q, (c <= a)%Q -> (c <= b)%Q -> (c <= py_min a b)%Q).
Proof.
  unfold py_min. destruct (Qltb b a) eqn:E.
  - apply Qltb_lt in E. repeat split; [lra | lra | auto].
  - apply Qltb_ge in E. repeat split; [lra | lra | auto].
Qed.

(** Rounding to the nearest integer never crosses an integer. *)
Lemma round_half_even_bounds (n d lo hi : Z) :
  0 < d ->
  (lo * d <= n -> lo <= round_half_even n d)
  /\ (n <= hi * d -> round_half_even n d <= hi).
Proof.
  intros Hd. unfold round_half_even.
  pose proof (Z.div_mod n d ltac:(lia)) as Hdm.
  pose proof (Z.mod_pos_bound n d Hd) as Hr.
  split; intros Hb.
  - assert (lo <= n / d) by nia.
    destruct (2 * (n mod d) ?= d); [destruct (Z.even (n / d)) | |]; lia.
  - assert (n / d <= hi) by nia.
    destruct (Z.compare_spec (2 * (n mod d)) d);
      [destruct (Z.even (n / d)) | |]; try lia; nia.
Qed.

(** The rounding depends on the value of the fraction only. *)
Lemma round_half_even_fraction (n1 d1 n2 d2 : Z) :
  0 < d1 -> 0 < d2 -> n1 * d2 = n2 * d1 ->
  round_half_even n1 d1 = round_half_even n2 d2.
Proof.
  intros H1 H2 Heq. unfold round_half_even.
  assert (Hq : n1 / d1 = n2 / d2).
  { rewrite <- (Z.div_mul_cancel_r n1 d1 d2) by lia.
    rewrite <- (Z.div_mul_cancel_r n2 d2 d1) by lia.
    rewrite Heq. f_equal. lia. }
  pose proof (Z.div_mod n1 d1 ltac:(lia)) as Hdm1.
  pose proof (Z.div_mod n2 d2 ltac:(lia)) as Hdm2.
  assert (Hr : (n1 mod d1) * d2 = (n2 mod d2) * d1) by nia.
  assert (Hc : (2 * (n1 mod d1) ?= d1) = (2 * (n2 mod d2) ?= d2)).
  { destruct (Z.compare_spec (2 * (n2 mod d2)) d2).
    - apply Z.compare_eq_iff. nia.
    - apply Z.compare_lt_iff. nia.
    - apply Z.compare_gt_iff. nia. }
  rewrite Hc, Hq. reflexivity.
Qed.

Lemma pow10_pos (k : Z) : 0 <= k -> 0 < 10 ^ k.
Proof. intros. apply Z.pow_pos_nonneg; lia. Qed.

Lemma round_ndigits_proper (x y : Q) (k : Z) :
  0 <= k -> (x == y)%Q -> round_ndigits x k = round_ndigits y k.
Proof.
  intros Hk Hxy. unfold round_ndigits. apply Qred_complete.
  unfold Qeq in *. simpl.
  rewrite (round_half_even_fraction (Qnum x * 10 ^ k) (Zpos (Qden x))
             (Qnum y * 10 ^ k) (Zpos (Qden y))); [reflexivity | lia | lia |].
  nia.
Qed.

Lemma round_ndigits_bounds (x : Q) (k lo hi : Z) :
  0 <= k -> (inject_Z lo <= x)%Q -> (x <= inject_Z hi)%Q ->
  (inject_Z lo <= round_ndigits x k)%Q /\ (round_ndigits x k <= inject_Z hi)%Q.
Proof.
  intros Hk Hlo Hhi. unfold round_ndigits.
  pose proof (pow10_pos k Hk) as Hp.
  rewrite Qred_correct. unfold Qle in *. simpl in *.
  rewrite Z2Pos.id by lia.
  destruct (round_half_even_bounds (Qnum x * 10 ^ k) (Zpos (Qden x))
              (lo * 10 ^ k) (hi * 10 ^ k) ltac:(lia)) as [Hl Hh].
  split; [specialize (Hl ltac:(nia)) | specialize (Hh ltac:(nia))]; nia.
Qed.

(** Rounding an integer leaves it as it is. *)
Lemma round_ndigits_int (x : Q) (k z : Z) :
  0 <= k -> (x == inject_Z z)%Q -> (round_ndigits x k == x)%Q.
Proof.
  intros Hk Hx.
  destruct (round_ndigits_bounds x k z z Hk) as [Hl Hh]; [lra | lra |].
  lra.
Qed.

End Rationals.

(** ** The inspection-priority estimator *)

Section IssProperties.
Import Py Iss.
Implicit Types (P : process) (carrier basic_row : dict).

Lemma randint_range P rng a b :
  a <= b -> a <= randint P rng a b <= b.
Proof.
  intros Hab. unfold randint.
  pose proof (randbelow_range P rng (b - a + 1)). lia.
Qed.

Lemma bucket_of_score_spec (score : Z) :
  (bucket_of_score score = INSPECT <-> 75 <= score)
  /\ (bucket_of_score score = OPTIONAL <-> 50 <= score < 75)
  /\ (bucket_of_score score = PASS <-> score < 50).
Proof.
  unfold bucket_of_score.
  destruct (Z.leb_spec 75 score), (Z.leb_spec 50 score);
    repeat split; intros; try discriminate; try lia; reflexivity.
Qed.

(** What the Insufficient Data Algorithm returns, once its three reads
    have succeeded. *)
Lemma insufficient_data_algorithm_unfold P carrier basic_row config rng
    (v d p : Z) :
  get_int basic_row "VEHICLE_INSP_CT" 0 = Ok v ->
  get_int basic_row "DRIVER_INSP_CT" 0 = Ok d ->
  fleet_size carrier = Ok p ->
  insufficient_data_algorithm P carrier basic_row config rng =
  if (5 <=? v) || (3 <=? d) then Ok (insufficient 50 "D2")
  else if (v =? 4) || (d =? 2) then
    Ok (insufficient (randint P rng 55 62) "D3")
  else if (v =? 0) && (d =? 0) then
    Ok (insufficient
          (if 100 <=? p then 69 else if 50 <=? p then 68
           else if 20 <=? p then 67 else if 10 <=? p then 66
           else if 5 <=? p then 65 else if 2 <=? p then 64 else 63) "D4")
  else Ok (insufficient (50 + Z.min 19 ((v + d) * 3)) "D5").
Proof.
  intros Hv Hd Hp. unfold insufficient_data_algorithm.
  rewrite Hv, Hd, Hp. reflexivity.
Qed.

Definition insufficient_shape (r : ISSResult) : Prop :=
  source r = INSUFFICIENT /\ bucket r = OPTIONAL /\ group r = None
  /\ ((case r = Some "D2" /\ iss_score r = 50)
      \/ (case r = Some "D3" /\ 55 <= iss_score r <= 62)
      \/ (case r = Some "D4" /\ 63 <= iss_score r <= 69)
      \/ (case r = Some "D5" /\ 53 <= iss_score r <= 69))
  /\ 50 <= iss_score r <= 69.

(** With non-negative inspection counts every result of the Insufficient
    Data Algorithm has the shape above, and the algorithm returns whenever
    the fleet size can be read. *)
Theorem insufficient_data_invariants P carrier basic_row config rng
    (v d : Z) :
  get_int basic_row "VEHICLE_INSP_CT" 0 = Ok v ->
  get_int basic_row "DRIVER_INSP_CT" 0 = Ok d ->
  0 <= v -> 0 <= d ->
  (returns (fleet_size carrier) ->
   returns (insufficient_data_algorithm P carrier basic_row config rng))
  /\ (forall r,
        insufficient_data_algorithm P carrier basic_row config rng = Ok r ->
        insufficient_shape r).
Proof.
  intros Hv Hd Hv0 Hd0.
  assert (Hshape : forall p r,
    fleet_size carrier = Ok p ->
    insufficient_data_algorithm P carrier basic_row config rng = Ok r ->
    insufficient_shape r).
  { intros p r Hp.
    rewrite (insufficient_data_algorithm_unfold _ _ _ _ _ v d p) by done.
    pose proof (randint_range P rng 55 62 ltac:(lia)) as Hrand.
    assert (Hin : forall score c,
      ((c = "D2" /\ score = 50) \/ (c = "D3" /\ 55 <= score <= 62)
       \/ (c = "D4" /\ 63 <= score <= 69)
       \/ (c = "D5" /\ 53 <= score <= 69)) ->
      insufficient_shape (insufficient score c)).
    { intros score c Hc. unfold insufficient_shape; simpl.
      repeat split; try reflexivity; try lia.
      destruct Hc as [[-> ->]|[[-> ?]|[[-> ?]|[-> ?]]]]; auto 7. }
    destruct (Z.leb_spec 5 v); simpl.
    { intros [= <-]. apply Hin. auto. }
    destruct (Z.leb_spec 3 d); simpl.
    { intros [= <-]. apply Hin. auto. }
    destruct (Z.eqb_spec v 4); simpl.
    { intros [= <-]. apply Hin. auto. }
    destruct (Z.eqb_spec d 2); simpl.
    { intros [= <-]. apply Hin. auto. }
    destruct (Z.eqb_spec v 0), (Z.eqb_spec d 0); simpl;
      intros [= <-]; apply Hin.
    - right; right; left. split; [done |].
      repeat match goal with
             | |- context [if ?b then _ else _] => destruct b
             end; lia.
    - right; right; right. split; [done | lia].
    - right; right; right. split; [done | lia].
    - right; right; right. split; [done | lia]. }
  split.
  - intros [p Hp].
    rewrite (insufficient_data_algorithm_unfold _ _ _ _ _ v d p) by done.
    unfold returns.
    repeat match goal with
           | |- context [if ?b then _ else _] => destruct b
           end; eauto.
  - intros r Hr.
    destruct (fleet_size carrier) as [p|e] eqn:Hp; [eauto |].
    unfold insufficient_data_algorithm in Hr.
    rewrite Hv, Hd, Hp in Hr. discriminate.
Qed.

(** The estimator follows one of two paths, and the result names it.  On
    the Safety path the bucket is computed from the score; a result of the
    Insufficient path is what the Insufficient Data Algorithm returned for
    the BASIC row, or for the empty row when there is none. *)
Lemma estimate_iss_paths P carrier (basic : option dict) config r :
  estimate_iss P carrier basic config = Ok r ->
  (source r = SAFETY /\ bucket r = bucket_of_score (iss_score r))
  \/ (source r = INSUFFICIENT
      /\ insufficient_data_algorithm P carrier (default ∅ basic)
           (default default_config config)
           (rng_seed P (default default_config config)
              (str (get carrier "DOT_NUMBER" (PStr "")))) = Ok r).
Proof.
  unfold estimate_iss. destruct basic as [row|]; simpl.
  - intros H. do 7 bind_inv H.
    destruct (assign_group _ _ _ _) as [g|].
    + injection H as <-. left. split; reflexivity.
    + right. split; [| exact H].
      unfold insufficient_data_algorithm in H.
      do 3 bind_inv H.
      repeat match type of H with
             | (if ?b then _ else _) = _ => destruct b
             end; injection H as <-; reflexivity.
  - intros H. right. split; [| exact H].
    unfold insufficient_data_algorithm in H.
    do 3 bind_inv H.
    repeat match type of H with
           | (if ?b then _ else _) = _ => destruct b
           end; injection H as <-; reflexivity.
Qed.

(** The bucket follows from the score on the Safety path, and on the
    Insufficient path when both inspection counts are non-negative. *)
Lemma estimate_iss_bucket P carrier (basic : option dict) config r (v d : Z) :
  estimate_iss P carrier basic config = Ok r ->
  get_int (default ∅ basic) "VEHICLE_INSP_CT" 0 = Ok v ->
  get_int (default ∅ basic) "DRIVER_INSP_CT" 0 = Ok d ->
  0 <= v -> 0 <= d ->
  bucket r = bucket_of_score (iss_score r).
Proof.
  intros Hr Hv Hd Hv0 Hd0.
  destruct (estimate_iss_paths _ _ _ _ _ Hr) as [[_ Hb]|[_ Hins]]; [done |].
  destruct (insufficient_data_invariants P carrier _
              (default default_config config)
              (rng_seed P (default default_config config)
                 (str (get carrier "DOT_NUMBER" (PStr ""))))
              v d Hv Hd Hv0 Hd0) as [_ Hshape].
  destruct (Hshape r Hins) as (_ & -> & _ & _ & Hrange).
  symmetry. apply bucket_of_score_spec. lia.
Qed.

(** C6: for a carrier whose POWER_UNITS reads as 10, the estimator called
    without a BASIC row returns case D4 with score 66, bucket Optional and
    source Insufficient; the empty row gives zero for both inspection
    counts. *)
Theorem estimate_iss_null_basic_power_units_10 P carrier config :
  get_int carrier "POWER_UNITS" 0 = Ok 10 ->
  exists r,
    estimate_iss P carrier None config = Ok r
    /\ case r = Some "D4" /\ iss_score r = 66
    /\ bucket r = OPTIONAL /\ source r = INSUFFICIENT
    /\ get_int ∅ "VEHICLE_INSP_CT" 0 = Ok 0
    /\ get_int ∅ "DRIVER_INSP_CT" 0 = Ok 0.
Proof.
  intros Hpu.
  assert (Hfleet : fleet_size carrier = Ok 10).
  { unfold fleet_size. rewrite Hpu. reflexivity. }
  eexists. unfold estimate_iss.
  rewrite (insufficient_data_algorithm_unfold _ _ _ _ _ 0 0 10)
    by (reflexivity || exact Hfleet).
  simpl. repeat split; reflexivity.
Qed.

Lemma estimate_iss_null_basic_power_units_10_witness :
  get_int {[ "POWER_UNITS" := PStr "10" ]} "POWER_UNITS" 0 = Ok 10
  /\ exists r,
    estimate_iss Sample.process_1 {[ "POWER_UNITS" := PStr "10" ]}
      None None = Ok r
    /\ case r = Some "D4" /\ iss_score r = 66
    /\ bucket r = OPTIONAL /\ source r = INSUFFICIENT
    /\ get_int ∅ "VEHICLE_INSP_CT" 0 = Ok 0
    /\ get_int ∅ "DRIVER_INSP_CT" 0 = Ok 0.
Proof.
  split; [reflexivity |].
  apply (estimate_iss_null_basic_power_units_10 Sample.process_1
           {[ "POWER_UNITS" := PStr "10" ]} None).
  reflexivity.
Defined.

(** C5: a BASIC row without percentiles whose vehicle inspection count
    reads as -10 goes through case D5, which returns the score
    50 + min(19, -30) = 20 in the bucket Optional; by the score alone the
    bucket would be Pass. *)
Theorem estimate_iss_negative_count_bucket P :
  exists r,
    estimate_iss P ∅ (Some {[ "VEHICLE_INSP_CT" := PStr "-10" ]}) None
    = Ok r
    /\ source r = INSUFFICIENT /\ case r = Some "D5"
    /\ iss_score r = 20 /\ bucket r = OPTIONAL
    /\ bucket_of_score (iss_score r) = PASS.
Proof. eexists. split; [reflexivity |]. repeat split. Qed.

(** C9: the fleet size is read before the cases are tried, so a carrier
    whose POWER_UNITS reads as an infinite float makes the Insufficient
    Data Algorithm raise OverflowError, although both inspection counts
    read as the non-negative integer 0. *)
Theorem insufficient_data_algorithm_overflow P config rng :
  get_int Sample.basic_no_inspection "VEHICLE_INSP_CT" 0 = Ok 0
  /\ get_int Sample.basic_no_inspection "DRIVER_INSP_CT" 0 = Ok 0
  /\ get_int Sample.carrier_inf_power "POWER_UNITS" 0 = Raise OverflowError
  /\ insufficient_data_algorithm P Sample.carrier_inf_power
       Sample.basic_no_inspection config rng = Raise OverflowError.
Proof. repeat split. Qed.

(** Without a configured seed, or with a configured seed of 0, the seed
    of the generator is the process-keyed hash of the DOT number. *)
Lemma rng_seed_unconfigured P config (dot : string) :
  seed config = None \/ seed config = Some 0 ->
  rng_seed P config dot = hash_str P dot mod 2 ^ 31.
Proof. unfold rng_seed. intros [-> | ->]; reflexivity. Qed.

Lemma rng_seed_depends_on_process (P1 P2 : process) config (dot : string) :
  seed config = None \/ seed config = Some 0 ->
  hash_str P1 dot mod 2 ^ 31 <> hash_str P2 dot mod 2 ^ 31 ->
  rng_seed P1 config dot <> rng_seed P2 config dot.
Proof. intros Hc Hne. rewrite !rng_seed_unconfigured by done. exact Hne. Qed.

(** C8: the same carrier and BASIC row, estimated with the default
    configuration in two interpreter processes, get different seeds
    (hash('12345') % 2**31 is 312712353 in one and 1272410652 in the
    other) and different scores, 81 and 84. *)
Theorem estimate_iss_differs_between_processes :
  rng_seed Sample.process_1 default_config "12345" = 312712353
  /\ rng_seed Sample.process_2 default_config "12345" = 1272410652
  /\ exists r1 r2,
    estimate_iss Sample.process_1 Sample.carrier_12345
      (Some Sample.basic_hos_alert) None = Ok r1
    /\ estimate_iss Sample.process_2 Sample.carrier_12345
         (Some Sample.basic_hos_alert) None = Ok r2
    /\ group r1 = Some 5 /\ group r2 = Some 5
    /\ iss_score r1 = 81 /\ iss_score r2 = 84.
Proof.
  split; [reflexivity |]. split; [reflexivity |].
  do 2 eexists. split; [vm_compute; reflexivity |].
  split; [vm_compute; reflexivity |]. repeat split.
Qed.

End IssProperties.

(** ** The eligibility classifier *)

Section ClassifierProperties.
Import Py Fred.
Implicit Types (carrier : dict).

(** the two private-passenger flags, read after the equipment total *)
Definition private_passenger carrier : bool :=
  is_true_value (get carrier "PRIVATE_PASSENGER_BUSINESS" (PStr ""))
  || is_true_value (get carrier "PRIVATE_PASSENGER_NONBUSINESS" (PStr "")).

(** the passenger signals read before the equipment total *)
Definition passenger_marker carrier : bool :=
  passenger_classdef carrier
  || is_true_value (get carrier "CRGO_PASSENGERS" (PStr "")).

Definition authority_outcomes : list (bool * string) :=
  [ (false, ""); (true, "private_not_for_hire");
    (true, "no_for_hire_authority") ].

Lemma authority_outcome_range carrier :
  In (authority_outcome carrier) authority_outcomes.
Proof.
  unfold authority_outcome, authority_outcomes.
  repeat match goal with
         | |- context [if ?b then _ else _] => destruct b
         end; simpl; auto.
Qed.

(** Rule 1 is decided before any count is read. *)
Lemma should_exclude_carrier_inactive carrier :
  inactive carrier = true ->
  should_exclude_carrier carrier = Ok (true, "inactive_status").
Proof. intros H. unfold should_exclude_carrier. rewrite H. reflexivity. Qed.

(** The classifier once both totals have been read. *)
Lemma should_exclude_carrier_unfold carrier (n t : Z) :
  sum_fields carrier passenger_equipment_fields = Ok n ->
  sum_fields carrier truck_power_fields = Ok t ->
  should_exclude_carrier carrier =
  Ok (if inactive carrier then (true, "inactive_status")
      else if passenger_marker carrier || (0 <? n)
              || private_passenger carrier
      then (true, "passenger_operation")
      else if t <=? 0 then (true, "no_truck_power")
      else authority_outcome carrier).
Proof.
  intros Hn Ht.
  unfold should_exclude_carrier, passenger_marker, private_passenger.
  rewrite Hn, Ht.
  destruct (inactive carrier); [reflexivity |].
  destruct (passenger_classdef carrier); [reflexivity |].
  destruct (is_true_value (get carrier "CRGO_PASSENGERS" (PStr "")));
    [reflexivity |].
  simpl. destruct (0 <? n); [reflexivity |].
  destruct (is_true_value (get carrier "PRIVATE_PASSENGER_BUSINESS" _));
    [reflexivity |].
  destruct (is_true_value (get carrier "PRIVATE_PASSENGER_NONBUSINESS" _));
    [reflexivity |].
  simpl. destruct (t <=? 0); reflexivity.
Qed.

(** The precedence of the cascade, for every carrier whose two equipment
    totals can be read: inactive status first, then the passenger signals,
    then the absence of truck power, and only then the authority fields.
    The outcome is one of six. *)
Theorem should_exclude_carrier_precedence carrier (n t : Z) :
  sum_fields carrier passenger_equipment_fields = Ok n ->
  sum_fields carrier truck_power_fields = Ok t ->
  exists outcome,
    should_exclude_carrier carrier = Ok outcome
    /\ (inactive carrier = true -> outcome = (true, "inactive_status"))
    /\ (inactive carrier = false ->
        passenger_marker carrier = true \/ 0 < n
        \/ private_passenger carrier = true ->
        outcome = (true, "passenger_operation"))
    /\ (inactive carrier = false ->
        passenger_marker carrier = false -> n <= 0 ->
        private_passenger carrier = false ->
        t <= 0 -> outcome = (true, "no_truck_power"))
    /\ (inactive carrier = false ->
        passenger_marker carrier = false -> n <= 0 ->
        private_passenger carrier = false ->
        0 < t ->
        outcome = authority_outcome carrier
        /\ In outcome authority_outcomes).
Proof.
  intros Hn Ht. eexists. split.
  { apply (should_exclude_carrier_unfold carrier n t Hn Ht). }
  split; [| split; [| split]].
  - intros Hi. rewrite Hi. reflexivity.
  - intros Hi Hp. rewrite Hi.
    assert (passenger_marker carrier || (0 <? n) || private_passenger carrier
            = true) as Hany; [| rewrite Hany; reflexivity].
    destruct Hp as [Hp | [Hp | Hp]].
    + rewrite Hp. reflexivity.
    + apply Z.ltb_lt in Hp. rewrite Hp. apply orb_true_iff. left.
      apply orb_true_r.
    + rewrite Hp. apply orb_true_r.
  - intros Hi Hm Hn0 Hp Ht0.
    apply Z.ltb_ge in Hn0. apply Z.leb_le in Ht0.
    rewrite Hi, Hm, Hn0, Hp, Ht0. reflexivity.
  - intros Hi Hm Hn0 Hp Ht0.
    apply Z.ltb_ge in Hn0. apply Z.leb_gt in Ht0.
    rewrite Hi, Hm, Hn0, Hp, Ht0. simpl.
    split; [reflexivity | apply authority_outcome_range].
Qed.

Lemma should_exclude_carrier_precedence_witness :
  sum_fields Sample.carrier_for_hire passenger_equipment_fields = Ok 0
  /\ sum_fields Sample.carrier_for_hire truck_power_fields = Ok 3
  /\ should_exclude_carrier Sample.carrier_for_hire = Ok (false, "").
Proof.
  assert (Hn : sum_fields Sample.carrier_for_hire passenger_equipment_fields
               = Ok 0) by (vm_compute; reflexivity).
  assert (Ht : sum_fields Sample.carrier_for_hire truck_power_fields = Ok 3)
    by (vm_compute; reflexivity).
  split; [exact Hn |]. split; [exact Ht |].
  destruct (should_exclude_carrier_precedence _ 0 3 Hn Ht)
    as (outcome & Hout & _ & _ & _ & Hauth).
  rewrite Hout. f_equal.
  destruct Hauth as [Heq _]; [reflexivity | reflexivity | lia | reflexivity
                             | lia |].
  rewrite Heq. reflexivity.
Defined.

(** C2: a carrier with the active status "A" whose OWNCOACH count reads as
    an infinite float makes the classifier raise OverflowError: [safe_int]
    handles ValueError and TypeError only. *)
Theorem should_exclude_carrier_overflow :
  inactive {[ "STATUS_CODE" := PStr "A"; "OWNCOACH" := PStr "inf" ]} = false
  /\ safe_int (PStr "inf") 0 = Raise OverflowError
  /\ should_exclude_carrier
       {[ "STATUS_CODE" := PStr "A"; "OWNCOACH" := PStr "inf" ]}
     = Raise OverflowError.
Proof. repeat split; vm_compute; reflexivity. Qed.

End ClassifierProperties.

(** ** The component scores *)

Section ScoreProperties.
Import Py Fred.
Implicit Types (P : process) (carrier : dict).

(** an integer-valued score of at most [b] *)
Definition int_at_most (q : Q) (b : Z) : Prop :=
  exists z, (q == inject_Z z)%Q /\ z <= b.

(** an integer-valued score between 0 and 100 *)
Definition score_value (q : Q) : Prop :=
  exists z, (q == inject_Z z)%Q /\ 0 <= z <= 100.

Lemma int_at_most_100 : int_at_most 100 100.
Proof. exists 100. split; [reflexivity | lia]. Qed.

Lemma int_at_most_sub (q : Q) (k b : Z) :
  int_at_most q b -> 0 <= k -> int_at_most (q - inject_Z k) b.
Proof.
  intros (z & Hz & Hb) Hk. exists (z - k). split; [| lia].
  rewrite Hz. unfold Qeq; simpl. lia.
Qed.

Lemma py_max_0_score (q : Q) : int_at_most q 100 -> score_value (py_max 0 q).
Proof.
  intros (z & Hz & Hb). unfold py_max. destruct (Qltb 0 q) eqn:E.
  - apply Qltb_lt in E. exists z. split; [exact Hz |].
    rewrite Hz in E. unfold Qlt in E; simpl in E. lia.
  - exists 0. split; [reflexivity | lia].
Qed.

Lemma score_value_range (q : Q) : score_value q -> (0 <= q <= 100)%Q.
Proof.
  intros (z & Hz & Hb). rewrite Hz. unfold Qle; simpl. lia.
Qed.

Lemma for_each_invariant {A S} (body : S -> A -> result S) (I : S -> Prop)
    (xs : list A) :
  (forall s x s', I s -> body s x = Ok s' -> I s') ->
  forall s s', I s -> for_each body s xs = Ok s' -> I s'.
Proof.
  intros Hstep. induction xs as [|x xs IH]; intros s s' Hs H; simpl in H.
  - injection H as <-. exact Hs.
  - bind_inv H. eauto.
Qed.

Lemma for_each_returns {A S} (body : S -> A -> result S) (xs : list A) :
  (forall s x, returns (body s x)) -> forall s, returns (for_each body s xs).
Proof.
  intros Hbody. induction xs as [|x xs IH]; intros s; simpl.
  - eexists; reflexivity.
  - destruct (Hbody s x) as [s' ->]. apply IH.
Qed.

Lemma safe_float_returns (v : value) (dflt : pyfloat) :
  returns (safe_float v dflt).
Proof.
  unfold safe_float, py_float, returns.
  destruct (is_none v || eq_empty v); [eauto |].
  destruct (float_of_str _); simpl; eauto.
Qed.

(** The experience score is one of 70, 80, 90, 95 and 100; the calculator
    handles every error of the date conversion. *)
Lemma calculate_experience_score_value P carrier :
  exists e, calculate_experience_score P carrier = Ok e /\ score_value e.
Proof.
  unfold calculate_experience_score.
  assert (Hfin : forall k : Z, 0 <= k ->
    exists e, (score ← Ok (100 - inject_Z k)%Q; Ok (py_max 0 score)) = Ok e
              /\ score_value e).
  { intros k Hk. eexists. split; [reflexivity |].
    apply py_max_0_score, int_at_most_sub; [apply int_at_most_100 | lia]. }
  assert (H100 :
    exists e, (score ← Ok 100%Q; Ok (py_max 0 score)) = Ok e /\ score_value e).
  { eexists. split; [reflexivity |].
    apply py_max_0_score, int_at_most_100. }
  destruct (negb _ && _); [| exact H100].
  unfold py_int, date_ordinal.
  destruct (int_of_str (slice 0 4 _)) as [y|]; [| exact H100].
  destruct (int_of_str (slice 4 6 _)) as [m|]; [| exact H100].
  destruct (int_of_str (slice 6 8 _)) as [d|]; [| exact H100].
  cbn [mbind result_bind bind].
  destruct (_ && _); [| exact H100].
  cbn [mbind result_bind bind try_except].
  destruct (Qltb _ 1); [exact (Hfin 30 ltac:(lia)) |].
  destruct (Qltb _ 2); [exact (Hfin 20 ltac:(lia)) |].
  destruct (Qltb _ 3); [exact (Hfin 10 ltac:(lia)) |].
  destruct (Qltb _ 5); [exact (Hfin 5 ltac:(lia)) | exact H100].
Qed.

Lemma safety_step_spec (basic : dict) (st : Q * list flag)
    (cat : string * string * string) :
  (exists st', safety_step basic st cat = Ok st')
  /\ (forall st', safety_step basic st cat = Ok st' ->
      int_at_most st.1 100 -> int_at_most st'.1 100).
Proof.
  destruct st as [score flags], cat as [[measure_col alert_col] name].
  unfold safety_step.
  destruct (safe_float_returns (get basic measure_col PNone) (FFinite 0))
    as [measure ->].
  cbn [mbind result_bind bind].
  split.
  - repeat match goal with
           | |- context [if ?b then _ else _] => destruct b
           end; eauto.
  - intros st' H Hs.
    repeat match type of H with
           | (if ?b then _ else _) = _ => destruct b
           end; injection H as <-; simpl; try exact Hs.
    + apply (int_at_most_sub _ 15); [exact Hs | lia].
    + apply (int_at_most_sub _ 10); [exact Hs | lia].
    + apply (int_at_most_sub _ 5); [exact Hs | lia].
Qed.

(** The safety score is returned for every input and lies in [0, 100]. *)
Lemma calculate_safety_score_value carrier (basic_data : list dict) :
  exists s flags,
    calculate_safety_score carrier basic_data = Ok (s, flags)
    /\ score_value s.
Proof.
  unfold calculate_safety_score. destruct basic_data as [|basic _].
  - do 2 eexists. split; [reflexivity |].
    exists 100. split; [reflexivity | lia].
  - destruct (for_each_returns (safety_step basic) basic_categories
                (fun s x => proj1 (safety_step_spec basic s x)) (100%Q, []))
      as [[score flags] Hfe].
    rewrite Hfe. do 2 eexists. split; [reflexivity |].
    apply py_max_0_score.
    apply (for_each_invariant (safety_step basic)
             (fun st => int_at_most st.1 100) basic_categories
             (fun s x s' Hs H => proj2 (safety_step_spec basic s x) s' H Hs)
             (100%Q, []) (score, flags) int_at_most_100 Hfe).
Qed.

(** Every crash score that is returned lies in [0, 100]. *)
Lemma calculate_crash_score_value carrier (crashes : list dict) c flags :
  calculate_crash_score carrier crashes = Ok (c, flags) -> score_value c.
Proof.
  unfold calculate_crash_score. destruct crashes as [|crash crashes].
  - intros [= <- _]. exists 100. split; [reflexivity | lia].
  - intros H. bind_inv H. destruct a as [[fatalities injuries] hazmat].
    revert H.
    destruct (Z.ltb_spec 0 fatalities), (Z.ltb_spec 0 injuries),
      (Z.ltb_spec 0 hazmat);
      destruct (5 <=? _); try destruct (3 <=? _); try destruct (1 <=? _);
      intros [= <- _]; apply py_max_0_score;
      repeat (first [ apply int_at_most_100
                    | apply (int_at_most_sub _ 15); [| lia]
                    | apply (int_at_most_sub _ 10); [| lia]
                    | apply int_at_most_sub; [| lia] ]).
Qed.

(** The inspection score is returned for every input and lies in
    [0, 100]: the out-of-service rate divides by a positive count. *)
Lemma calculate_inspection_score_value carrier
    (inspections violations : list dict) :
  exists i flags,
    calculate_inspection_score carrier inspections violations = Ok (i, flags)
    /\ score_value i.
Proof.
  unfold calculate_inspection_score.
  destruct inspections as [|inspection inspections].
  - do 2 eexists. split; [reflexivity |].
    exists 100. split; [reflexivity | lia].
  - set (total := Z.of_nat (length (inspection :: inspections))).
    assert (Htotal : 0 < total) by (unfold total; simpl length; lia).
    destruct (Z.ltb_spec 0 total); [| lia].
    unfold truediv.
    assert (Qeq_bool (inject_Z total) 0 = false) as ->.
    { apply not_true_iff_false. rewrite Qeq_bool_iff.
      unfold Qeq; simpl. lia. }
    cbn [mbind result_bind bind].
    repeat match goal with
           | |- context [if ?b then _ else _] => destruct b
           end;
      do 2 eexists; (split; [reflexivity |]); apply py_max_0_score;
      first [ apply int_at_most_100
            | apply (int_at_most_sub _ 30); [apply int_at_most_100 | lia]
            | apply (int_at_most_sub _ 20); [apply int_at_most_100 | lia]
            | apply (int_at_most_sub _ 10); [apply int_at_most_100 | lia] ].
Qed.

(** The component scores are multiples of 5 between 0 and 100.  With the
    binary64 arithmetic of the interpreter the weighted sum of any four
    such scores lies between 0 and 100, as the exact sum does. *)
Lemma weighted_sum_b64_range :
  forallb (fun e =>
    forallb (fun s =>
      forallb (fun c =>
        forallb (fun i =>
          PrimFloat.leb 0 (weighted_sum_b64 e s c i)
          && PrimFloat.leb (weighted_sum_b64 e s c i) 100)
          score_steps) score_steps) score_steps) score_steps = true.
Proof. vm_compute. reflexivity. Qed.

(** The experience score reads the date of the run: the carrier
    registered on 2024-01-15 scores 90 on 2026-11-04 and 95 a year
    later. *)
Lemma calculate_experience_score_today :
  calculate_experience_score Sample.process_1 Sample.carrier_77 = Ok 90%Q
  /\ calculate_experience_score Sample.process_next_year Sample.carrier_77
     = Ok 95%Q.
Proof. split; vm_compute; reflexivity. Qed.

End ScoreProperties.

(** ** The per-carrier pass *)

Section CarrierProperties.
Import Py Fred.
Implicit Types (P : process) (carrier : dict) (data : dataset).

(** the key under which the records of a carrier are looked up *)
Definition dot_of carrier : string :=
  strip (str (get carrier "DOT_NUMBER" (PStr ""))).

(** What a result of [process_carrier] is made of. *)
Lemma process_carrier_inv P carrier data res :
  process_carrier P carrier data = Ok res ->
  exists e s c i sf cf jf,
    calculate_experience_score P carrier = Ok e
    /\ calculate_safety_score carrier
         (default [] (basic_by_dot data !! dot_of carrier)) = Ok (s, sf)
    /\ calculate_crash_score carrier
         (default [] (crashes_by_dot data !! dot_of carrier)) = Ok (c, cf)
    /\ calculate_inspection_score carrier
         (default [] (inspections_by_dot data !! dot_of carrier))
         (default [] (violations_by_dot data !! dot_of carrier)) = Ok (i, jf)
    /\ experience_score res = round_ndigits e 1
    /\ safety_score res = round_ndigits s 1
    /\ crash_score res = round_ndigits c 1
    /\ inspection_score res = round_ndigits i 1
    /\ combined_score res =
       round_ndigits (e * 0.15 + s * 0.35 + c * 0.30 + i * 0.20)%Q 1
    /\ has_sufficient_mileage res = (100000 <=? annual_mileage res)
    /\ crash_count res =
       Z.of_nat (length (default [] (crashes_by_dot data !! dot_of carrier)))
    /\ violation_count res =
       Z.of_nat
         (length (default [] (violations_by_dot data !! dot_of carrier)))
    /\ rank res = None /\ fred_score_grade res = None
    /\ insurance_rating res = None
    /\ (default [] (basic_by_dot data !! dot_of carrier) = [] ->
        iss_score res = None /\ iss_bucket res = None
        /\ iss_source res = None).
Proof.
  unfold process_carrier, dot_of. intros H.
  bind_inv H. rename a into e, Ha into He.
  bind_inv H. destruct a as [s sf]. rename Ha into Hs.
  bind_inv H. destruct a as [c cf]. rename Ha into Hc.
  bind_inv H. destruct a as [i jf]. rename Ha into Hi.
  do 15 (bind_inv H; clear Ha).
  injection H as <-. simpl.
  exists e, s, c, i, sf, cf, jf.
  repeat (split; [first [assumption | reflexivity] |]).
  intros ->. repeat split.
Qed.





(** C3: in every result of [process_carrier] the four component scores lie
    in [0, 100], the combined score is the weighted sum of the four
    components with the weights 0.15, 0.35, 0.30 and 0.20, rounded to one
    decimal, and it lies in [0, 100] as well. *)
Theorem process_carrier_scores P carrier data res :
  process_carrier P carrier data = Ok res ->
  (0 <= experience_score res <= 100)%Q
  /\ (0 <= safety_score res <= 100)%Q
  /\ (0 <= crash_score res <= 100)%Q
  /\ (0 <= inspection_score res <= 100)%Q
  /\ combined_score res =
     round_ndigits
       (0.15 * experience_score res + 0.35 * safety_score res
        + 0.30 * crash_score res + 0.20 * inspection_score res)%Q 1
  /\ (0 <= combined_score res <= 100)%Q.
Proof.
  intros H.
  destruct (process_carrier_inv _ _ _ _ H)
    as (e & s & c & i & sf & cf & jf & He & Hs & Hc & Hi
        & -> & -> & -> & -> & -> & _).
  assert (Ve : score_value e).
  { destruct (calculate_experience_score_value P carrier) as (e' & He' & V).
    congruence. }
  assert (Vs : score_value s).
  { destruct (calculate_safety_score_value carrier
                (default [] (basic_by_dot data !! dot_of carrier)))
      as (s' & f' & Hs' & V).
    congruence. }
  assert (Vc : score_value c)
    by exact (calculate_crash_score_value _ _ _ _ Hc).
  assert (Vi : score_value i).
  { destruct (calculate_inspection_score_value carrier
                (default [] (inspections_by_dot data !! dot_of carrier))
                (default [] (violations_by_dot data !! dot_of carrier)))
      as (i' & f' & Hi' & V).
    congruence. }
  assert (Hround : forall q, score_value q ->
            (round_ndigits q 1 == q)%Q /\ (0 <= round_ndigits q 1 <= 100)%Q).
  { intros q V. pose proof (score_value_range q V) as [Hlo Hhi].
    destruct V as (z & Hz & _).
    split; [apply (round_ndigits_int q 1 z); [lia | exact Hz] |].
    apply (round_ndigits_bounds q 1 0 100); [lia | exact Hlo | exact Hhi]. }
  destruct (Hround e Ve) as [Ee Re], (Hround s Vs) as [Es Rs],
    (Hround c Vc) as [Ec Rc], (Hround i Vi) as [Ei Ri].
  apply score_value_range in Ve, Vs, Vc, Vi.
  repeat (split; [assumption |]).
  split.
  - apply round_ndigits_proper; [lia |]. rewrite Ee, Es, Ec, Ei. ring.
  - apply (round_ndigits_bounds _ 1 0 100); [lia | |].
    + change (inject_Z 0) with 0%Q. lra.
    + change (inject_Z 100) with 100%Q. lra.
Qed.

Lemma process_carrier_scores_witness :
  exists res,
    process_carrier Sample.process_1 Sample.carrier_77
      Sample.records_77 = Ok res
    /\ experience_score res = 90%Q /\ safety_score res = 80%Q
    /\ crash_score res = 65%Q /\ inspection_score res = 80%Q
    /\ combined_score res = 77%Q
    /\ (0 <= combined_score res <= 100)%Q.
Proof.
  eexists. split; [vm_compute; reflexivity |].
  repeat (split; [reflexivity |]).
  eapply (process_carrier_scores Sample.process_1 Sample.carrier_77
            Sample.records_77).
  vm_compute; reflexivity.
Defined.

(** C10: a carrier without a BASIC record leaves [process_carrier] with
    no ISS score, bucket or source, because the estimator is only called
    on the first BASIC record.  The estimator itself, called without a
    row, takes the Insufficient path: every result has the source
    Insufficient, and there is one whenever the fleet size can be read. *)
Theorem process_carrier_without_basic_record P carrier data res :
  default [] (basic_by_dot data !! dot_of carrier) = [] ->
  process_carrier P carrier data = Ok res ->
  (iss_score res = None /\ iss_bucket res = None /\ iss_source res = None)
  /\ (forall config r,
        Iss.estimate_iss P carrier None config = Ok r ->
        Iss.source r = Iss.INSUFFICIENT)
  /\ (returns (Iss.fleet_size carrier) ->
      forall config, returns (Iss.estimate_iss P carrier None config)).
Proof.
  intros Hbasic H. split; [| split].
  - destruct (process_carrier_inv _ _ _ _ H)
      as (e & s & c & i & sf & cf & jf & _ & _ & _ & _ & _ & _ & _ & _ & _
          & _ & _ & _ & _ & _ & _ & Hiss).
    exact (Hiss Hbasic).
  - intros config r Hr.
    destruct (estimate_iss_paths _ _ _ _ _ Hr) as [[Hs _]|[Hs _]];
      [| exact Hs].
    unfold Iss.estimate_iss, Iss.insufficient_data_algorithm in Hr.
    do 3 bind_inv Hr.
    repeat match type of Hr with
           | (if ?b then _ else _) = _ => destruct b
           end; injection Hr as <-; discriminate.
  - intros Hfleet config. unfold Iss.estimate_iss.
    apply (insufficient_data_invariants P carrier ∅ _ _ 0 0);
      [reflexivity | reflexivity | lia | lia | exact Hfleet].
Qed.

Lemma process_carrier_without_basic_record_witness :
  default [] (basic_by_dot Sample.records_77 !! dot_of Sample.carrier_78)
  = []
  /\ exists res,
    process_carrier Sample.process_1 Sample.carrier_78
      Sample.records_77 = Ok res
    /\ iss_score res = None /\ iss_bucket res = None
    /\ iss_source res = None
    /\ exists r,
      Iss.estimate_iss Sample.process_1 Sample.carrier_78 None None
      = Ok r
      /\ Iss.source r = Iss.INSUFFICIENT.
Proof.
  split; [vm_compute; reflexivity |].
  eexists. split; [vm_compute; reflexivity |].
  destruct (process_carrier_without_basic_record Sample.process_1
              Sample.carrier_78 Sample.records_77 _
              ltac:(vm_compute; reflexivity) eq_refl)
    as ((H1 & H2 & H3) & Hsrc & Hret).
  repeat (split; [assumption |]).
  destruct (Hret ltac:(eexists; vm_compute; reflexivity) None) as [r Hr].
  exists r. split; [exact Hr | exact (Hsrc None r Hr)].
Defined.

End CarrierProperties.

(** ** Writes through references *)

Section Stores.
Context {T : Type}.
Implicit Types (ws : list (nat * (T -> T))) (store : list T).

(** a sequence of writes, each through a reference into the store *)
Definition run ws store : list T :=
  fold_left (fun st (w : nat * (T -> T)) => alter w.2 w.1 st) ws store.

Lemma length_run ws store : length (run ws store) = length store.
Proof.
  revert store. induction ws as [|w ws IH]; intros store; simpl; [done |].
  unfold run in IH. rewrite IH. apply length_alter.
Qed.

Lemma run_lookup_notin ws store (j : nat) :
  j ∉ ws.*1 -> run ws store !! j = store !! j.
Proof.
  revert store. induction ws as [|[i g] ws IH]; intros store Hj; [done |].
  rewrite fmap_cons, not_elem_of_cons in Hj. destruct Hj as [Hne Hj].
  change (run ((i, g) :: ws) store) with (run ws (alter g i store)).
  rewrite IH by done. apply list_lookup_alter_ne. auto.
Qed.

Lemma run_lookup_in ws store (j : nat) (g : T -> T) :
  NoDup ws.*1 -> (j, g) ∈ ws -> run ws store !! j = g <$> store !! j.
Proof.
  revert store. induction ws as [|[i f] ws IH]; intros store Hnd Hin.
  { by apply elem_of_nil in Hin. }
  rewrite fmap_cons in Hnd. apply NoDup_cons in Hnd as [Hi Hnd].
  change (run ((i, f) :: ws) store) with (run ws (alter f i store)).
  apply elem_of_cons in Hin as [[= -> ->] | Hin].
  - rewrite run_lookup_notin by done. apply list_lookup_alter_eq.
  - rewrite IH by done.
    rewrite list_lookup_alter_ne; [done |].
    intros ->. apply Hi.
    eapply list_elem_of_fmap_2'; [exact Hin | reflexivity].
Qed.

Lemma fst_enumerate {A} (l : list A) :
  (Fred.enumerate l).*1 = seq 0 (length l).
Proof.
  unfold Fred.enumerate. rewrite fmap_imap.
  rewrite <- (list_fmap_id (seq 0 (length l))).
  rewrite <- (imap_seq_0 l id). reflexivity.
Qed.

Lemma elem_of_enumerate {A} (l : list A) (i : nat) (x : A) :
  (i, x) ∈ Fred.enumerate l <-> l !! i = Some x.
Proof.
  unfold Fred.enumerate. rewrite elem_of_lookup_imap. split.
  - intros (j & y & [= -> ->] & H). exact H.
  - intros H. eauto.
Qed.

Lemma NoDup_fst_filter {A} (f : nat * A -> bool) (l : list (nat * A)) :
  NoDup l.*1 -> NoDup (List.filter f l).*1.
Proof.
  induction l as [|x l IH]; simpl; [done |].
  rewrite NoDup_cons. intros [Hx Hnd]. destruct (f x); [| by apply IH].
  rewrite fmap_cons. apply NoDup_cons. split; [| by apply IH].
  intros Hin. apply Hx.
  apply list_elem_of_fmap in Hin as (y & -> & Hy).
  apply list_elem_of_fmap_2.
  apply list_elem_of_In, filter_In in Hy as [Hy _].
  by apply list_elem_of_In.
Qed.

End Stores.

(** ** The population passes *)

Section PopulationProperties.
Import Py Fred.
Implicit Types (results store : list score_result) (r : score_result).

Definition none_b {A} (o : option A) : bool :=
  match o with None => true | Some _ => false end.

(** a result as [process_carrier] leaves it: the mileage flag follows the
    annual mileage, and rank, grade and insurance rating are [None] *)
Definition fresh r : bool :=
  Bool.eqb (has_sufficient_mileage r) (100000 <=? annual_mileage r)
  && none_b (rank r) && none_b (fred_score_grade r)
  && none_b (insurance_rating r).

Lemma fresh_spec r :
  fresh r = true <->
  has_sufficient_mileage r = (100000 <=? annual_mileage r)
  /\ rank r = None /\ fred_score_grade r = None /\ insurance_rating r = None.
Proof.
  unfold fresh. rewrite !andb_true_iff, Bool.eqb_true_iff.
  destruct (rank r), (fred_score_grade r), (insurance_rating r); simpl;
    intuition congruence.
Qed.

Lemma process_carrier_fresh (P : process) (carrier : dict) (data : dataset)
    res :
  process_carrier P carrier data = Ok res -> fresh res = true.
Proof.
  intros H. apply fresh_spec.
  destruct (process_carrier_inv _ _ _ _ H)
    as (e & s & c & i & sf & cf & jf & _ & _ & _ & _ & _ & _ & _ & _ & _
        & Hm & _ & _ & Hr & Hg & Hi & _).
  auto.
Qed.

Lemma elem_of_eligible_refs results (i : nat) r :
  (i, r) ∈ eligible_refs results <->
  results !! i = Some r /\ has_sufficient_mileage r = true.
Proof.
  unfold eligible_refs.
  rewrite list_elem_of_In, filter_In, <- list_elem_of_In, elem_of_enumerate.
  reflexivity.
Qed.

Lemma NoDup_eligible_refs results : NoDup (eligible_refs results).*1.
Proof.
  apply NoDup_fst_filter. rewrite fst_enumerate. apply NoDup_seq.
Qed.

Lemma eligible_refs_nil results :
  forallb (fun r => negb (has_sufficient_mileage r)) results = true ->
  eligible_refs results = [].
Proof.
  intros Hall. destruct (eligible_refs results) as [|[i r] l] eqn:E; [done |].
  assert (Hin : (i, r) ∈ eligible_refs results) by (rewrite E; left).
  apply elem_of_eligible_refs in Hin as [Hi Hr].
  rewrite forallb_forall in Hall.
  apply list_elem_of_lookup_2, list_elem_of_In, Hall in Hi.
  rewrite Hr in Hi. discriminate.
Qed.

(** Without a reference to an eligible carrier both passes return the
    store they were given. *)
Lemma passes_noop_without_eligible results :
  forallb (fun r => negb (has_sufficient_mileage r)) results = true ->
  calculate_insurance_ratings results = Ok results
  /\ assign_fred_grades results = Ok results.
Proof.
  intros Hall. pose proof (eligible_refs_nil results Hall) as Hnil. split.
  - unfold calculate_insurance_ratings. rewrite Hnil. reflexivity.
  - unfold assign_fred_grades. rewrite Hnil. reflexivity.
Qed.

(** The results collected by the loop of [process_all_carriers] are
    fresh. *)
Lemma per_carrier_pass_fresh (P : process) (carriers : list dict)
    (data : dataset) results :
  for_each (fun results carrier =>
              result ← process_carrier P carrier data;
              Ok (results ++ [result]))
    [] carriers = Ok results ->
  forallb fresh results = true.
Proof.
  apply (for_each_invariant _ (fun rs => forallb fresh rs = true)).
  - intros rs carrier rs' Hrs H. bind_inv H. injection H as <-.
    rewrite forallb_app, Hrs. simpl.
    rewrite (process_carrier_fresh _ _ _ _ Ha). reflexivity.
  - reflexivity.
Qed.

(** C7: when no carrier has an annual mileage of 100000 or more, the
    insurance normalizer and the grade assigner both return without
    raising, in particular without dividing by the zero total mileage or
    by the zero count of eligible carriers, and leave every result as it
    was: insurance rating, rank and grade stay [None]. *)
Theorem no_eligible_carrier_noop results :
  forallb fresh results = true ->
  Forall (fun r => annual_mileage r < 100000) results ->
  calculate_insurance_ratings results = Ok results
  /\ assign_fred_grades results = Ok results
  /\ Forall (fun r => insurance_rating r = None /\ rank r = None
                      /\ fred_score_grade r = None) results.
Proof.
  intros Hfresh Hm.
  assert (Hspec : forall r, r ∈ results ->
            has_sufficient_mileage r = (100000 <=? annual_mileage r)
            /\ rank r = None /\ fred_score_grade r = None
            /\ insurance_rating r = None).
  { intros r Hr. rewrite forallb_forall in Hfresh.
    by apply list_elem_of_In, Hfresh, fresh_spec in Hr. }
  assert (Hall : forallb (fun r => negb (has_sufficient_mileage r)) results
                 = true).
  { apply forallb_forall. intros r Hr. apply list_elem_of_In in Hr.
    destruct (Hspec r Hr) as [-> _].
    rewrite Forall_forall in Hm. specialize (Hm r Hr).
    apply negb_true_iff, Z.leb_gt. exact Hm. }
  destruct (passes_noop_without_eligible results Hall) as [H1 H2].
  split; [exact H1 |]. split; [exact H2 |].
  apply Forall_forall. intros r Hr. specialize (Hspec r Hr). tauto.
Qed.

Lemma no_eligible_carrier_noop_witness :
  exists r1 r2,
    process_carrier Sample.process_1 Sample.carrier_78
      Sample.records_77 = Ok r1
    /\ process_carrier Sample.process_2 Sample.carrier_78
         Sample.records_77 = Ok r2
    /\ calculate_insurance_ratings [r1; r2] = Ok [r1; r2]
    /\ assign_fred_grades [r1; r2] = Ok [r1; r2].
Proof.
  do 2 eexists. split; [vm_compute; reflexivity |].
  split; [vm_compute; reflexivity |].
  refine (let H := no_eligible_carrier_noop _ _ _ in
          conj (proj1 H) (proj1 (proj2 H))).
  - vm_compute; reflexivity.
  - repeat constructor; vm_compute; reflexivity.
Defined.

(** *** The insurance normalizer *)

Lemma truediv_returns (a b : Q) :
  ~ (b == 0)%Q -> truediv a b = Ok (Qred (a / b)).
Proof.
  intros Hb. unfold truediv.
  destruct (Qeq_bool b 0) eqn:E; [| reflexivity].
  apply Qeq_bool_iff in E. contradiction.
Qed.

Lemma inject_Z_nonzero (z : Z) : z <> 0 -> ~ (inject_Z z == 0)%Q.
Proof. unfold Qeq; simpl. lia. Qed.

(** Pass 1 never divides by zero. *)
Lemma global_rates_returns (eligible : list (nat * score_result)) :
  returns (global_rates eligible).
Proof.
  unfold global_rates, returns.
  destruct (Z.ltb_spec 0
    (sum_Z (map (fun ir : nat * score_result => annual_mileage ir.2)
              eligible))); [| eauto].
  rewrite !truediv_returns by (apply inject_Z_nonzero; lia).
  eauto.
Qed.

(** Pass 2 never divides by zero, and the rating lies in [1, 500]. *)
Lemma rating_of_returns (gv gc : Q) r :
  0 < annual_mileage r ->
  exists x, rating_of gv gc r = Ok x /\ (1 <= x <= 500)%Q.
Proof.
  intros Hm. unfold rating_of.
  rewrite (truediv_returns (inject_Z (annual_mileage r)) 100000)
    by (intros H; discriminate H).
  cbn [mbind result_bind bind].
  assert (Hunits : ~ (Qred (inject_Z (annual_mileage r) / 100000) == 0)%Q).
  { rewrite Qred_correct. unfold Qeq, Qdiv, Qmult, Qinv; simpl. lia. }
  rewrite !truediv_returns by exact Hunits.
  cbn [mbind result_bind bind].
  assert (Hmult : forall rate g : Q,
    returns (if Qltb 0 g then truediv rate g else Ok 1%Q)).
  { intros rate g. destruct (Qltb 0 g) eqn:E; [| eexists; reflexivity].
    apply Qltb_lt in E. rewrite truediv_returns by lra.
    eexists; reflexivity. }
  destruct (Hmult (Qred (inject_Z (violation_count r)
                         / Qred (inject_Z (annual_mileage r) / 100000))) gv)
    as [vm ->].
  destruct (Hmult (Qred (inject_Z (crash_count r)
                         / Qred (inject_Z (annual_mileage r) / 100000))) gc)
    as [cm ->].
  cbn [mbind result_bind bind].
  eexists. split; [reflexivity |].
  apply (round_ndigits_bounds _ 2 1 500); [lia | |].
  - apply py_max_spec.
  - apply py_max_spec; [unfold Qle; simpl; lia | apply py_min_spec].
Qed.

(** The rating reads the violation count, the crash count and the annual
    mileage of a carrier, and nothing else of it. *)
Lemma rating_of_profile (gv gc : Q) r1 r2 :
  violation_count r1 = violation_count r2 ->
  crash_count r1 = crash_count r2 ->
  annual_mileage r1 = annual_mileage r2 ->
  rating_of gv gc r1 = rating_of gv gc r2.
Proof. intros Hv Hc Hm. unfold rating_of. rewrite Hv, Hc, Hm. reflexivity. Qed.

(** what pass 2 writes through the reference to [r] *)
Definition insurance_write (gv gc : Q) r : score_result -> score_result :=
  if 0 <? annual_mileage r then
    match rating_of gv gc r with
    | Ok x => set_insurance_rating (Some x)
    | Raise _ => id
    end
  else id.

Lemma insurance_step_write (gv gc : Q) store (i : nat) r :
  insurance_step gv gc store (i, r) =
  Ok (alter (insurance_write gv gc r) i store).
Proof.
  unfold insurance_step, insurance_write.
  destruct (Z.ltb_spec 0 (annual_mileage r)) as [Hm|Hm].
  - destruct (rating_of_returns gv gc r Hm) as (x & -> & _). reflexivity.
  - rewrite list_alter_id by done. reflexivity.
Qed.

Lemma insurance_loop (gv gc : Q) (refs : list (nat * score_result)) store :
  for_each (insurance_step gv gc) store refs =
  Ok (run (map (fun ir : nat * score_result =>
                  (ir.1, insurance_write gv gc ir.2)) refs) store).
Proof.
  revert store. induction refs as [|[i r] refs IH]; intros store; [done |].
  cbn [for_each map]. rewrite insurance_step_write.
  cbn [mbind result_bind bind]. apply IH.
Qed.

Lemma calculate_insurance_ratings_run results :
  exists gv gc,
    calculate_insurance_ratings results =
    Ok (run (map (fun ir : nat * score_result =>
                    (ir.1, insurance_write gv gc ir.2))
               (eligible_refs results)) results).
Proof.
  unfold calculate_insurance_ratings.
  destruct (eligible_refs results) as [|ir refs] eqn:E.
  - exists 0%Q, 0%Q. reflexivity.
  - destruct (global_rates_returns (ir :: refs)) as [[gv gc] ->].
    exists gv, gc. cbn [mbind result_bind bind]. apply insurance_loop.
Qed.

(** C4: on fresh results the insurance normalizer returns; two eligible
    carriers with the same violation count, crash count and annual mileage
    get the same rating; every rating that is set lies in [1, 500]; a
    carrier with less than 100000 miles keeps the rating [None]. *)
Theorem insurance_ratings_normalised results :
  forallb fresh results = true ->
  exists out,
    calculate_insurance_ratings results = Ok out
    /\ length out = length results
    /\ (forall (i j : nat) ri rj oi oj,
          results !! i = Some ri -> results !! j = Some rj ->
          out !! i = Some oi -> out !! j = Some oj ->
          100000 <= annual_mileage ri ->
          violation_count ri = violation_count rj ->
          crash_count ri = crash_count rj ->
          annual_mileage ri = annual_mileage rj ->
          is_Some (insurance_rating oi)
          /\ insurance_rating oi = insurance_rating oj)
    /\ (forall (k : nat) o x,
          out !! k = Some o -> insurance_rating o = Some x ->
          (1 <= x <= 500)%Q)
    /\ (forall (k : nat) r o,
          results !! k = Some r -> out !! k = Some o ->
          annual_mileage r < 100000 -> insurance_rating o = None).
Proof.
  intros Hfresh.
  destruct (calculate_insurance_ratings_run results) as (gv & gc & Hrun).
  set (ws := map (fun ir : nat * score_result =>
                    (ir.1, insurance_write gv gc ir.2))
               (eligible_refs results)) in *.
  assert (Hfresh' : forall (k : nat) r, results !! k = Some r ->
            has_sufficient_mileage r = (100000 <=? annual_mileage r)
            /\ insurance_rating r = None).
  { intros k r Hk. rewrite forallb_forall in Hfresh.
    apply list_elem_of_lookup_2, list_elem_of_In, Hfresh, fresh_spec in Hk.
    tauto. }
  assert (Hnd : NoDup ws.*1).
  { unfold ws. rewrite <- list_fmap_compose.
    apply (NoDup_eligible_refs results). }
  (* an eligible carrier is written to *)
  assert (Hin : forall (k : nat) r, results !! k = Some r ->
            100000 <= annual_mileage r ->
            exists x, rating_of gv gc r = Ok x /\ (1 <= x <= 500)%Q
              /\ run ws results !! k = Some (set_insurance_rating (Some x) r)).
  { intros k r Hk Hm.
    destruct (rating_of_returns gv gc r ltac:(lia)) as (x & Hx & Hb).
    exists x. split; [exact Hx |]. split; [exact Hb |].
    rewrite (run_lookup_in ws results k (insurance_write gv gc r) Hnd).
    - rewrite Hk. simpl. unfold insurance_write. rewrite Hx.
      destruct (Z.ltb_spec 0 (annual_mileage r)); [reflexivity | lia].
    - unfold ws. apply (list_elem_of_fmap_2' _ _ (k, r)); [| reflexivity].
      apply elem_of_eligible_refs. split; [exact Hk |].
      destruct (Hfresh' k r Hk) as [-> _]. apply Z.leb_le. exact Hm. }
  (* the others are not *)
  assert (Hout : forall (k : nat) r, results !! k = Some r ->
            annual_mileage r < 100000 -> run ws results !! k = Some r).
  { intros k r Hk Hm. rewrite run_lookup_notin; [exact Hk |].
    unfold ws. rewrite <- list_fmap_compose. intros Hin'.
    apply list_elem_of_fmap in Hin' as ([k' r'] & Hkk & Hel).
    simpl in Hkk. subst k'.
    apply elem_of_eligible_refs in Hel as [Hk' Hs].
    assert (r' = r) by congruence. subst r'.
    destruct (Hfresh' k r Hk) as [Hflag _]. rewrite Hflag in Hs.
    apply Z.leb_le in Hs. lia. }
  exists (run ws results). split; [exact Hrun |].
  split; [apply length_run |]. split; [| split].
  - intros i j ri rj oi oj Hi Hj Hoi Hoj Hm Hv Hc Hmm.
    destruct (Hin i ri Hi Hm) as (x & Hx & _ & Hri).
    destruct (Hin j rj Hj ltac:(lia)) as (y & Hy & _ & Hrj).
    rewrite (rating_of_profile gv gc ri rj Hv Hc Hmm) in Hx.
    assert (x = y) by congruence. subst y.
    rewrite Hri in Hoi. rewrite Hrj in Hoj.
    injection Hoi as <-. injection Hoj as <-. simpl. split; [eauto | done].
  - intros k o x Hk Hx.
    assert (Hlen : (k < length results)%nat).
    { rewrite <- (length_run ws). by apply lookup_lt_Some in Hk. }
    destruct (lookup_lt_is_Some_2 results k Hlen) as [r Hr].
    destruct (Z_lt_le_dec (annual_mileage r) 100000) as [Hm|Hm].
    + rewrite (Hout k r Hr Hm) in Hk. injection Hk as <-.
      destruct (Hfresh' k r Hr) as [_ Hn]. congruence.
    + destruct (Hin k r Hr Hm) as (y & _ & Hb & Hw).
      rewrite Hw in Hk. injection Hk as <-. simpl in Hx.
      injection Hx as <-. exact Hb.
  - intros k r o Hr Hk Hm.
    rewrite (Hout k r Hr Hm) in Hk. injection Hk as <-.
    destruct (Hfresh' k r Hr) as [_ Hn]. exact Hn.
Qed.


(** *** The grade assigner *)

Lemma insert_desc_perm {A} (key : A -> Q) (x : A) (l : list A) :
  insert_desc key x l ≡ₚ x :: l.
Proof.
  induction l as [|y l IH]; simpl; [done |].
  destruct (Qltb (key x) (key y)); [| done].
  rewrite IH. apply Permutation_swap.
Qed.

Lemma sort_desc_perm {A} (key : A -> Q) (l : list A) : sort_desc key l ≡ₚ l.
Proof.
  induction l as [|x l IH]; simpl; [done |].
  rewrite insert_desc_perm. by rewrite IH.
Qed.

(** the grade given at index [k] of [n] sorted carriers *)
Definition grade_at (n : Z) (k : nat) : option string :=
  match truediv (inject_Z (Z.of_nat k)) (inject_Z n) with
  | Ok percentile => grade_for percentile
  | Raise _ => None
  end.

(** what the loop writes through the reference at index [k] *)
Definition grade_write (n : Z) (k : nat) (r : score_result) : score_result :=
  let r' := set_rank (Some (Z.of_nat k + 1)) r in
  match grade_at n k with
  | Some grade => set_fred_score_grade (Some grade) r'
  | None => r'
  end.

Definition grade_writes (n : Z) (iks : list (nat * (nat * score_result)))
  : list (nat * (score_result -> score_result)) :=
  map (fun kir : nat * (nat * score_result) => (kir.2.1, grade_write n kir.1))
    iks.

Lemma grade_step_write (n : Z) store counts (k i : nat) r :
  n <> 0 ->
  exists counts',
    grade_step n (store, counts) (k, (i, r)) =
    Ok (alter (grade_write n k) i store, counts').
Proof.
  intros Hn. unfold grade_step, grade_write, grade_at.
  rewrite truediv_returns by (apply inject_Z_nonzero; exact Hn).
  cbn [mbind result_bind bind].
  destruct (grade_for _) as [grade|]; eexists.
  - rewrite list_alter_alter_eq. reflexivity.
  - reflexivity.
Qed.

Lemma grade_loop (n : Z) (iks : list (nat * (nat * score_result)))
    store counts :
  (iks <> [] -> n <> 0) ->
  exists counts',
    for_each (grade_step n) (store, counts) iks =
    Ok (run (grade_writes n iks) store, counts').
Proof.
  revert store counts.
  induction iks as [|[k [i r]] iks IH]; intros store counts Hn.
  { eexists; reflexivity. }
  assert (Hn' : n <> 0) by (apply Hn; discriminate).
  destruct (grade_step_write n store counts k i r Hn') as [counts1 Hstep].
  cbn [for_each]. rewrite Hstep. cbn [mbind result_bind bind].
  destruct (IH (alter (grade_write n k) i store) counts1 (fun _ => Hn'))
    as [counts2 ->].
  eexists; reflexivity.
Qed.

(** The table printed at the end divides by the number of eligible
    carriers only when there is one. *)
Lemma grade_distribution_returns (counts : gmap string Z)
    (eligible : list (nat * score_result)) :
  returns (grade_distribution counts eligible).
Proof.
  unfold grade_distribution. apply for_each_returns. intros acc tg.
  destruct eligible as [|x eligible]; [eexists; reflexivity |].
  rewrite truediv_returns; [eexists; reflexivity |].
  apply inject_Z_nonzero. simpl length. lia.
Qed.

(** the eligible carriers in the order of the ranking *)
Definition ranking results : list (nat * score_result) :=
  sort_desc (fun ir : nat * score_result => combined_score ir.2)
    (eligible_refs results).

Lemma assign_fred_grades_run results :
  assign_fred_grades results =
  Ok (run (grade_writes (Z.of_nat (length (ranking results)))
             (enumerate (ranking results))) results).
Proof.
  unfold assign_fred_grades. fold (ranking results).
  destruct (grade_loop (Z.of_nat (length (ranking results)))
              (enumerate (ranking results)) results ∅) as [counts ->].
  { intros Hne. destruct (ranking results); [done | simpl; lia]. }
  cbn [mbind result_bind bind].
  destruct (grade_distribution_returns counts (ranking results)) as [t ->].
  reflexivity.
Qed.

(** does the result carry the grade [g]? *)
Definition has_grade (g : string) r : bool :=
  match fred_score_grade r with
  | Some g' => String.eqb g g'
  | None => false
  end.

(** the number of results with the grade [g] *)
Definition count_grade (g : string) store : nat :=
  length (List.filter (has_grade g) store).

Definition is_grade (g : string) (o : option string) : bool :=
  match o with Some g' => String.eqb g g' | None => false end.

Lemma count_grade_alter (g : string) (f : score_result -> score_result)
    store (i : nat) r :
  store !! i = Some r ->
  (count_grade g (alter f i store) + Nat.b2n (has_grade g r)
   = count_grade g store + Nat.b2n (has_grade g (f r)))%nat.
Proof.
  unfold count_grade. revert i.
  induction store as [|x store IH]; intros [|i] Hi; try done; simpl in *.
  - injection Hi as ->. clear IH.
    destruct (has_grade g r), (has_grade g (f r)); simpl; lia.
  - specialize (IH i Hi).
    destruct (has_grade g x); simpl; [f_equal |]; exact IH.
Qed.

Lemma has_grade_write (g : string) (n : Z) (k : nat) r :
  has_grade g r = false ->
  has_grade g (grade_write n k r) = is_grade g (grade_at n k).
Proof.
  unfold grade_write. destruct (grade_at n k) as [g'|]; [reflexivity |].
  intros Hr. exact Hr.
Qed.

(** Writing grades through pairwise distinct references to results that do
    not carry [g] yet adds one result with grade [g] per index graded [g]. *)
Lemma count_grade_run (g : string) (n : Z)
    (iks : list (nat * (nat * score_result))) store :
  NoDup (grade_writes n iks).*1 ->
  (forall w, w ∈ (grade_writes n iks).*1 ->
             exists r, store !! w = Some r /\ has_grade g r = false) ->
  count_grade g (run (grade_writes n iks) store) =
  (count_grade g store
   + length (List.filter (fun k => is_grade g (grade_at n k)) iks.*1))%nat.
Proof.
  revert store. induction iks as [|[k [i r]] iks IH]; intros store Hnd Hst.
  { simpl. lia. }
  change (grade_writes n ((k, (i, r)) :: iks))
    with ((i, grade_write n k) :: grade_writes n iks) in *.
  change (run ((i, ?f) :: ?ws) store) with (run ws (alter f i store)).
  rewrite fmap_cons in Hnd, Hst. cbn [fst] in Hnd, Hst.
  apply NoDup_cons in Hnd as [Hi Hnd].
  destruct (Hst i ltac:(left)) as (ri & Hri & Hgi).
  rewrite IH; [| exact Hnd |].
  - pose proof (count_grade_alter g (grade_write n k) store i ri Hri) as Hc.
    rewrite Hgi, (has_grade_write g n k ri Hgi) in Hc.
    rewrite fmap_cons. cbn [fst List.filter].
    destruct (is_grade g (grade_at n k)); simpl in *; lia.
  - intros w Hw. destruct (Hst w ltac:(by right)) as (rw & Hrw & Hgw).
    exists rw. split; [| exact Hgw].
    rewrite list_lookup_alter_ne; [exact Hrw |].
    intros ->. contradiction.
Qed.

Lemma grade_writes_fst (n : Z) (l : list (nat * score_result)) :
  (grade_writes n (enumerate l)).*1 = l.*1.
Proof.
  unfold grade_writes, enumerate.
  rewrite <- list_fmap_compose, fmap_imap.
  rewrite <- (imap_const fst l). reflexivity.
Qed.

Lemma count_grade_none (g : string) store :
  (forall r, r ∈ store -> has_grade g r = false) -> count_grade g store = 0%nat.
Proof.
  unfold count_grade. induction store as [|r store IH]; intros H; [done |].
  simpl. rewrite (H r) by left. apply IH. intros r' Hr'. apply H. by right.
Qed.

(** The number of results graded [g] by the grade assigner depends on the
    number of eligible carriers only. *)
Lemma assign_fred_grades_count (g : string) results :
  forallb fresh results = true ->
  exists out,
    assign_fred_grades results = Ok out
    /\ length out = length results
    /\ count_grade g out =
       length (List.filter
                 (fun k =>
                    is_grade g
                      (grade_at (Z.of_nat (length (eligible_refs results))) k))
                 (seq 0 (length (eligible_refs results)))).
Proof.
  intros Hfresh. eexists. split; [apply assign_fred_grades_run |].
  split; [apply length_run |].
  assert (Hlen : length (ranking results) = length (eligible_refs results)).
  { unfold ranking. by rewrite sort_desc_perm. }
  assert (Hnone : forall r, r ∈ results -> has_grade g r = false).
  { intros r Hr. rewrite forallb_forall in Hfresh.
    apply list_elem_of_In, Hfresh, fresh_spec in Hr.
    unfold has_grade. destruct Hr as (_ & _ & -> & _). reflexivity. }
  rewrite count_grade_run.
  - rewrite fst_enumerate, Hlen.
    rewrite (count_grade_none g results Hnone). reflexivity.
  - rewrite grade_writes_fst. unfold ranking. rewrite sort_desc_perm.
    apply NoDup_eligible_refs.
  - intros w. rewrite grade_writes_fst. unfold ranking.
    rewrite sort_desc_perm. intros Hw.
    apply list_elem_of_fmap in Hw as ([i r] & -> & Hir).
    apply elem_of_eligible_refs in Hir as [Hi _].
    exists r. split; [exact Hi |].
    apply Hnone. by eapply list_elem_of_lookup_2.
Qed.

(** C1: with 100 eligible carriers the grade assigner grades four of them
    A+, those at the indices 0, 1, 2 and 3 of the ranking, whose
    percentiles 0.00, 0.01, 0.02 and 0.03 do not exceed the ceiling 0.03;
    this holds whatever the combined scores are. *)
Theorem assign_fred_grades_100 results :
  forallb fresh results = true ->
  length (eligible_refs results) = 100%nat ->
  exists out,
    assign_fred_grades results = Ok out
    /\ count_grade "A+" out = 4%nat
    /\ map (grade_at 100) [0; 1; 2; 3; 4]%nat
       = [Some "A+"; Some "A+"; Some "A+"; Some "A+"; Some "A"].
Proof.
  intros Hfresh Hlen.
  destruct (assign_fred_grades_count "A+" results Hfresh)
    as (out & Hout & _ & Hcount).
  exists out. split; [exact Hout |]. split; [| vm_compute; reflexivity].
  rewrite Hcount, Hlen. vm_compute. reflexivity.
Qed.


Lemma assign_fred_grades_100_witness :
  forallb fresh Sample.population_100 = true
  /\ length (eligible_refs Sample.population_100) = 100%nat
  /\ exists out,
    assign_fred_grades Sample.population_100 = Ok out
    /\ count_grade "A+" out = 4%nat.
Proof.
  assert (H1 : forallb fresh Sample.population_100 = true)
    by (vm_compute; reflexivity).
  assert (H2 : length (eligible_refs Sample.population_100) = 100%nat)
    by (vm_compute; reflexivity).
  split; [exact H1 |]. split; [exact H2 |].
  destruct (assign_fred_grades_100 Sample.population_100 H1 H2)
    as (out & Hout & Hcount & _).
  exists out. split; [exact Hout | exact Hcount].
Defined.

(** are the scores pairwise distinct? *)
Fixpoint all_distinct (l : list Q) : bool :=
  match l with
  | [] => true
  | x :: l' => forallb (fun y => negb (Qeq_bool x y)) l' && all_distinct l'
  end.

(** C1, as the specification states it, fails: a population of 100
    eligible carriers with pairwise distinct combined scores gets four
    carriers graded A+, not three. *)
Lemma assign_fred_grades_100_not_3 :
  length (eligible_refs Sample.population_100) = 100%nat
  /\ all_distinct (map combined_score Sample.population_100) = true
  /\ exists out,
    assign_fred_grades Sample.population_100 = Ok out
    /\ count_grade "A+" out = 4%nat
    /\ count_grade "A+" out <> 3%nat.
Proof.
  split; [vm_compute; reflexivity |].
  split; [vm_compute; reflexivity |].
  eexists. split; [vm_compute; reflexivity |].
  split; [vm_compute; reflexivity |].
  vm_compute. discriminate.
Qed.

(** The percentile 3/100 and the ceiling 0.03 are the same double: with
    the binary64 arithmetic of the interpreter every index of a ranking of
    100 carriers gets the grade computed above with exact rationals. *)
Lemma grade_for_b64_100 :
  map (grade_for_b64 100) (seq 0 100) = map (grade_at 100) (seq 0 100)
  /\ PrimFloat.leb (PrimFloat.div 3 100) 0.03 = true
  /\ PrimFloat.leb (PrimFloat.div 4 100) 0.03 = false.
Proof. repeat split; vm_compute; reflexivity. Qed.

Lemma insurance_ratings_normalised_witness :
  forallb fresh Sample.population_4 = true
  /\ exists out,
    calculate_insurance_ratings Sample.population_4 = Ok out
    /\ length out = 4%nat
    /\ map insurance_rating out
       = [Some 161%Q; Some 161%Q; None; Some 18.67%Q].
Proof.
  assert (H : forallb fresh Sample.population_4 = true)
    by (vm_compute; reflexivity).
  split; [exact H |].
  destruct (insurance_ratings_normalised Sample.population_4 H)
    as (out & Hout & Hlen & _).
  exists out. split; [exact Hout |]. split; [exact Hlen |].
  assert (Hc : calculate_insurance_ratings Sample.population_4 = Ok out)
    by exact Hout.
  vm_compute in Hc. injection Hc as <-. vm_compute. reflexivity.
Defined.

End PopulationProperties.

(* ===================================================================== *)
(** * Further properties of the code *)
(* ===================================================================== *)

(** ** The readers of the estimator *)

Section IssReaders.
Import Py Iss.
Implicit Types (P : process) (carrier row : dict).

(** [int(float(s))] raises nothing but [OverflowError], and only for text
    that [float()] reads as an infinity. *)
Lemma int_of_text_raise (s : string) (dflt : Z) (e : exn) :
  try_except (f ← py_float s; int_of_float f) [ValueError; TypeError] dflt
  = Raise e <->
  e = OverflowError /\ exists neg, float_of_str s = Some (FInf neg).
Proof.
  unfold py_float. destruct (float_of_str s) as [[q|neg|]|]; simpl; split;
    try discriminate; try (by intros (_ & ? & [=])).
  - intros [= <-]. split; [reflexivity | by exists neg].
  - by intros [-> _].
Qed.

(** X1: [safe_int] and [get_int] never let a [ValueError] or a [TypeError]
    out: they raise exactly when the cell is neither [None] nor empty and
    its text reads as an infinite float, and the exception is then
    [OverflowError]. *)
Theorem integer_readers_raise_only_overflow (v : value) row (col : string)
    (dflt : Z) (e : exn) :
  (Fred.safe_int v dflt = Raise e <->
   is_none v || eq_empty v = false /\ e = OverflowError
   /\ exists neg,
     float_of_str (strip_char Fred.dquote (strip (str v))) = Some (FInf neg))
  /\ (get_int row col dflt = Raise e <->
      is_none (get row col (PStr "")) || eq_empty (get row col (PStr ""))
      = false
      /\ e = OverflowError
      /\ exists neg,
        float_of_str (strip (str (get row col (PStr "")))) = Some (FInf neg)).
Proof.
  split.
  - unfold Fred.safe_int. destruct (is_none v || eq_empty v).
    + split; [discriminate | by intros [? _]].
    + rewrite int_of_text_raise. tauto.
  - unfold get_int.
    destruct (is_none (get row col (PStr ""))
              || eq_empty (get row col (PStr ""))).
    + split; [discriminate | by intros [? _]].
    + rewrite int_of_text_raise. tauto.
Qed.

(** a numeral beyond the range of binary64 is an infinity as well *)
Lemma integer_readers_raise_only_overflow_witness :
  Fred.safe_int (PStr "1e999") 0 = Raise OverflowError
  /\ get_int {[ "POWER_UNITS" := PStr " -Infinity " ]} "POWER_UNITS" 0
     = Raise OverflowError.
Proof.
  split.
  - refine (proj2 (proj1 (integer_readers_raise_only_overflow
                            (PStr "1e999") ∅ "" 0 OverflowError)) _).
    split; [reflexivity |]. split; [reflexivity |].
    exists false. vm_compute. reflexivity.
  - refine (proj2 (proj2 (integer_readers_raise_only_overflow PNone
                            {[ "POWER_UNITS" := PStr " -Infinity " ]}
                            "POWER_UNITS" 0 OverflowError)) _).
    split; [reflexivity |]. split; [reflexivity |].
    exists true. vm_compute. reflexivity.
Defined.

Lemma float_in_range (p : pyfloat) :
  float_ge p 0 && float_le p 100 = true ->
  exists q, p = FFinite q /\ (0 <= q <= 100)%Q.
Proof.
  destruct p as [q|neg|]; simpl.
  - intros [H1 H2]%andb_prop. exists q.
    by rewrite <- !Qle_bool_iff.
  - by destruct neg.
  - done.
Qed.

(** X2: [get_percentile] never raises; it returns [None] or a finite
    number between 0 and 100. *)
Theorem get_percentile_range row (col : string) :
  exists o,
    get_percentile row col = Ok o
    /\ match o with
       | Some p => exists q, p = FFinite q /\ (0 <= q <= 100)%Q
       | None => True
       end.
Proof.
  unfold get_percentile.
  destruct (is_none _ || eq_empty _); [by exists None |].
  unfold py_float.
  destruct (float_of_str _) as [p|]; simpl; [| by exists None].
  destruct (float_ge p 0 && float_le p 100) eqn:E; [| by exists None].
  exists (Some p). split; [reflexivity | by apply float_in_range].
Qed.

Lemma map_string_rev_app (f : ascii -> ascii) (s t : string) :
  map_string f (String.rev_app s t)
  = String.rev_app (map_string f s) (map_string f t).
Proof.
  revert t. induction s as [|c s IH]; intros t; simpl; [done |].
  by rewrite IH.
Qed.

Lemma map_string_rev (f : ascii -> ascii) (s : string) :
  map_string f (String.rev s) = String.rev (map_string f s).
Proof. apply map_string_rev_app. Qed.

Lemma map_string_lstrip_by (p : ascii -> bool) (f : ascii -> ascii)
    (s : string) :
  (forall c, p (f c) = p c) ->
  map_string f (lstrip_by p s) = lstrip_by p (map_string f s).
Proof.
  intros Hp. induction s as [|c s IH]; simpl; [done |].
  rewrite Hp. by destruct (p c).
Qed.

Lemma is_space_upper_ascii (c : ascii) : is_space (upper_ascii c) = is_space c.
Proof. by destruct c as [[] [] [] [] [] [] [] []]. Qed.

(** Upper-casing and stripping white space commute. *)
Lemma upper_strip (s : string) : upper (strip s) = strip (upper s).
Proof.
  unfold upper, strip, strip_by.
  rewrite map_string_rev, map_string_lstrip_by by apply is_space_upper_ascii.
  rewrite map_string_rev, map_string_lstrip_by by apply is_space_upper_ascii.
  reflexivity.
Qed.

(** X3: the estimator and the scoring engine read an alert cell the same
    way: [get_alert] on a row is [is_true_value] of the cell. *)
Theorem get_alert_is_true_value row (col : string) :
  get_alert row col = Fred.is_true_value (get row col (PStr "")).
Proof.
  unfold get_alert, Fred.is_true_value, py_or.
  destruct (get row col (PStr "")) as [|s|z]; simpl.
  - reflexivity.
  - rewrite <- upper_strip. by destruct s.
  - rewrite <- upper_strip. destruct (Z.eqb_spec z 0) as [->|]; reflexivity.
Qed.

End IssReaders.

(** ** Groups, scores and seeds of the estimator *)

Section IssGroups.
Import Py Iss.
Implicit Types (P : process) (carrier row : dict).

Lemma has_any_percentile_spec (percentiles : gmap string (option pyfloat)) :
  existsb (fun kv : string * option pyfloat => bool_decide (is_Some kv.2))
    (map_to_list percentiles) = true
  <-> exists k p, percentiles !! k = Some (Some p).
Proof.
  rewrite existsb_exists. split.
  - intros ([k o] & Hin & Hs). apply bool_decide_eq_true in Hs.
    simpl in Hs. destruct Hs as [p ->]. exists k, p.
    apply elem_of_map_to_list. by apply list_elem_of_In.
  - intros (k & p & Hk). exists (k, Some p). split.
    + apply list_elem_of_In. by apply elem_of_map_to_list.
    + by apply bool_decide_eq_true.
Qed.

Lemma assign_group_spec (alerts : gmap string bool)
    (percentiles : gmap string (option pyfloat)) (nt nr : Z) :
  match assign_group alerts percentiles nt nr with
  | Some g =>
      (1 <= g <= 5 \/ 7 <= g <= 13)
      /\ exists k p, percentiles !! k = Some (Some p)
  | None => forall k o, percentiles !! k = Some o -> o = None
  end.
Proof.
  unfold assign_group.
  destruct (existsb _ (map_to_list percentiles)) eqn:E; simpl.
  - apply has_any_percentile_spec in E.
    repeat match goal with
           | |- context [if ?b then _ else _] => destruct b
           end; simpl; (split; [lia | exact E]).
  - intros k [p|] Hk; [| reflexivity].
    assert (existsb (fun kv : string * option pyfloat =>
                       bool_decide (is_Some kv.2))
              (map_to_list percentiles) = true) as E'
      by (apply has_any_percentile_spec; eauto).
    congruence.
Qed.

(** X4: [assign_group] returns no group exactly when no percentile is
    present; otherwise the group is one of 1 to 5 and 7 to 13, never 6. *)
Theorem assign_group_range (alerts : gmap string bool)
    (percentiles : gmap string (option pyfloat)) (nt nr : Z) :
  (assign_group alerts percentiles nt nr = None
   <-> forall k o, percentiles !! k = Some o -> o = None)
  /\ (forall g, assign_group alerts percentiles nt nr = Some g ->
        (1 <= g <= 5 \/ 7 <= g <= 13) /\ g <> 6).
Proof.
  pose proof (assign_group_spec alerts percentiles nt nr) as H.
  destruct (assign_group alerts percentiles nt nr) as [g|]; split.
  - split; [discriminate |]. intros Hnone.
    destruct H as (_ & k & p & Hk). by specialize (Hnone _ _ Hk).
  - intros g' [= <-]. destruct H as [H _]. lia.
  - done.
  - discriminate.
Qed.

Lemma safety_algorithm_score_bands P (g rng : Z) :
  let s := safety_algorithm_score P g rng in
  (1 <= g <= 5 -> 100 - 4 * g <= s <= 99 /\ s <= 106 - 4 * g)
  /\ (7 <= g <= 12 -> 99 - 4 * g <= s <= 74 /\ s <= 105 - 4 * g)
  /\ (g = 13 -> 25 <= s <= 49).
Proof.
  unfold safety_algorithm_score, int_in; simpl.
  pose proof (randint_range P rng (-3) 3 ltac:(lia)).
  pose proof (randint_range P rng 25 49 ltac:(lia)).
  repeat split; intros;
    repeat match goal with
           | |- context [?a =? ?b] => destruct (Z.eqb_spec a b); simpl
           end; lia.
Qed.

Lemma estimate_iss_safety_inv P carrier (basic : option dict) config r :
  estimate_iss P carrier basic config = Ok r ->
  source r = SAFETY ->
  exists g,
    group r = Some g /\ case r = None
    /\ (1 <= g <= 5 \/ 7 <= g <= 13)
    /\ iss_score r =
       safety_algorithm_score P g
         (rng_seed P (default default_config config)
            (str (get carrier "DOT_NUMBER" (PStr ""))))
    /\ bucket r = bucket_of_score (iss_score r).
Proof.
  intros Hr Hs.
  destruct (estimate_iss_paths _ _ _ _ _ Hr) as [[_ Hb]|[Hi _]];
    [| congruence].
  unfold estimate_iss in Hr. destruct basic as [row|]; simpl in Hr.
  - do 7 bind_inv Hr.
    match type of Hr with
    | match assign_group ?al ?pc ?nt ?nr with _ => _ end = _ =>
        pose proof (assign_group_spec al pc nt nr) as Hg;
        destruct (assign_group al pc nt nr) as [g|]
    end.
    + injection Hr as <-. exists g. simpl. destruct Hg as [Hg _]. done.
    + unfold insufficient_data_algorithm in Hr. do 3 bind_inv Hr.
      repeat match type of Hr with
             | (if ?b then _ else _) = _ => destruct b
             end; injection Hr as <-; discriminate.
  - unfold insufficient_data_algorithm in Hr. do 3 bind_inv Hr.
    repeat match type of Hr with
           | (if ?b then _ else _) = _ => destruct b
           end; injection Hr as <-; discriminate.
Qed.

(** X5: on the Safety path the group decides the bucket: groups 1 to 5
    score 80 to 99 and are Inspect, groups 7 to 12 score 51 to 74 and are
    Optional, group 13 scores 25 to 49 and is Pass; the score stays within
    3 points of the base of the group. *)
Theorem estimate_iss_safety_bands P carrier (basic : option dict) config r :
  estimate_iss P carrier basic config = Ok r ->
  source r = SAFETY ->
  exists g,
    group r = Some g /\ case r = None
    /\ ((1 <= g <= 5 /\ bucket r = INSPECT
         /\ 100 - 4 * g <= iss_score r <= 99 /\ iss_score r <= 106 - 4 * g)
        \/ (7 <= g <= 12 /\ bucket r = OPTIONAL
            /\ 99 - 4 * g <= iss_score r <= 74
            /\ iss_score r <= 105 - 4 * g)
        \/ (g = 13 /\ bucket r = PASS /\ 25 <= iss_score r <= 49)).
Proof.
  intros Hr Hs.
  destruct (estimate_iss_safety_inv _ _ _ _ _ Hr Hs)
    as (g & Hg & Hc & Hrange & Hscore & Hb).
  exists g. split; [exact Hg |]. split; [exact Hc |].
  rewrite Hb.
  destruct (safety_algorithm_score_bands P g
              (rng_seed P (default default_config config)
                 (str (get carrier "DOT_NUMBER" (PStr "")))))
    as (B1 & B2 & B3).
  rewrite <- Hscore in B1, B2, B3.
  pose proof (bucket_of_score_spec (iss_score r)) as (S1 & S2 & S3).
  destruct (Z_le_gt_dec g 5) as [Hle|Hgt].
  - left. assert (1 <= g <= 5) as G by lia. specialize (B1 G).
    repeat split; try lia. apply S1. lia.
  - destruct (Z_le_gt_dec g 12) as [Hle|Hgt'].
    + right; left. assert (7 <= g <= 12) as G by lia. specialize (B2 G).
      repeat split; try lia. apply S2. lia.
    + right; right. assert (g = 13) as G by lia. specialize (B3 G).
      repeat split; try lia. apply S3. lia.
Qed.

Lemma randint_same_generator (P1 P2 : process) (rng a b : Z) :
  randbelow P1 = randbelow P2 -> randint P1 rng a b = randint P2 rng a b.
Proof. unfold randint. by intros ->. Qed.

Lemma safety_algorithm_score_same_generator (P1 P2 : process) (g rng : Z) :
  randbelow P1 = randbelow P2 ->
  safety_algorithm_score P1 g rng = safety_algorithm_score P2 g rng.
Proof.
  intros H. unfold safety_algorithm_score.
  by rewrite !(randint_same_generator P1 P2 _ _ _ H).
Qed.

Lemma insufficient_data_algorithm_same_generator (P1 P2 : process)
    carrier row config (rng : Z) :
  randbelow P1 = randbelow P2 ->
  insufficient_data_algorithm P1 carrier row config rng
  = insufficient_data_algorithm P2 carrier row config rng.
Proof.
  intros H. unfold insufficient_data_algorithm.
  by rewrite !(randint_same_generator P1 P2 _ _ _ H).
Qed.

(** X6: with a configured seed other than 0 the estimate does not depend
    on the string hash of the process nor on its date: two processes with
    the same generator return the same result. *)
Theorem estimate_iss_configured_seed (P1 P2 : process) carrier
    (basic : option dict) config (s : Z) :
  seed config = Some s -> s <> 0 ->
  randbelow P1 = randbelow P2 ->
  estimate_iss P1 carrier basic (Some config)
  = estimate_iss P2 carrier basic (Some config).
Proof.
  intros Hseed Hs Hgen. unfold estimate_iss, rng_seed. simpl.
  rewrite Hseed. destruct (Z.eqb_spec s 0) as [|_]; [done |].
  destruct basic as [row|].
  - repeat match goal with
           | |- context [get_percentile ?r ?c] =>
               destruct (get_percentile r c); simpl; [| reflexivity]
           end.
    destruct (assign_group _ _ _ _) as [g|].
    + by rewrite (safety_algorithm_score_same_generator P1 P2 _ _ Hgen).
    + by apply insufficient_data_algorithm_same_generator.
  - by apply insufficient_data_algorithm_same_generator.
Qed.

Lemma estimate_iss_configured_seed_witness :
  estimate_iss Sample.process_1 Sample.carrier_12345
    (Some Sample.basic_hos_alert)
    (Some {| seed := Some 42;
             col_unsafe := col_unsafe default_config;
             col_hos := col_hos default_config;
             col_driver_fit := col_driver_fit default_config;
             col_csaa := col_csaa default_config;
             col_veh_maint := col_veh_maint default_config;
             col_hm := col_hm default_config;
             col_crash := col_crash default_config;
             col_alert_unsafe := col_alert_unsafe default_config;
             col_alert_hos := col_alert_hos default_config;
             col_alert_driver_fit := col_alert_driver_fit default_config;
             col_alert_csaa := col_alert_csaa default_config;
             col_alert_veh_maint := col_alert_veh_maint default_config;
             col_alert_hm := col_alert_hm default_config;
             col_alert_crash := col_alert_crash default_config |})
  = estimate_iss Sample.process_2 Sample.carrier_12345
      (Some Sample.basic_hos_alert)
      (Some {| seed := Some 42;
               col_unsafe := col_unsafe default_config;
               col_hos := col_hos default_config;
               col_driver_fit := col_driver_fit default_config;
               col_csaa := col_csaa default_config;
               col_veh_maint := col_veh_maint default_config;
               col_hm := col_hm default_config;
               col_crash := col_crash default_config;
               col_alert_unsafe := col_alert_unsafe default_config;
               col_alert_hos := col_alert_hos default_config;
               col_alert_driver_fit := col_alert_driver_fit default_config;
               col_alert_csaa := col_alert_csaa default_config;
               col_alert_veh_maint := col_alert_veh_maint default_config;
               col_alert_hm := col_alert_hm default_config;
               col_alert_crash := col_alert_crash default_config |}).
Proof.
  apply (estimate_iss_configured_seed _ _ _ _ _ 42);
    [reflexivity | lia | reflexivity].
Defined.

End IssGroups.

Section IssDisplay.
Import Py Iss.
Implicit Types (P : process) (carrier row : dict).

Definition insufficient_cases : list (option string) :=
  [Some "D2"; Some "D3"; Some "D4"; Some "D5"]%string.

Lemma insufficient_data_algorithm_result P carrier row config (rng : Z) r :
  insufficient_data_algorithm P carrier row config rng = Ok r ->
  source r = INSUFFICIENT /\ bucket r = OPTIONAL /\ group r = None
  /\ alerts r = ∅ /\ confidence r = "estimated"
  /\ In (case r) insufficient_cases /\ iss_score r <= 69.
Proof.
  unfold insufficient_data_algorithm. intros H. do 3 bind_inv H.
  pose proof (randint_range P rng 55 62 ltac:(lia)).
  repeat match type of H with
         | (if ?b then _ else _) = _ => destruct b
         end; injection H as <-; simpl;
    repeat (split; [first [reflexivity | tauto] |]);
    repeat match goal with
           | |- context [if ?b then _ else _] => destruct b
           end; lia.
Qed.

(** X7: what [get_iss_display_data] hands to the templates.  On the Safety
    path there is a group, no case, a score from 25 to 99 and the bucket
    of that score.  On the Insufficient path there is a case D2 to D5, no
    group, the bucket Optional, a score of at most 69, and the alerts read
    from the BASIC row are not reported. *)
Theorem get_iss_display_data_fields P carrier (basic : option dict) config d :
  get_iss_display_data P carrier basic config = Ok d ->
  d_iss_confidence d = "estimated"
  /\ ((d_iss_source d = "SAFETY" /\ d_iss_case d = None
       /\ (exists g, d_iss_group d = Some g /\ (1 <= g <= 5 \/ 7 <= g <= 13))
       /\ 25 <= d_iss_score d <= 99
       /\ d_iss_bucket d = bucket_value (bucket_of_score (d_iss_score d)))
      \/ (d_iss_source d = "INSUFFICIENT" /\ d_iss_group d = None
          /\ In (d_iss_case d) insufficient_cases
          /\ d_iss_bucket d = "Optional" /\ d_iss_score d <= 69
          /\ d_iss_alerts d = ∅)).
Proof.
  unfold get_iss_display_data. intros H. bind_inv H. injection H as <-.
  simpl.
  destruct (estimate_iss_paths _ _ _ _ _ Ha) as [[Hs Hb]|[Hs Hins]].
  - destruct (estimate_iss_safety_inv _ _ _ _ _ Ha Hs)
      as (g & Hg & Hc & Hrange & Hscore & _).
    assert (confidence a = "estimated") as Hconf.
    { unfold estimate_iss in Ha. destruct basic as [row|]; simpl in Ha.
      - do 7 bind_inv Ha. destruct (assign_group _ _ _ _).
        + by injection Ha as <-.
        + by apply insufficient_data_algorithm_result in Ha as (_&_&_&_&?&_).
      - by apply insufficient_data_algorithm_result in Ha as (_&_&_&_&?&_). }
    split; [exact Hconf |]. left.
    rewrite Hs, Hb. split; [reflexivity |]. split; [exact Hc |].
    split; [by exists g |]. split; [| reflexivity].
    destruct (safety_algorithm_score_bands P g
                (rng_seed P (default default_config config)
                   (str (get carrier "DOT_NUMBER" (PStr "")))))
      as (B1 & B2 & B3).
    rewrite <- Hscore in B1, B2, B3. lia.
  - apply insufficient_data_algorithm_result in Hins
      as (_ & Hb & Hg & Hal & Hconf & Hcase & Hle).
    split; [exact Hconf |]. right. rewrite Hs, Hb. done.
Qed.

(** a BASIC row with an alert and no percentile goes the Insufficient
    path, and the alert is not reported *)
Lemma get_iss_display_data_fields_witness :
  get_iss_display_data Sample.process_1 Sample.carrier_12345
    (Some {[ "HOS_DRIV_ALERT" := PStr "Y" ]}) None
  = Ok {| d_iss_score := 63; d_iss_bucket := "Optional";
          d_iss_source := "INSUFFICIENT"; d_iss_group := None;
          d_iss_case := Some "D4"; d_iss_alerts := ∅;
          d_iss_confidence := "estimated" |}
  /\ 63 <= 69.
Proof.
  assert (H : get_iss_display_data Sample.process_1 Sample.carrier_12345
                (Some {[ "HOS_DRIV_ALERT" := PStr "Y" ]}) None
              = Ok {| d_iss_score := 63; d_iss_bucket := "Optional";
                      d_iss_source := "INSUFFICIENT"; d_iss_group := None;
                      d_iss_case := Some "D4"; d_iss_alerts := ∅;
                      d_iss_confidence := "estimated" |})
    by (vm_compute; reflexivity).
  split; [exact H |].
  destruct (get_iss_display_data_fields _ _ _ _ _ H)
    as (_ & [(Hs & _)|(_ & _ & _ & _ & Hle & _)]);
    [discriminate Hs | exact Hle].
Defined.

Lemma estimate_iss_safety_bands_witness :
  estimate_iss Sample.process_1 Sample.carrier_12345
    (Some Sample.basic_hos_alert) None
  = Ok {| iss_score := 81; bucket := INSPECT; source := SAFETY;
          group := Some 5; case := None;
          alerts :=
            {[ "UNSAFE" := false; "HOS" := true; "DRIVER_FIT" := false;
               "CSAA" := false; "VEH_MAINT" := false; "HM" := false;
               "CRASH" := false ]};
          confidence := "estimated" |}
  /\ 80 <= 81 <= 86.
Proof.
  assert (H : estimate_iss Sample.process_1 Sample.carrier_12345
                (Some Sample.basic_hos_alert) None
              = Ok {| iss_score := 81; bucket := INSPECT; source := SAFETY;
                      group := Some 5; case := None;
                      alerts :=
                        {[ "UNSAFE" := false; "HOS" := true;
                           "DRIVER_FIT" := false; "CSAA" := false;
                           "VEH_MAINT" := false; "HM" := false;
                           "CRASH" := false ]};
                      confidence := "estimated" |})
    by (vm_compute; reflexivity).
  split; [exact H |].
  destruct (estimate_iss_safety_bands _ _ _ _ _ H eq_refl)
    as (g & Hg & _ & [(_ & _ & Hr & Hr')|[(Hr & _)|(Hr & _)]]);
    injection Hg as <-; simpl in *; lia.
Defined.

End IssDisplay.

Section IssFallback.
Import Py Iss.
Implicit Types (P : process) (carrier row : dict).

Lemma get_percentile_returns row (col : string) :
  exists o, get_percentile row col = Ok o.
Proof.
  unfold get_percentile.
  destruct (is_none _ || eq_empty _); [by eexists |].
  unfold py_float.
  destruct (float_of_str _) as [p|]; simpl; [| by eexists].
  destruct (float_ge p 0 && float_le p 100); by eexists.
Qed.

(** X8: the last line of [assign_group] is reached.  A BASIC row whose
    only alerts are Unsafe Driving and Crash Indicator, with the Unsafe
    Driving percentile below 85, has two alerts, none of them roadside and
    at most one of them high-risk: it falls through every rule to group
    13 and is estimated as Pass with a score from 25 to 49, below a
    carrier with one of the two alerts alone. *)
Theorem estimate_iss_unsafe_and_crash_alerts P carrier row (p : pyfloat) :
  get_alert row "UNSAFE_DRIV_ALERT" = true ->
  get_alert row "CRASH_ALERT" = true ->
  get_alert row "HOS_DRIV_ALERT" = false ->
  get_alert row "DRIV_FIT_ALERT" = false ->
  get_alert row "CONTR_SUBST_ALERT" = false ->
  get_alert row "VEH_MAINT_ALERT" = false ->
  get_alert row "HM_ALERT" = false ->
  get_percentile row "UNSAFE_DRIV_MEASURE" = Ok (Some p) ->
  float_ge p 85 = false ->
  exists r,
    estimate_iss P carrier (Some row) None = Ok r
    /\ source r = SAFETY /\ group r = Some 13
    /\ bucket r = PASS /\ 25 <= iss_score r <= 49.
Proof.
  intros A1 A2 A3 A4 A5 A6 A7 Hp Hlt.
  unfold estimate_iss. simpl.
  rewrite A1, A2, A3, A4, A5, A6, A7, Hp. simpl.
  destruct (get_percentile_returns row "HOS_DRIV_MEASURE") as [o2 ->].
  destruct (get_percentile_returns row "DRIV_FIT_MEASURE") as [o3 ->].
  destruct (get_percentile_returns row "CONTR_SUBST_MEASURE") as [o4 ->].
  destruct (get_percentile_returns row "VEH_MAINT_MEASURE") as [o5 ->].
  destruct (get_percentile_returns row "HM_MEASURE") as [o6 ->].
  destruct (get_percentile_returns row "CRASH_MEASURE") as [o7 ->].
  simpl.
  match goal with
  | |- context [assign_group ?al ?pc ?nt ?nr] =>
      let nt' := eval vm_compute in nt in
      let nr' := eval vm_compute in nr in
      change nt with nt'; change nr with nr';
      assert (assign_group al pc nt' nr' = Some 13) as ->
  end.
  { unfold assign_group.
    match goal with
    | |- context [existsb ?f (map_to_list ?m)] =>
        assert (existsb f (map_to_list m) = true) as ->
          by (apply has_any_percentile_spec; exists "UNSAFE"%string, p;
              reflexivity)
    end.
    change (default false (_ !! "UNSAFE"%string)) with true.
    change (default false (_ !! "HOS"%string)) with false.
    change (default false (_ !! "CRASH"%string)) with true.
    change (default None (_ !! "UNSAFE"%string)) with (Some p).
    simpl. rewrite Hlt. simpl.
    by destruct (match default None _ with Some _ => _ | None => _ end). }
  eexists. split; [reflexivity |]. simpl.
  pose proof (randint_range P
                (rng_seed P default_config
                   (str (get carrier "DOT_NUMBER" (PStr "")))) 25 49
                ltac:(lia)) as Hr.
  unfold safety_algorithm_score. simpl.
  split; [reflexivity |]. split; [reflexivity |].
  split; [| exact Hr].
  apply bucket_of_score_spec. lia.
Qed.

Lemma estimate_iss_unsafe_and_crash_alerts_witness :
  (exists r,
     estimate_iss Sample.process_1 Sample.carrier_12345
       (Some {[ "UNSAFE_DRIV_ALERT" := PStr "Y";
                "UNSAFE_DRIV_MEASURE" := PStr "80";
                "CRASH_ALERT" := PStr "Y" ]}) None = Ok r
     /\ source r = SAFETY /\ group r = Some 13
     /\ bucket r = PASS /\ 25 <= iss_score r <= 49)
  /\ exists r,
    estimate_iss Sample.process_1 Sample.carrier_12345
      (Some {[ "UNSAFE_DRIV_ALERT" := PStr "Y";
               "UNSAFE_DRIV_MEASURE" := PStr "80" ]}) None = Ok r
    /\ group r = Some 7 /\ bucket r = OPTIONAL /\ iss_score r = 72.
Proof.
  split.
  - apply (estimate_iss_unsafe_and_crash_alerts Sample.process_1
             Sample.carrier_12345
             {[ "UNSAFE_DRIV_ALERT" := PStr "Y";
                "UNSAFE_DRIV_MEASURE" := PStr "80";
                "CRASH_ALERT" := PStr "Y" ]} (FFinite 80));
      vm_compute; reflexivity.
  - eexists. split; [vm_compute; reflexivity |]. repeat split.
Defined.

End IssFallback.

(** ** The outcomes of the classifier *)

Section ClassifierOutcomes.
Import Py Fred.
Implicit Types (carrier : dict).

Lemma safe_int_raise (v : value) (dflt : Z) (e : exn) :
  safe_int v dflt = Raise e -> e = OverflowError.
Proof.
  unfold safe_int. destruct (is_none v || eq_empty v); [discriminate |].
  unfold py_float.
  destruct (float_of_str _) as [[q|neg|]|]; simpl; try discriminate.
  by intros [= <-].
Qed.

Lemma sum_results_raise {A} (f : A -> result Z) (xs : list A) (acc : Z)
    (e : exn) :
  sum_results f xs acc = Raise e -> exists x, x ∈ xs /\ f x = Raise e.
Proof.
  revert acc. induction xs as [|x xs IH]; intros acc; simpl; [discriminate |].
  destruct (f x) as [v|e'] eqn:E; simpl.
  - intros H. destruct (IH _ H) as (y & Hy & Hfy).
    exists y. split; [by right | exact Hfy].
  - intros [= <-]. exists x. split; [by left | exact E].
Qed.

Lemma sum_fields_raise carrier (fields : list string) (e : exn) :
  sum_fields carrier fields = Raise e -> e = OverflowError.
Proof.
  intros H. apply sum_results_raise in H as (f & _ & H).
  by apply safe_int_raise in H.
Qed.

(** the reasons counted by [load_all_data] *)
Definition exclusion_reasons : list string :=
  [ "inactive_status"; "passenger_operation"; "no_truck_power";
    "private_not_for_hire"; "no_for_hire_authority" ]%string.

(** X9: the classifier keeps a carrier with the empty reason and removes
    one with one of the five reasons that [load_all_data] counts; the
    only exception it raises is [OverflowError]. *)
Theorem should_exclude_carrier_outcomes carrier :
  match should_exclude_carrier carrier with
  | Ok (false, reason) => reason = ""%string
  | Ok (true, reason) => In reason exclusion_reasons
  | Raise e => e = OverflowError
  end.
Proof.
  unfold should_exclude_carrier.
  destruct (inactive carrier); [simpl; tauto |].
  destruct (passenger_classdef carrier); [simpl; tauto |].
  destruct (is_true_value (get carrier "CRGO_PASSENGERS" _)); [simpl; tauto |].
  destruct (sum_fields carrier passenger_equipment_fields) as [n|e] eqn:En;
    [| by apply sum_fields_raise in En].
  simpl.
  destruct (0 <? n); [simpl; tauto |].
  destruct (is_true_value (get carrier "PRIVATE_PASSENGER_BUSINESS" _));
    [simpl; tauto |].
  destruct (is_true_value (get carrier "PRIVATE_PASSENGER_NONBUSINESS" _));
    [simpl; tauto |].
  destruct (sum_fields carrier truck_power_fields) as [t|e] eqn:Et;
    [| by apply sum_fields_raise in Et].
  simpl.
  destruct (t <=? 0); [simpl; tauto |].
  pose proof (authority_outcome_range carrier) as H.
  destruct (authority_outcome carrier) as [[] reason]; simpl in *.
  - destruct H as [[=]|[[= <-]|[[= <-]|[]]]]; tauto.
  - destruct H as [[= <-]|[[=]|[[=]|[]]]]; reflexivity.
Qed.

End ClassifierOutcomes.

(** ** The component scores in closed form *)

Section ExperienceTiers.
Import Py Fred.
Implicit Types (P : process) (carrier : dict).

(** the date of registration as an ordinal, when [ADD_DATE] holds one *)
Definition add_date carrier : option Z :=
  let add_date_str := safe_str (get carrier "ADD_DATE" (PStr "")) "" in
  if negb (String.eqb add_date_str "") && (8 <=? len add_date_str) then
    match
      add_year ← py_int (slice 0 4 add_date_str);
      add_month ← py_int (slice 4 6 add_date_str);
      add_day ← py_int (slice 6 8 add_date_str);
      date_ordinal add_year add_month add_day
    with
    | Ok o => Some o
    | Raise _ => None
    end
  else None.

Lemma years_operating_lt (days k : Z) :
  Qltb (inject_Z days / 365.25) (inject_Z k) = (4 * days <? 1461 * k).
Proof.
  destruct (Qltb _ _) eqn:E.
  - apply Qltb_lt in E. symmetry. apply Z.ltb_lt.
    unfold Qlt, Qdiv, Qmult, Qinv, inject_Z in E. simpl in E. lia.
  - apply Qltb_ge in E. symmetry. apply Z.ltb_ge.
    unfold Qle, Qdiv, Qmult, Qinv, inject_Z in E. simpl in E. lia.
Qed.

(** X10: the experience score in whole days.  Without a date of
    registration that can be read the score is 100; otherwise, with [days]
    the number of days from the registration to the day of the run, it is
    70 up to 365 days (a date in the future included), 80 up to 730, 90 up
    to 1095, 95 up to 1826 and 100 beyond. *)
Theorem calculate_experience_score_tiers P carrier :
  calculate_experience_score P carrier =
  Ok (match add_date carrier with
      | None => 100%Q
      | Some o =>
          let days := today P - o in
          if days <=? 365 then 70%Q
          else if days <=? 730 then 80%Q
          else if days <=? 1095 then 90%Q
          else if days <=? 1826 then 95%Q
          else 100%Q
      end).
Proof.
  unfold calculate_experience_score, add_date.
  destruct (negb _ && _); [| reflexivity].
  unfold py_int, date_ordinal.
  destruct (int_of_str (slice 0 4 _)) as [y|]; [| reflexivity].
  destruct (int_of_str (slice 4 6 _)) as [m|]; [| reflexivity].
  destruct (int_of_str (slice 6 8 _)) as [d|]; [| reflexivity].
  cbn [mbind result_bind bind].
  destruct (_ && _); [| reflexivity].
  cbn [mbind result_bind bind try_except].
  set (o := days_before_year y + days_before_month y m + d).
  change 1%Q with (inject_Z 1). change 2%Q with (inject_Z 2).
  change 3%Q with (inject_Z 3). change 5%Q with (inject_Z 5).
  rewrite !years_operating_lt.
  cbv zeta.
  destruct (Z.ltb_spec (4 * (today P - o)) (1461 * 1)),
    (Z.leb_spec (today P - o) 365); try lia; [reflexivity |].
  destruct (Z.ltb_spec (4 * (today P - o)) (1461 * 2)),
    (Z.leb_spec (today P - o) 730); try lia; [reflexivity |].
  destruct (Z.ltb_spec (4 * (today P - o)) (1461 * 3)),
    (Z.leb_spec (today P - o) 1095); try lia; [reflexivity |].
  destruct (Z.ltb_spec (4 * (today P - o)) (1461 * 5)),
    (Z.leb_spec (today P - o) 1826); try lia; reflexivity.
Qed.

End ExperienceTiers.

Section SafetyClosedForm.
Import Py Fred.
Implicit Types (carrier basic : dict) (cat : string * string * string).

(** the alert cell and the measure of a category, as [safety_step] reads
    them *)
Definition has_alert basic cat : bool :=
  is_true_value (get basic cat.1.2 (PStr "")).

Definition measure_of basic cat : pyfloat :=
  match safe_float (get basic cat.1.1 PNone) (FFinite 0) with
  | Ok f => f
  | Raise _ => FFinite 0
  end.

(** the points a category takes from the safety score *)
Definition deduction basic cat : Z :=
  if has_alert basic cat then 15
  else if float_ge (measure_of basic cat) 75 then 10
  else if float_ge (measure_of basic cat) 65 then 5
  else 0.

Definition alert_flags basic (cats : list (string * string * string))
  : list flag :=
  map (fun cat => BasicAlert cat.2) (List.filter (has_alert basic) cats).

Definition deductions basic (cats : list (string * string * string)) : Z :=
  fold_right Z.add 0 (map (deduction basic) cats).

Lemma safety_step_deduction basic cat (score : Q) (flags : list flag) :
  exists score',
    safety_step basic (score, flags) cat
    = Ok (score', flags ++ alert_flags basic [cat])
    /\ (score' == score - inject_Z (deduction basic cat))%Q.
Proof.
  destruct cat as [[measure_col alert_col] name].
  unfold safety_step, alert_flags, deduction, has_alert, measure_of. simpl.
  destruct (safe_float_returns (get basic measure_col PNone) (FFinite 0))
    as [measure ->].
  cbn [mbind result_bind bind].
  destruct (is_true_value (get basic alert_col (PStr ""))); simpl.
  { eexists. split; [reflexivity | reflexivity]. }
  rewrite app_nil_r.
  destruct (float_ge measure 75).
  { eexists. split; [reflexivity | reflexivity]. }
  destruct (float_ge measure 65).
  { eexists. split; [reflexivity | reflexivity]. }
  eexists. split; [reflexivity |]. unfold inject_Z. ring.
Qed.

Lemma safety_loop basic (cats : list (string * string * string))
    (score : Q) (flags : list flag) :
  exists score',
    for_each (safety_step basic) (score, flags) cats
    = Ok (score', flags ++ alert_flags basic cats)
    /\ (score' == score - inject_Z (deductions basic cats))%Q.
Proof.
  revert score flags. induction cats as [|cat cats IH]; intros score flags.
  - exists score. split.
    + simpl. unfold alert_flags. simpl. by rewrite app_nil_r.
    + unfold deductions. simpl. unfold inject_Z. ring.
  - cbn [for_each].
    destruct (safety_step_deduction basic cat score flags)
      as (s1 & -> & Hs1).
    cbn [mbind result_bind bind].
    destruct (IH s1 (flags ++ alert_flags basic [cat])) as (s2 & -> & Hs2).
    exists s2. split.
    + f_equal. f_equal. rewrite <- app_assoc. f_equal.
      unfold alert_flags. simpl. by destruct (has_alert basic cat).
    + rewrite Hs2, Hs1. unfold deductions. simpl.
      rewrite inject_Z_plus. ring.
Qed.

Lemma py_max_0_inject_Z (q : Q) (z : Z) :
  (q == inject_Z z)%Q -> (py_max 0 q == inject_Z (Z.max 0 z))%Q.
Proof.
  intros Hq. unfold py_max. destruct (Qltb 0 q) eqn:E.
  - apply Qltb_lt in E. rewrite Hq in E |- *.
    change 0%Q with (inject_Z 0) in E. rewrite <- Zlt_Qlt in E.
    by rewrite Z.max_r by lia.
  - apply Qltb_ge in E. rewrite Hq in E.
    change 0%Q with (inject_Z 0) in E. rewrite <- Zle_Qle in E.
    by rewrite Z.max_l by lia.
Qed.

Lemma deductions_range basic (cats : list (string * string * string)) :
  0 <= deductions basic cats <= 15 * Z.of_nat (length cats).
Proof.
  unfold deductions. induction cats as [|cat cats IH]; simpl; [lia |].
  assert (0 <= deduction basic cat <= 15).
  { unfold deduction.
    repeat match goal with
           | |- context [if ?b then _ else _] => destruct b
           end; lia. }
  lia.
Qed.

(** X11: the safety score reads the first BASIC record only and nothing of
    the carrier.  Each of the seven categories takes 15 points when its
    alert is set, else 10 when its measure is at least 75, else 5 when it
    is at least 65; the score is 100 less these points, and 0 when they
    exceed 100.  The flags name the categories with an alert, in the order
    of the table. *)
Theorem calculate_safety_score_closed_form carrier basic
    (rest : list dict) :
  exists s,
    calculate_safety_score carrier (basic :: rest)
    = Ok (s, alert_flags basic basic_categories)
    /\ (s == inject_Z (Z.max 0 (100 - deductions basic basic_categories)))%Q
    /\ 0 <= deductions basic basic_categories <= 105.
Proof.
  unfold calculate_safety_score.
  destruct (safety_loop basic basic_categories 100%Q []) as (s' & -> & Hs').
  cbn [mbind result_bind bind].
  exists (py_max 0 s'). split; [reflexivity |]. split.
  - apply py_max_0_inject_Z. rewrite Hs'.
    unfold Z.sub. rewrite inject_Z_plus, inject_Z_opp. reflexivity.
  - apply (deductions_range basic basic_categories).
Qed.

End SafetyClosedForm.

Section CrashFlags.
Import Py Fred.
Implicit Types (carrier : dict).

(** X12: every carrier with a crash record is flagged for crash frequency,
    even with a single crash that costs no point: the flags end with
    [HighCrashFrequency] of the number of records, preceded by at most one
    flag each for fatalities, injuries and hazmat releases.  Five records
    or more cap the score at 85, three or more at 90. *)
Theorem calculate_crash_score_frequency_flag carrier (crashes : list dict)
    (c : Q) (flags : list flag) :
  crashes <> [] ->
  calculate_crash_score carrier crashes = Ok (c, flags) ->
  let n := Z.of_nat (length crashes) in
  (exists earlier,
     flags = earlier ++ [HighCrashFrequency n]
     /\ (length earlier <= 3)%nat
     /\ Forall (fun f => match f with
                         | FatalCrashes k | InjuryCrashes k
                         | HazmatReleases k => 0 < k
                         | _ => False
                         end) earlier)
  /\ (0 <= c)%Q
  /\ (c <= if 5 <=? n then 85 else if 3 <=? n then 90 else 100)%Q.
Proof.
  intros Hne H n.
  assert (Hv : score_value c) by exact (calculate_crash_score_value _ _ _ _ H).
  apply score_value_range in Hv as [Hv0 _].
  unfold calculate_crash_score in H.
  destruct crashes as [|crash crashes]; [done |].
  bind_inv H. destruct a as [[fatalities injuries] hazmat].
  fold n in H.
  assert (Hn : 1 <= n) by (unfold n; simpl length; lia).
  revert H.
  destruct (Z.ltb_spec 0 fatalities), (Z.ltb_spec 0 injuries),
    (Z.ltb_spec 0 hazmat);
    destruct (Z.leb_spec 5 n); try destruct (Z.leb_spec 3 n);
    try destruct (Z.leb_spec 1 n); try lia;
    intros [= <- <-];
    (split; [match goal with
             | |- exists earlier, ?fl = _ /\ _ =>
                 exists (removelast fl); simpl
             end;
             split; [reflexivity |];
             split; [lia | repeat constructor; assumption] |]);
    (split; [exact Hv0 |]);
    unfold py_max;
    repeat match goal with
           | |- context [if ?b then _ else _] => destruct b eqn:?
           end;
    try (unfold Qle; simpl; lia);
    repeat match goal with
           | |- context [Z.min ?a ?b] =>
               pose proof (Z.le_min_l a b); pose proof (Z.le_min_r a b);
               generalize dependent (Z.min a b); intros
           end;
    unfold Qle, Qminus, Qplus, Qopp, inject_Z; simpl; lia.
Qed.

(** one crash without a fatality, an injury or a release costs no point
    and is flagged all the same *)
Lemma calculate_crash_score_frequency_flag_witness :
  calculate_crash_score ∅ [∅] = Ok (100%Q, [HighCrashFrequency 1])
  /\ (0 <= 100)%Q /\ (100 <= 100)%Q.
Proof.
  split; [vm_compute; reflexivity |].
  destruct (calculate_crash_score_frequency_flag ∅ [∅] 100%Q
              [HighCrashFrequency 1] ltac:(done)
              ltac:(vm_compute; reflexivity))
    as (_ & H0 & H100).
  split; [exact H0 | exact H100].
Defined.

End CrashFlags.

Section InspectionScore.
Import Py Fred.
Implicit Types (carrier : dict) (violations : list dict).

(** the flags of the violation patterns: one for each BASIC with at least
    ten violations, in the order the BASICs first occur *)
Definition pattern_flags violations : list flag :=
  map (fun kc : value * Z => ViolationPattern kc.1 kc.2)
    (List.filter (fun kc : value * Z => 10 <=? kc.2)
       (violation_by_basic violations)).

(** the number of inspections with an out-of-service mark *)
Definition oos_count (inspections : list dict) : Z :=
  Z.of_nat (length (List.filter
     (fun i => is_true_value (get i "OOS_TOTAL" (PStr ""))) inspections)).

Lemma oos_rate_ge (o n k : Z) :
  0 < n ->
  Qle_bool (inject_Z k) (Qred (inject_Z o / inject_Z n) * 100)
  = (k * n <=? 100 * o).
Proof.
  intros Hn. destruct n as [|p|p]; try lia.
  assert (Qred (inject_Z o / inject_Z (Z.pos p)) * 100 == (100 * o) # p)%Q
    as E.
  { rewrite Qred_correct. unfold Qeq, Qdiv, Qmult, Qinv, inject_Z. simpl.
    lia. }
  destruct (Qle_bool _ _) eqn:Q.
  - apply Qle_bool_iff in Q. rewrite E in Q.
    unfold Qle, inject_Z in Q. simpl in Q.
    symmetry. apply Z.leb_le. lia.
  - symmetry. apply Z.leb_gt. apply Z.nle_gt. intros Hle.
    apply not_true_iff_false in Q. apply Q. apply Qle_bool_iff.
    rewrite E. unfold Qle, inject_Z. simpl. lia.
Qed.

(** With at least one inspection the function is a comparison of the two
    counts: the rate is never computed on an empty list, and the floor at
    0 changes nothing. *)
Lemma calculate_inspection_score_cases carrier (inspection : dict)
    (inspections : list dict) violations :
  let n := Z.of_nat (length (inspection :: inspections)) in
  let o := oos_count (inspection :: inspections) in
  calculate_inspection_score carrier (inspection :: inspections) violations
  = Ok (if n <=? 2 * o then 70%Q
        else if 3 * n <=? 10 * o then 80%Q
        else if n <=? 5 * o then 90%Q else 100%Q,
        (if n <=? 2 * o
         then [HighOOSRate (Qred (inject_Z o / inject_Z n) * 100)]
         else if 3 * n <=? 10 * o
         then [ElevatedOOSRate (Qred (inject_Z o / inject_Z n) * 100)]
         else [])
        ++ pattern_flags violations).
Proof.
  intros n o.
  assert (Hn : 0 < n) by (unfold n; simpl length; lia).
  assert (Heq :
    calculate_inspection_score carrier (inspection :: inspections) violations
    = '(score, flags) ←
        (if Qle_bool (inject_Z 50) (Qred (inject_Z o / inject_Z n) * 100)
         then Ok ((100 - 30)%Q,
                  [] ++ [HighOOSRate (Qred (inject_Z o / inject_Z n) * 100)])
         else if Qle_bool (inject_Z 30) (Qred (inject_Z o / inject_Z n) * 100)
         then Ok ((100 - 20)%Q,
                  [] ++ [ElevatedOOSRate
                           (Qred (inject_Z o / inject_Z n) * 100)])
         else if Qle_bool (inject_Z 20) (Qred (inject_Z o / inject_Z n) * 100)
         then Ok ((100 - 10)%Q, [])
         else Ok (100%Q, []));
      Ok (py_max 0 score, flags ++ pattern_flags violations)).
  { unfold calculate_inspection_score.
    fold n. fold (oos_count (inspection :: inspections)). fold o.
    destruct (Z.ltb_spec 0 n); [| lia].
    unfold truediv.
    assert (Qeq_bool (inject_Z n) 0 = false) as ->.
    { apply not_true_iff_false. rewrite Qeq_bool_iff.
      unfold Qeq; simpl. lia. }
    cbn [mbind result_bind bind]. reflexivity. }
  rewrite Heq, !(oos_rate_ge _ _ _ Hn). clear Heq.
  destruct (Z.leb_spec (50 * n) (100 * o)), (Z.leb_spec n (2 * o)); try lia;
    [reflexivity |].
  destruct (Z.leb_spec (30 * n) (100 * o)), (Z.leb_spec (3 * n) (10 * o));
    try lia; [reflexivity |].
  destruct (Z.leb_spec (20 * n) (100 * o)), (Z.leb_spec n (5 * o)); try lia;
    reflexivity.
Qed.

(** X13: the inspection score depends on the share of inspections marked
    out of service and on nothing else: with [o] marked among [n], it is
    70 when [2 o >= n], else 80 when [10 o >= 3 n], else 90 when
    [5 o >= n], else 100.  The tier at 20 percent takes 10 points without
    a flag, the violations never change the score, and neither the score
    nor the flags depend on the carrier row. *)
Theorem calculate_inspection_score_tiers carrier (inspection : dict)
    (inspections : list dict) :
  let n := Z.of_nat (length (inspection :: inspections)) in
  let o := oos_count (inspection :: inspections) in
  exists s oos_flags,
    calculate_inspection_score carrier (inspection :: inspections) []
    = Ok (s, oos_flags)
    /\ (forall carrier' violations,
          calculate_inspection_score carrier' (inspection :: inspections)
            violations
          = Ok (s, oos_flags ++ pattern_flags violations))
    /\ ((n <= 2 * o /\ s = 70%Q
         /\ oos_flags = [HighOOSRate (Qred (inject_Z o / inject_Z n) * 100)])
        \/ (2 * o < n /\ 3 * n <= 10 * o /\ s = 80%Q
            /\ oos_flags
               = [ElevatedOOSRate (Qred (inject_Z o / inject_Z n) * 100)])
        \/ (10 * o < 3 * n /\ n <= 5 * o /\ s = 90%Q /\ oos_flags = [])
        \/ (5 * o < n /\ s = 100%Q /\ oos_flags = [])).
Proof.
  intros n o. do 2 eexists. split; [| split].
  - rewrite calculate_inspection_score_cases. fold n o.
    unfold pattern_flags, violation_by_basic. simpl.
    by rewrite app_nil_r.
  - intros carrier' violations. apply calculate_inspection_score_cases.
  - destruct (Z.leb_spec n (2 * o)); [by left |].
    destruct (Z.leb_spec (3 * n) (10 * o)); [by right; left |].
    destruct (Z.leb_spec n (5 * o)); [right; right; left | right; right; right];
      done.
Qed.

End InspectionScore.

Section ViolationPatterns.
Import Py Fred.
Implicit Types (violations : list dict) (m : list (value * Z)) (k : value).

(** The out-of-service rate with the binary64 arithmetic of the
    interpreter, [oos_count / total_inspections * 100], compared with the
    three thresholds. *)
Definition oos_tier_b64 (o n : nat) : Z :=
  let oos_rate := (b64_of_nat o / b64_of_nat n * 100)%float in
  if PrimFloat.leb 50 oos_rate then 70
  else if PrimFloat.leb 30 oos_rate then 80
  else if PrimFloat.leb 20 oos_rate then 90
  else 100.

Definition oos_tier (o n : Z) : Z :=
  if n <=? 2 * o then 70
  else if 3 * n <=? 10 * o then 80
  else if n <=? 5 * o then 90 else 100.

(** For up to 200 inspections the binary64 comparisons agree with the
    exact ones, the rates that sit on a threshold included. *)
Lemma oos_tier_b64_200 :
  forallb (fun n =>
    forallb (fun o => oos_tier_b64 o n =? oos_tier (Z.of_nat o) (Z.of_nat n))
      (seq 0 (S n)))
    (seq 1 200) = true.
Proof. vm_compute. reflexivity. Qed.













End ViolationPatterns.

(** ** The estimator inside the per-carrier pass *)

Section EstimatorInCarrier.
Import Py Fred.
Implicit Types (P : process) (carrier : dict) (data : dataset).

(** the estimate as [process_carrier] takes it: the estimator is called on
    the first BASIC record, and any exception it raises is dropped *)
Definition iss_data P carrier data : option Iss.display :=
  match default [] (basic_by_dot data !! dot_of carrier) with
  | basic :: _ =>
      match Iss.get_iss_display_data P carrier (Some basic) None with
      | Ok d => Some d
      | Raise _ => None
      end
  | [] => None
  end.




End EstimatorInCarrier.

(** ** The population passes as a whole *)

Section RelatedStores.
Context {T : Type}.
Implicit Types (ws : list (nat * (T -> T))) (store : list T).

(** Writes that keep a relation to the record they change keep it for the
    whole store. *)
Lemma run_related (R : T -> T -> Prop) ws store :
  (forall t, R t t) ->
  (forall a b c, R a b -> R b c -> R a c) ->
  (forall w t, w ∈ ws -> R t (w.2 t)) ->
  Forall2 R store (run ws store).
Proof.
  intros Hrefl Htrans. revert store.
  induction ws as [|[i g] ws IH]; intros store Hws.
  - apply Forall2_same_length_lookup. split; [done |].
    intros j x y Hx Hy. simpl in Hy. rewrite Hx in Hy.
    injection Hy as <-. apply Hrefl.
  - change (run ((i, g) :: ws) store) with (run ws (alter g i store)).
    assert (Forall2 R store (alter g i store)) as H1.
    { apply Forall2_same_length_lookup. split; [by rewrite length_alter |].
      intros j x y Hx Hy. destruct (decide (i = j)) as [->|Hne].
      - rewrite list_lookup_alter_eq, Hx in Hy. injection Hy as <-.
        apply (Hws (j, g)). left.
      - rewrite list_lookup_alter_ne, Hx in Hy by done.
        injection Hy as <-. apply Hrefl. }
    assert (Forall2 R (alter g i store) (run ws (alter g i store))) as H2.
    { apply IH. intros w t Hw. apply Hws. by right. }
    apply Forall2_same_length_lookup.
    split; [by rewrite length_run, length_alter |].
    intros j x z Hx Hz.
    destruct (alter g i store !! j) as [y|] eqn:Hy.
    + eapply Htrans.
      * eapply Forall2_lookup_lr; [exact H1 | exact Hx | exact Hy].
      * eapply Forall2_lookup_lr; [exact H2 | exact Hy | exact Hz].
    + apply lookup_ge_None in Hy. rewrite length_alter in Hy.
      apply lookup_lt_Some in Hx. lia.
Qed.

End RelatedStores.

Section InsuranceFrame.
Import Py Fred.
Implicit Types (results store : list score_result) (r : score_result).

Lemma set_insurance_rating_same r :
  set_insurance_rating (insurance_rating r) r = r.
Proof. by destruct r. Qed.

Lemma calculate_insurance_ratings_related results :
  exists out,
    calculate_insurance_ratings results = Ok out
    /\ Forall2 (fun r o => exists x, o = set_insurance_rating x r)
         results out.
Proof.
  destruct (calculate_insurance_ratings_run results) as (gv & gc & ->).
  eexists. split; [reflexivity |].
  apply run_related.
  - intros t. exists (insurance_rating t).
    by rewrite set_insurance_rating_same.
  - intros a b c [x ->] [y ->]. by exists y.
  - intros w t Hw. apply list_elem_of_In, in_map_iff in Hw
      as ([i r] & <- & _). simpl. unfold insurance_write.
    destruct (0 <? annual_mileage r);
      [destruct (rating_of gv gc r) |];
      first [ by eexists
            | exists (insurance_rating t);
              by rewrite set_insurance_rating_same ].
Qed.

Lemma calculate_insurance_ratings_lookup results (i : nat) r :
  results !! i = Some r ->
  exists out gv gc,
    calculate_insurance_ratings results = Ok out
    /\ (has_sufficient_mileage r = false -> out !! i = Some r)
    /\ (has_sufficient_mileage r = true ->
        out !! i = Some (insurance_write gv gc r r)).
Proof.
  intros Hi.
  destruct (calculate_insurance_ratings_run results) as (gv & gc & ->).
  eexists _, gv, gc. split; [reflexivity |].
  assert (Hfst : (map (fun ir : nat * score_result =>
                         (ir.1, insurance_write gv gc ir.2))
                    (eligible_refs results)).*1 = (eligible_refs results).*1).
  { rewrite <- list_fmap_compose. apply list_fmap_ext. by intros ? []. }
  split.
  - intros He. rewrite run_lookup_notin; [exact Hi |].
    rewrite Hfst.
    intros Hin. apply list_elem_of_fmap in Hin as ([j r'] & -> & Hin).
    apply elem_of_eligible_refs in Hin as [Hj He']. simpl in *.
    congruence.
  - intros He.
    rewrite (run_lookup_in _ _ i (insurance_write gv gc r)).
    + by rewrite Hi.
    + rewrite Hfst. apply NoDup_eligible_refs.
    + apply list_elem_of_fmap. exists (i, r). split; [reflexivity |].
      by apply elem_of_eligible_refs.
Qed.

(** X16: the insurance normalizer returns for every list of results, never
    dividing by zero, and changes no entry of a result but
    [insurance_rating].  A carrier without sufficient mileage is left as
    it is; a carrier with sufficient mileage and a positive annual
    mileage gets a rating from 1 to 500. *)
Theorem calculate_insurance_ratings_frame results :
  exists out,
    calculate_insurance_ratings results = Ok out
    /\ Forall2 (fun r o => exists x, o = set_insurance_rating x r)
         results out
    /\ (forall (i : nat) r,
          results !! i = Some r -> has_sufficient_mileage r = false ->
          out !! i = Some r)
    /\ (forall (i : nat) r,
          results !! i = Some r -> has_sufficient_mileage r = true ->
          0 < annual_mileage r ->
          exists x,
            out !! i = Some (set_insurance_rating (Some x) r)
            /\ (1 <= x <= 500)%Q).
Proof.
  destruct (calculate_insurance_ratings_related results)
    as (out & Hout & Hrel).
  exists out. split; [exact Hout |]. split; [exact Hrel |]. split.
  - intros i r Hi He.
    destruct (calculate_insurance_ratings_lookup results i r Hi)
      as (out' & gv & gc & Hout' & Hne & _).
    rewrite Hout in Hout'. injection Hout' as <-. by apply Hne.
  - intros i r Hi He Hm.
    destruct (calculate_insurance_ratings_lookup results i r Hi)
      as (out' & gv & gc & Hout' & _ & Hel).
    rewrite Hout in Hout'. injection Hout' as <-.
    destruct (rating_of_returns gv gc r Hm) as (x & Hx & Hrange).
    exists x. split; [| exact Hrange].
    rewrite (Hel He). unfold insurance_write.
    destruct (Z.ltb_spec 0 (annual_mileage r)); [| lia].
    by rewrite Hx.
Qed.

Lemma calculate_insurance_ratings_with results (gv gc : Q) :
  global_rates (eligible_refs results) = Ok (gv, gc) ->
  calculate_insurance_ratings results =
  Ok (run (map (fun ir : nat * score_result =>
                  (ir.1, insurance_write gv gc ir.2))
             (eligible_refs results)) results).
Proof.
  intros Hg. unfold calculate_insurance_ratings.
  destruct (eligible_refs results) as [|ir refs] eqn:E; [reflexivity |].
  rewrite Hg. cbn [mbind result_bind bind]. apply insurance_loop.
Qed.

Lemma sum_Z_zero (l : list Z) : Forall (fun z => z = 0) l -> sum_Z l = 0.
Proof.
  induction 1 as [|x l -> _ IH]; [reflexivity |].
  unfold sum_Z in *. simpl. exact IH.
Qed.

Lemma truediv_zero (b : Q) : ~ (b == 0)%Q -> truediv 0 b = Ok 0%Q.
Proof.
  intros Hb. rewrite truediv_returns by exact Hb. reflexivity.
Qed.

(** X17: a population without incidents is rated 100 throughout.  When no
    eligible carrier has a violation or a crash, both global rates are 0,
    both multipliers are 1 and every eligible carrier gets the rating
    100. *)
Theorem insurance_ratings_without_incidents results :
  forallb fresh results = true ->
  Forall (fun r => has_sufficient_mileage r = true ->
                   violation_count r = 0 /\ crash_count r = 0) results ->
  exists out,
    calculate_insurance_ratings results = Ok out
    /\ forall (i : nat) r o,
         results !! i = Some r -> out !! i = Some o ->
         has_sufficient_mileage r = true ->
         insurance_rating o = Some 100%Q.
Proof.
  intros Hfresh Hzero.
  assert (Hcounts : forall ir, ir ∈ eligible_refs results ->
            violation_count ir.2 = 0 /\ crash_count ir.2 = 0
            /\ 100000 <= annual_mileage ir.2).
  { intros [i r] Hir. apply elem_of_eligible_refs in Hir as [Hi He].
    simpl. rewrite Forall_forall in Hzero.
    destruct (Hzero r) as [Hv Hc]; [by eapply list_elem_of_lookup_2 | done |].
    split; [done |]. split; [done |].
    rewrite forallb_forall in Hfresh.
    pose proof (Hfresh r) as Hf.
    rewrite fresh_spec in Hf. destruct Hf as (Hs & _).
    { apply list_elem_of_In. by eapply list_elem_of_lookup_2. }
    rewrite He in Hs. symmetry in Hs. by apply Z.leb_le in Hs. }
  assert (Hrates : exists gv gc,
            global_rates (eligible_refs results) = Ok (gv, gc)
            /\ Qltb 0 gv = false /\ Qltb 0 gc = false).
  { unfold global_rates.
    rewrite (sum_Z_zero (map (fun ir : nat * score_result =>
                                violation_count ir.2) _)),
      (sum_Z_zero (map (fun ir : nat * score_result =>
                          crash_count ir.2) _)).
    2:{ apply Forall_forall. intros z Hz.
        apply list_elem_of_In, in_map_iff in Hz as (ir & <- & Hir).
        apply list_elem_of_In, Hcounts in Hir. tauto. }
    2:{ apply Forall_forall. intros z Hz.
        apply list_elem_of_In, in_map_iff in Hz as (ir & <- & Hir).
        apply list_elem_of_In, Hcounts in Hir. tauto. }
    destruct (Z.ltb_spec 0 (sum_Z (map (fun ir : nat * score_result =>
                                          annual_mileage ir.2)
                                     (eligible_refs results)))).
    - rewrite !truediv_zero by (apply inject_Z_nonzero; lia).
      do 2 eexists. split; [reflexivity |]. split; reflexivity.
    - do 2 eexists. split; [reflexivity |]. split; reflexivity. }
  destruct Hrates as (gv & gc & Hg & Hgv & Hgc).
  rewrite (calculate_insurance_ratings_with _ _ _ Hg).
  eexists. split; [reflexivity |].
  intros i r o Hi Ho He.
  assert (Hin : (i, r) ∈ eligible_refs results)
    by (by apply elem_of_eligible_refs).
  rewrite (run_lookup_in _ _ i (insurance_write gv gc r)) in Ho.
  2:{ rewrite <- list_fmap_compose.
      erewrite list_fmap_ext; [apply NoDup_eligible_refs |].
      by intros ? []. }
  2:{ apply list_elem_of_fmap. exists (i, r). split; [reflexivity | done]. }
  rewrite Hi in Ho. injection Ho as <-.
  destruct (Hcounts _ Hin) as (Hv & Hc & Hm). simpl in Hv, Hc, Hm.
  unfold insurance_write.
  destruct (Z.ltb_spec 0 (annual_mileage r)); [| lia].
  unfold rating_of. rewrite Hv, Hc, Hgv, Hgc.
  rewrite (truediv_returns (inject_Z (annual_mileage r)) 100000)
    by (intros H'; discriminate H').
  cbn [mbind result_bind bind].
  rewrite !truediv_zero.
  2:{ rewrite Qred_correct. unfold Qeq, Qdiv, Qmult, Qinv; simpl. lia. }
  cbn [mbind result_bind bind]. reflexivity.
Qed.

(** two eligible carriers without incidents and one carrier below the
    mileage threshold *)
Lemma insurance_ratings_without_incidents_witness :
  exists out,
    calculate_insurance_ratings
      [ Sample.result_with "1" 200000 0 0 90;
        Sample.result_with "2" 5000 3 4 80;
        Sample.result_with "3" 150000 0 0 70 ] = Ok out
    /\ map insurance_rating out = [Some 100%Q; None; Some 100%Q].
Proof.
  destruct (insurance_ratings_without_incidents
              [ Sample.result_with "1" 200000 0 0 90;
                Sample.result_with "2" 5000 3 4 80;
                Sample.result_with "3" 150000 0 0 70 ])
    as (out & Hout & _).
  - reflexivity.
  - repeat constructor; simpl; discriminate.
  - exists out. split; [exact Hout |].
    assert (Ok out = Ok (match calculate_insurance_ratings
                             [ Sample.result_with "1" 200000 0 0 90;
                               Sample.result_with "2" 5000 3 4 80;
                               Sample.result_with "3" 150000 0 0 70 ]
                         with Ok o => o | Raise _ => [] end)) as E
      by (by rewrite Hout).
    injection E as ->. vm_compute. reflexivity.
Defined.

End InsuranceFrame.

Section Ordered.
Context {A : Type}.
Implicit Types (R : A -> A -> Prop) (l : list A).

(** [R] holds from every element of the list to every later one *)
Definition ordered R l : Prop :=
  forall (a b : nat) x y,
    (a < b)%nat -> l !! a = Some x -> l !! b = Some y -> R x y.

Lemma ordered_nil R : ordered R [].
Proof. intros a b x y _ Ha. done. Qed.

Lemma ordered_cons R x l :
  ordered R (x :: l) <-> Forall (R x) l /\ ordered R l.
Proof.
  split.
  - intros H. split.
    + apply Forall_lookup. intros i y Hy. apply (H 0%nat (S i)); [lia | done..].
    + intros a b u v Hab Ha Hb. apply (H (S a) (S b)); [lia | done..].
  - intros [HF Ho] a b u v Hab Ha Hb.
    destruct b as [|b]; [lia |]. destruct a as [|a]; simpl in *.
    + injection Ha as <-. rewrite Forall_lookup in HF. by eapply HF.
    + eapply (Ho a b); [lia | done..].
Qed.

Lemma Forall_filter_list (P : A -> Prop) (f : A -> bool) l :
  Forall P l -> Forall P (List.filter f l).
Proof.
  induction 1 as [|x l Hx _ IH]; simpl; [constructor |].
  destruct (f x); [by constructor | done].
Qed.

Lemma ordered_filter R (f : A -> bool) l :
  ordered R l -> ordered R (List.filter f l).
Proof.
  induction l as [|x l IH]; simpl; [done |].
  intros [HF Ho]%ordered_cons. destruct (f x); [| by apply IH].
  apply ordered_cons. split; [by apply Forall_filter_list | by apply IH].
Qed.

End Ordered.

Section Ranking.
Import Py Fred.
Context {T : Type} (key : nat * T -> Q).
Implicit Types (x y z : nat * T) (l : list (nat * T)).

(** [x] is ranked before [y]: its key is greater, or the keys are equal
    and [x] comes first in the input *)
Definition ahead x y : Prop :=
  (key y < key x)%Q \/ ((key x == key y)%Q /\ (x.1 < y.1)%nat).

Lemma ahead_trans x y z : ahead x y -> ahead y z -> ahead x z.
Proof.
  unfold ahead. intros [H1|[H1 H1']] [H2|[H2 H2']].
  - left. lra.
  - left. lra.
  - left. lra.
  - right. split; [lra | lia].
Qed.

Lemma ahead_irrefl x : ~ ahead x x.
Proof. unfold ahead. intros [H|[_ H]]; [lra | lia]. Qed.

Definition by_index x y : Prop := (x.1 < y.1)%nat.

Lemma insert_desc_ordered x l :
  ordered ahead l -> Forall (by_index x) l ->
  ordered ahead (insert_desc key x l).
Proof.
  induction l as [|y l IH]; simpl.
  - intros _ _. apply ordered_cons. split; [constructor | apply ordered_nil].
  - intros [HFy Ho]%ordered_cons [Hxy HF]%Forall_cons.
    destruct (Qltb (key x) (key y)) eqn:E.
    + apply ordered_cons. split; [| by apply IH].
      rewrite insert_desc_perm. constructor; [| exact HFy].
      left. by apply Qltb_lt.
    + apply Qltb_ge in E.
      assert (ahead x y) as Hxy'.
      { destruct (Qlt_le_dec (key y) (key x)) as [Hlt|Hle]; [by left |].
        right. split; [lra | exact Hxy]. }
      apply ordered_cons. split.
      * constructor; [exact Hxy' |].
        eapply Forall_impl; [exact HFy |].
        intros z Hz. by eapply ahead_trans.
      * apply ordered_cons. by split.
Qed.

Lemma sort_desc_ordered l :
  ordered by_index l -> ordered ahead (sort_desc key l).
Proof.
  induction l as [|x l IH]; simpl; [intros _; apply ordered_nil |].
  intros [HF Ho]%ordered_cons.
  apply insert_desc_ordered; [by apply IH |].
  by rewrite sort_desc_perm.
Qed.

End Ranking.

Section Grades.
Import Py Fred.
Implicit Types (results store : list score_result) (r : score_result).

Lemma ordered_enumerate {A} (l : list A) :
  ordered (by_index (T := A)) (enumerate l).
Proof.
  intros a b x y Hab Ha Hb. unfold enumerate in *.
  apply list_lookup_imap_Some in Ha as (u & _ & ->).
  apply list_lookup_imap_Some in Hb as (v & _ & ->).
  exact Hab.
Qed.

Definition by_score (ir : nat * score_result) : Q := combined_score ir.2.

Lemma ranking_ordered results : ordered (ahead by_score) (ranking results).
Proof.
  unfold ranking. apply (sort_desc_ordered by_score).
  unfold eligible_refs. apply ordered_filter, ordered_enumerate.
Qed.

Lemma ranking_perm results : ranking results ≡ₚ eligible_refs results.
Proof. apply sort_desc_perm. Qed.

Lemma NoDup_ranking results : NoDup (ranking results).*1.
Proof. rewrite ranking_perm. apply NoDup_eligible_refs. Qed.

Lemma length_ranking results :
  length (ranking results) = length (eligible_refs results).
Proof. by rewrite ranking_perm. Qed.

(** what the grade assigner leaves at position [i] of the store *)
Lemma assign_fred_grades_lookup results (i : nat) r :
  results !! i = Some r ->
  exists out,
    assign_fred_grades results = Ok out
    /\ (has_sufficient_mileage r = false -> out !! i = Some r)
    /\ (has_sufficient_mileage r = true ->
        exists k : nat,
          ranking results !! k = Some (i, r)
          /\ out !! i =
             Some (grade_write (Z.of_nat (length (eligible_refs results)))
                     k r)).
Proof.
  intros Hi. rewrite assign_fred_grades_run. eexists. split; [reflexivity |].
  rewrite length_ranking. split.
  - intros He. rewrite run_lookup_notin; [exact Hi |].
    rewrite grade_writes_fst, ranking_perm.
    intros Hin. apply list_elem_of_fmap in Hin as ([j r'] & -> & Hin).
    apply elem_of_eligible_refs in Hin as [Hj He']. simpl in *.
    congruence.
  - intros He.
    assert ((i, r) ∈ ranking results) as Hin.
    { rewrite ranking_perm. by apply elem_of_eligible_refs. }
    apply list_elem_of_lookup in Hin as [k Hk]. exists k.
    split; [exact Hk |].
    rewrite (run_lookup_in _ _ i
               (grade_write (Z.of_nat (length (eligible_refs results))) k)).
    + by rewrite Hi.
    + rewrite grade_writes_fst. apply NoDup_ranking.
    + unfold grade_writes. apply list_elem_of_fmap.
      exists (k, (i, r)). split; [reflexivity |].
      by apply elem_of_enumerate.
Qed.

End Grades.

Section RankOrder.
Import Py Fred.
Implicit Types (results store : list score_result) (r : score_result).

Lemma set_rank_grade_same r :
  set_fred_score_grade (fred_score_grade r) (set_rank (rank r) r) = r.
Proof. by destruct r. Qed.

(** the entries the grade assigner may change *)
Definition regraded r (o : score_result) : Prop :=
  exists a b, o = set_fred_score_grade b (set_rank a r).

Lemma regraded_refl r : regraded r r.
Proof. exists (rank r), (fred_score_grade r). by rewrite set_rank_grade_same. Qed.

Lemma regraded_trans r1 r2 r3 :
  regraded r1 r2 -> regraded r2 r3 -> regraded r1 r3.
Proof. intros (a & b & ->) (a' & b' & ->). by exists a', b'. Qed.

Lemma regraded_grade_write (n : Z) (k : nat) r : regraded r (grade_write n k r).
Proof.
  unfold grade_write. destruct (grade_at n k) as [g|].
  - by eexists _, _.
  - exists (Some (Z.of_nat k + 1)), (fred_score_grade r). by destruct r.
Qed.

Lemma rank_grade_write (n : Z) (k : nat) r :
  rank (grade_write n k r) = Some (Z.of_nat k + 1).
Proof. unfold grade_write. by destruct (grade_at n k). Qed.

Lemma assign_fred_grades_regraded results :
  exists out,
    assign_fred_grades results = Ok out /\ Forall2 regraded results out.
Proof.
  rewrite assign_fred_grades_run. eexists. split; [reflexivity |].
  apply run_related.
  - apply regraded_refl.
  - apply regraded_trans.
  - intros w t Hw. unfold grade_writes in Hw.
    apply list_elem_of_fmap in Hw as ([k [i r]] & -> & _). simpl.
    apply regraded_grade_write.
Qed.

(** X18: the ranks follow the combined score.  The grade assigner returns
    for every list of results and changes nothing but [rank] and
    [fred_score_grade]; a carrier below the mileage threshold is left as
    it is; among eligible carriers a greater combined score gives a
    better (smaller) rank, and with equal scores the carrier that comes
    first in the input is ranked first. *)
Theorem assign_fred_grades_rank_order results :
  exists out,
    assign_fred_grades results = Ok out
    /\ Forall2 regraded results out
    /\ (forall (i : nat) r,
          results !! i = Some r -> has_sufficient_mileage r = false ->
          out !! i = Some r)
    /\ (forall (i j : nat) ri rj oi oj (ki kj : Z),
          results !! i = Some ri -> results !! j = Some rj ->
          out !! i = Some oi -> out !! j = Some oj ->
          has_sufficient_mileage ri = true ->
          has_sufficient_mileage rj = true ->
          rank oi = Some ki -> rank oj = Some kj ->
          ((combined_score rj < combined_score ri)%Q -> ki < kj)
          /\ ((combined_score ri == combined_score rj)%Q ->
              (i < j)%nat -> ki < kj)).
Proof.
  destruct (assign_fred_grades_regraded results) as (out0 & Hout0 & Hrel).
  exists out0. split; [exact Hout0 |]. split; [exact Hrel |].
  rewrite assign_fred_grades_run in Hout0. injection Hout0 as <-.
  split.
  - intros i r Hi He.
    destruct (assign_fred_grades_lookup results i r Hi)
      as (out & Hrun & Hne & _).
    rewrite assign_fred_grades_run in Hrun. injection Hrun as <-.
    by apply Hne.
  - intros i j ri rj oi oj ki kj Hi Hj Hoi Hoj Hei Hej Hki Hkj.
    destruct (assign_fred_grades_lookup results i ri Hi)
      as (out & Hrun & _ & Hk).
    rewrite assign_fred_grades_run in Hrun. injection Hrun as <-.
    destruct (Hk Hei) as (k & Hrk & Hok). clear Hk.
    destruct (assign_fred_grades_lookup results j rj Hj)
      as (out & Hrun & _ & Hk).
    rewrite assign_fred_grades_run in Hrun. injection Hrun as <-.
    destruct (Hk Hej) as (k' & Hrk' & Hok'). clear Hk.
    rewrite Hok in Hoi. injection Hoi as <-.
    rewrite Hok' in Hoj. injection Hoj as <-.
    rewrite rank_grade_write in Hki, Hkj.
    injection Hki as <-. injection Hkj as <-.
    pose proof (ranking_ordered results) as Hord.
    split.
    + intros Hlt. destruct (lt_eq_lt_dec k k') as [[Hkk | ->] | Hkk]; [lia | |].
      * rewrite Hrk in Hrk'. injection Hrk' as _ E. rewrite E in Hlt. lra.
      * destruct (Hord k' k _ _ Hkk Hrk' Hrk) as [H|[H _]];
          unfold by_score in H; simpl in H; lra.
    + intros Heq Hij.
      destruct (lt_eq_lt_dec k k') as [[Hkk | ->] | Hkk]; [lia | |].
      * rewrite Hrk in Hrk'. injection Hrk' as E _. lia.
      * destruct (Hord k' k _ _ Hkk Hrk' Hrk) as [H|[_ H]];
          unfold by_score in H; simpl in H; [lra | lia].
Qed.

End RankOrder.

Section GradeLevels.
Import Py Fred.
Implicit Types (results store : list score_result) (r : score_result).

(** the index in a grade table of the first ceiling that is at least the
    percentile *)
Fixpoint level_of (percentile : Q) (ths : list (Q * string)) : nat :=
  match ths with
  | [] => 0
  | tg :: rest =>
      if Qle_bool percentile tg.1 then 0%nat
      else S (level_of percentile rest)
  end.

Lemma find_level_of (percentile : Q) (ths : list (Q * string)) :
  List.find (fun tg : Q * string => Qle_bool percentile tg.1) ths
  = ths !! level_of percentile ths.
Proof.
  induction ths as [|tg ths IH]; simpl; [done |].
  by destruct (Qle_bool percentile tg.1).
Qed.

Lemma level_of_mono (p1 p2 : Q) (ths : list (Q * string)) :
  (p1 <= p2)%Q -> (level_of p1 ths <= level_of p2 ths)%nat.
Proof.
  intros Hp. induction ths as [|tg ths IH]; simpl; [lia |].
  destruct (Qle_bool p2 tg.1) eqn:E2.
  - apply Qle_bool_iff in E2.
    assert (Qle_bool p1 tg.1 = true) as -> by (apply Qle_bool_iff; lra).
    lia.
  - destruct (Qle_bool p1 tg.1); lia.
Qed.

Lemma level_of_length (p : Q) (ths : list (Q * string)) :
  (level_of p ths <= length ths)%nat.
Proof.
  induction ths as [|tg ths IH]; simpl; [lia |].
  destruct (Qle_bool p tg.1); lia.
Qed.

Lemma level_of_lt (p : Q) (ths : list (Q * string)) (t : Q) (g : string) :
  (p <= t)%Q -> (level_of p (ths ++ [(t, g)]) < length (ths ++ [(t, g)]))%nat.
Proof.
  intros Hp. induction ths as [|tg ths IH]; simpl.
  - assert (Qle_bool p t = true) as -> by (by apply Qle_bool_iff). lia.
  - destruct (Qle_bool p tg.1); lia.
Qed.

(** the percentile of the carrier at index [k] among [n] *)
Definition percentile_at (n : Z) (k : nat) : Q :=
  Qred (inject_Z (Z.of_nat k) / inject_Z n).

Lemma percentile_at_spec (n : Z) (k : nat) :
  0 < n -> (percentile_at n k == Z.of_nat k # Z.to_pos n)%Q.
Proof.
  intros Hn. unfold percentile_at. rewrite Qred_correct.
  destruct n as [|p|p]; try lia.
  unfold Qeq, Qdiv, Qmult, Qinv, inject_Z. simpl. lia.
Qed.

Lemma grade_at_level (n : Z) (k : nat) :
  0 < n ->
  grade_at n k
  = snd <$> grade_thresholds
              !! level_of (percentile_at n k) grade_thresholds.
Proof.
  intros Hn. unfold grade_at, grade_for.
  rewrite truediv_returns by (apply inject_Z_nonzero; lia).
  by rewrite find_level_of.
Qed.

Lemma percentile_at_mono (n : Z) (k1 k2 : nat) :
  0 < n -> (k1 <= k2)%nat -> (percentile_at n k1 <= percentile_at n k2)%Q.
Proof.
  intros Hn Hk. rewrite !percentile_at_spec by done.
  unfold Qle. simpl. nia.
Qed.

Lemma percentile_at_lt_1 (n : Z) (k : nat) :
  Z.of_nat k < n -> (percentile_at n k <= 1.00)%Q.
Proof.
  intros Hk. rewrite percentile_at_spec by lia.
  unfold Qle. simpl. rewrite Z2Pos.id by lia. lia.
Qed.

Lemma level_of_F (p : Q) :
  level_of p grade_thresholds = 12%nat <-> (0.98 < p)%Q /\ (p <= 1.00)%Q.
Proof.
  unfold grade_thresholds. cbn [level_of fst].
  repeat match goal with
         | |- context [Qle_bool p ?t] =>
             let E := fresh "E" in
             destruct (Qle_bool p t) eqn:E;
             [apply Qle_bool_iff in E
             |apply not_true_iff_false in E; rewrite Qle_bool_iff in E;
              apply Qnot_le_lt in E]
         end; split; try lia; try (intros [? ?]; lra); intros _; lra.
Qed.

(** X19: the grades follow the ranks.  Every eligible carrier gets a rank
    from 1 to the number [n] of eligible carriers and a grade of the
    table; a carrier with a better rank never has a worse grade; the
    carrier ranked first is graded A+; and a carrier is graded F exactly
    when [rank - 1] exceeds 98 percent of [n], so that nobody is graded F
    among 50 eligible carriers or fewer. *)
Theorem assign_fred_grades_follow_rank results :
  let n := Z.of_nat (length (eligible_refs results)) in
  exists out,
    assign_fred_grades results = Ok out
    /\ (forall (i : nat) ri oi,
          results !! i = Some ri -> out !! i = Some oi ->
          has_sufficient_mileage ri = true ->
          exists (ki : Z) (a : nat),
            rank oi = Some ki /\ 1 <= ki <= n
            /\ (a <= 12)%nat
            /\ fred_score_grade oi = snd <$> grade_thresholds !! a
            /\ (ki = 1 -> fred_score_grade oi = Some "A+"%string)
            /\ (fred_score_grade oi = Some "F"%string
                <-> 49 * n < 50 * (ki - 1))
            /\ forall (j : nat) rj oj (kj : Z),
                 results !! j = Some rj -> out !! j = Some oj ->
                 has_sufficient_mileage rj = true ->
                 rank oj = Some kj -> ki <= kj ->
                 exists b : nat,
                   (a <= b <= 12)%nat
                   /\ fred_score_grade oj = snd <$> grade_thresholds !! b).
Proof.
  intros n. rewrite assign_fred_grades_run. eexists. split; [reflexivity |].
  assert (Hout : forall (i : nat) ri oi,
            results !! i = Some ri ->
            run (grade_writes (Z.of_nat (length (ranking results)))
                   (enumerate (ranking results))) results !! i = Some oi ->
            has_sufficient_mileage ri = true ->
            exists k : nat,
              (k < length (eligible_refs results))%nat
              /\ oi = grade_write n k ri).
  { intros i ri oi Hi Ho He.
    destruct (assign_fred_grades_lookup results i ri Hi)
      as (out & Hrun & _ & Hk).
    rewrite assign_fred_grades_run in Hrun. injection Hrun as <-.
    destruct (Hk He) as (k & Hrk & Hok). exists k. split.
    - apply lookup_lt_Some in Hrk. by rewrite length_ranking in Hrk.
    - rewrite Hok in Ho. by injection Ho as <-. }
  assert (Hgrade : forall (k : nat) ri,
            (k < length (eligible_refs results))%nat ->
            rank (grade_write n k ri) = Some (Z.of_nat k + 1)
            /\ fred_score_grade (grade_write n k ri)
               = snd <$> grade_thresholds
                           !! level_of (percentile_at n k) grade_thresholds
            /\ (level_of (percentile_at n k) grade_thresholds <= 12)%nat).
  { intros k ri Hk.
    assert (0 < n) as Hn by (unfold n; lia).
    pose proof (level_of_lt (percentile_at n k)
                  (removelast grade_thresholds) 1.00 "F"
                  (percentile_at_lt_1 n k ltac:(unfold n; lia))) as Hlt.
    change (removelast grade_thresholds ++ [(1.00%Q, "F"%string)])
      with grade_thresholds in Hlt.
    change (length grade_thresholds) with 13%nat in Hlt.
    assert (level_of (percentile_at n k) grade_thresholds <= 12)%nat
      as Hlevel by lia.
    split; [| split; [| exact Hlevel]].
    - unfold grade_write. by destruct (grade_at n k).
    - unfold grade_write. rewrite (grade_at_level n k Hn).
      destruct (grade_thresholds
                  !! level_of (percentile_at n k) grade_thresholds)
        as [[t g]|] eqn:E; [reflexivity |].
      apply lookup_ge_None in E.
      change (length grade_thresholds) with 13%nat in E. lia. }
  intros i ri oi Hi Ho He.
  destruct (Hout i ri oi Hi Ho He) as (k & Hk & ->).
  destruct (Hgrade k ri Hk) as (Hrank & Hg & Hlevel).
  assert (0 < n) as Hn by (unfold n; lia).
  exists (Z.of_nat k + 1), (level_of (percentile_at n k) grade_thresholds).
  split; [exact Hrank |]. split; [unfold n; lia |].
  split; [exact Hlevel |]. split; [exact Hg |]. split; [| split].
  - intros Hk0. assert (k = 0%nat) as -> by lia. rewrite Hg.
    destruct n as [|p|p]; try lia. reflexivity.
  - rewrite Hg. split.
    + intros HF.
      assert (level_of (percentile_at n k) grade_thresholds = 12%nat) as H12.
      { revert HF Hlevel.
        generalize (level_of (percentile_at n k) grade_thresholds).
        intros a. do 13 (destruct a as [|a]; [try discriminate; done |]).
        lia. }
      apply level_of_F in H12 as [H98 _].
      rewrite percentile_at_spec in H98 by done.
      unfold Qlt in H98. simpl in H98. rewrite Z2Pos.id in H98 by lia. lia.
    + intros H98.
      assert (level_of (percentile_at n k) grade_thresholds = 12%nat) as ->;
        [| reflexivity].
      apply level_of_F. split.
      * rewrite percentile_at_spec by done.
        unfold Qlt. simpl. rewrite Z2Pos.id by lia. lia.
      * apply percentile_at_lt_1. unfold n. lia.
  - intros j rj oj kj Hj Hoj Hej Hrj Hle.
    destruct (Hout j rj oj Hj Hoj Hej) as (k' & Hk' & ->).
    destruct (Hgrade k' rj Hk') as (Hrank' & Hg' & Hlevel').
    rewrite Hrank' in Hrj. injection Hrj as <-.
    exists (level_of (percentile_at n k') grade_thresholds).
    split; [| exact Hg']. split; [| exact Hlevel'].
    apply level_of_mono, percentile_at_mono; [exact Hn | lia].
Qed.

(** For up to 120 eligible carriers the walk through the ceilings with the
    binary64 arithmetic of the interpreter gives the grades of the exact
    walk. *)
Lemma grade_for_b64_120 :
  forallb (fun n =>
    forallb (fun k =>
      match grade_for_b64 n k, grade_at (Z.of_nat n) k with
      | Some g, Some g' => String.eqb g g'
      | _, _ => false
      end) (seq 0 n)) (seq 1 120) = true.
Proof. vm_compute. reflexivity. Qed.

End GradeLevels.

Section Pipeline.
Import Py Fred.
Implicit Types (P : process) (carrier : dict) (data : dataset).
Implicit Types (results store : list score_result) (r : score_result).

Lemma per_carrier_pass P data (carriers : list dict) (acc : list score_result)
    results :
  for_each (fun results carrier =>
              result ← process_carrier P carrier data;
              Ok (results ++ [result]))
    acc carriers = Ok results ->
  exists rs,
    results = acc ++ rs
    /\ Forall2 (fun carrier res => process_carrier P carrier data = Ok res)
         carriers rs.
Proof.
  revert acc. induction carriers as [|carrier carriers IH]; intros acc H.
  - injection H as <-. exists []. by rewrite app_nil_r.
  - cbn [for_each] in H. bind_inv H. bind_inv Ha. injection Ha as <-.
    destruct (IH _ H) as (rs & -> & HF).
    exists (a0 :: rs). split; [by rewrite <- app_assoc |].
    by constructor.
Qed.

(** the three entries that the population passes fill in *)
Definition completed (res o : score_result) : Prop :=
  exists x a b,
    o = set_fred_score_grade b (set_rank a (set_insurance_rating x res)).

(** X20: the pipeline end to end.  [process_all_carriers] returns one
    result per carrier, in the order of the input; the result of a
    carrier is the one [process_carrier] builds for it, with nothing
    changed but the insurance rating, the rank and the grade.  A carrier
    with at least 100000 miles a year has all three; any other carrier has
    none of them. *)
Theorem process_all_carriers_results P (carriers : list dict) data out :
  process_all_carriers P carriers data = Ok out ->
  length out = length carriers
  /\ forall (i : nat) carrier o,
       carriers !! i = Some carrier -> out !! i = Some o ->
       exists res,
         process_carrier P carrier data = Ok res
         /\ completed res o
         /\ if 100000 <=? annual_mileage res
            then is_Some (insurance_rating o) /\ is_Some (rank o)
                 /\ is_Some (fred_score_grade o)
            else o = res.
Proof.
  unfold process_all_carriers. intros H.
  bind_inv H. rename a into results, Ha into Hpass.
  bind_inv H. rename a into rated, Ha into Hrated.
  pose proof (per_carrier_pass_fresh P carriers data results Hpass) as Hfresh.
  apply per_carrier_pass in Hpass as (rs & -> & HF). simpl in *.
  destruct (calculate_insurance_ratings_related rs)
    as (rated' & Hr' & Hframe).
  rewrite Hrated in Hr'. injection Hr' as <-.
  destruct (assign_fred_grades_regraded rated) as (out' & Ho' & Hregraded).
  rewrite H in Ho'. injection Ho' as <-.
  split.
  { rewrite <- (Forall2_length _ _ _ Hregraded),
      <- (Forall2_length _ _ _ Hframe). symmetry.
    by eapply Forall2_length. }
  intros i carrier o Hc Ho.
  destruct (Forall2_lookup_l _ _ _ _ _ HF Hc) as (res & Hres & Hpc).
  exists res. split; [exact Hpc |].
  destruct (Forall2_lookup_l _ _ _ _ _ Hframe Hres) as (m & Hm & x & ->).
  assert (Hf : fresh res = true).
  { rewrite forallb_forall in Hfresh. apply Hfresh.
    apply list_elem_of_In. by eapply list_elem_of_lookup_2. }
  apply fresh_spec in Hf as (Hs & Hrank & Hgrade & Hins).
  destruct (calculate_insurance_ratings_lookup rs i res Hres)
    as (rated' & gv & gc & Hr' & Hne & He).
  rewrite Hrated in Hr'. injection Hr' as <-.
  destruct (assign_fred_grades_lookup rated i _ Hm)
    as (out' & Ho' & Hgne & Hge).
  rewrite H in Ho'. injection Ho' as <-.
  simpl in Hgne, Hge. rewrite Hs in *.
  split.
  { destruct (Forall2_lookup_l _ _ _ _ _ Hregraded Hm)
      as (o' & Ho' & a & b & ->).
    rewrite Ho in Ho'. injection Ho' as ->. by exists x, a, b. }
  destruct (Z.leb_spec 100000 (annual_mileage res)) as [Hmile|Hmile].
  - specialize (He eq_refl). rewrite Hm in He. injection He as He.
    destruct (Hge eq_refl) as (k & Hk & Hok).
    rewrite Ho in Hok. injection Hok as ->.
    assert (is_Some x) as Hx.
    { assert (insurance_rating (set_insurance_rating x res) = x) as <-
        by reflexivity.
      rewrite He. unfold insurance_write.
      destruct (Z.ltb_spec 0 (annual_mileage res)); [| lia].
      destruct (rating_of_returns gv gc res ltac:(lia)) as (y & -> & _).
      by eexists. }
    assert (Z.of_nat k < Z.of_nat (length (eligible_refs rated))) as Hn.
    { apply lookup_lt_Some in Hk. rewrite length_ranking in Hk.
      by apply Nat2Z.inj_lt. }
    unfold grade_write. rewrite (grade_at_level _ k) by (eapply Z.le_lt_trans; [apply Nat2Z.is_nonneg | exact Hn]).
    pose proof (level_of_lt
                  (percentile_at (Z.of_nat (length (eligible_refs rated))) k)
                  (removelast grade_thresholds) 1.00 "F"
                  (percentile_at_lt_1 _ k Hn)) as Hlt.
    change (removelast grade_thresholds ++ [(1.00%Q, "F"%string)])
      with grade_thresholds in Hlt.
    destruct (grade_thresholds !! _) as [[t g]|] eqn:E.
    + cbn [fmap option_fmap option_map snd]. simpl. split; [exact Hx |].
      split; by eexists.
    + apply lookup_ge_None in E. lia.
  - specialize (Hne eq_refl). rewrite Hm in Hne. injection Hne as Hne.
    rewrite Hne in Hgne. specialize (Hgne eq_refl).
    rewrite Ho in Hgne. by injection Hgne as ->.
Qed.

(** the two carriers of the examples, the first above and the second
    below the mileage threshold *)
Lemma process_all_carriers_results_witness :
  exists o1 o2,
    process_all_carriers Sample.process_1
      [Sample.carrier_77; Sample.carrier_78] Sample.records_77
    = Ok [o1; o2]
    /\ dot_number o1 = "77"%string /\ rank o1 = Some 1
    /\ fred_score_grade o1 = Some "A+"%string
    /\ insurance_rating o1 = Some 100%Q
    /\ rank o2 = None /\ fred_score_grade o2 = None
    /\ insurance_rating o2 = None
    /\ length [o1; o2] = 2%nat.
Proof.
  do 2 eexists. split; [vm_compute; reflexivity |].
  repeat (split; [reflexivity |]).
  eapply (process_all_carriers_results Sample.process_1
            [Sample.carrier_77; Sample.carrier_78] Sample.records_77).
  vm_compute. reflexivity.
Defined.

End Pipeline.

(** ** Rows and field names *)

Section GetAny.
Import Py Rows.


End GetAny.

(** ** Text as lists of characters *)

Abbreviation chars := list_ascii_of_string.

Section Strings.
Import Py.

Fixpoint drop_while (p : ascii -> bool) (l : list ascii) : list ascii :=
  match l with
  | c :: l' => if p c then drop_while p l' else l
  | [] => []
  end.

Definition strip_list (p : ascii -> bool) (l : list ascii) : list ascii :=
  reverse (drop_while p (reverse (drop_while p l))).

Lemma chars_rev_app (s t : string) :
  chars (String.rev_app s t) = rev_append (chars s) (chars t).
Proof.
  revert t. induction s as [|c s IH]; intros t; simpl; [done |].
  by rewrite IH.
Qed.

Lemma chars_rev (s : string) : chars (String.rev s) = reverse (chars s).
Proof. apply chars_rev_app. Qed.

Lemma chars_lstrip_by (p : ascii -> bool) (s : string) :
  chars (lstrip_by p s) = drop_while p (chars s).
Proof.
  induction s as [|c s IH]; simpl; [done |]. by destruct (p c).
Qed.

Lemma chars_strip_by (p : ascii -> bool) (s : string) :
  chars (strip_by p s) = strip_list p (chars s).
Proof.
  unfold strip_by, strip_list.
  by rewrite chars_rev, chars_lstrip_by, chars_rev, chars_lstrip_by.
Qed.

Lemma chars_map_string (f : ascii -> ascii) (s : string) :
  chars (map_string f s) = map f (chars s).
Proof. induction s as [|c s IH]; simpl; [done | by rewrite IH]. Qed.

Lemma chars_inj (s t : string) : chars s = chars t -> s = t.
Proof.
  intros H. rewrite <- (string_of_list_ascii_of_string s),
    <- (string_of_list_ascii_of_string t). by rewrite H.
Qed.

(** neither end of the list satisfies [p] *)
Definition clean_ends (p : ascii -> bool) (l : list ascii) : Prop :=
  (forall c, head l = Some c -> p c = false)
  /\ (forall c, last l = Some c -> p c = false).

Lemma drop_while_head (p : ascii -> bool) (l : list ascii) (c : ascii) :
  head (drop_while p l) = Some c -> p c = false.
Proof.
  induction l as [|x l IH]; simpl; [done |].
  destruct (p x) eqn:E; [exact IH |]. simpl. by intros [= <-].
Qed.

Lemma drop_while_suffix (p : ascii -> bool) (l : list ascii) :
  exists pre, l = pre ++ drop_while p l.
Proof.
  induction l as [|x l [pre IH]]; simpl; [by exists [] |].
  destruct (p x); [| by exists []].
  exists (x :: pre). simpl. by rewrite <- IH.
Qed.

Lemma drop_while_clean (p : ascii -> bool) (l : list ascii) :
  (forall c, head l = Some c -> p c = false) -> drop_while p l = l.
Proof.
  destruct l as [|x l]; simpl; [done |].
  intros H. by rewrite (H x eq_refl).
Qed.

Lemma strip_list_infix (p : ascii -> bool) (l : list ascii) :
  exists pre suf, l = pre ++ strip_list p l ++ suf.
Proof.
  unfold strip_list.
  destruct (drop_while_suffix p l) as [pre Hpre].
  destruct (drop_while_suffix p (reverse (drop_while p l))) as [suf Hsuf].
  exists pre, (reverse suf).
  rewrite <- reverse_app, <- Hsuf, reverse_involutive. exact Hpre.
Qed.

Lemma strip_list_clean_ends (p : ascii -> bool) (l : list ascii) :
  clean_ends p (strip_list p l).
Proof.
  unfold strip_list. split.
  - intros c Hc.
    destruct (drop_while_suffix p (reverse (drop_while p l))) as [suf Hsuf].
    apply (f_equal reverse) in Hsuf.
    rewrite reverse_involutive, reverse_app in Hsuf.
    apply (drop_while_head p l c). rewrite Hsuf, head_app, Hc. reflexivity.
  - intros c Hc. rewrite last_reverse in Hc.
    by apply drop_while_head in Hc.
Qed.

Lemma strip_list_id (p : ascii -> bool) (l : list ascii) :
  clean_ends p l -> strip_list p l = l.
Proof.
  intros [Hh Hl]. unfold strip_list.
  rewrite (drop_while_clean p l Hh).
  rewrite drop_while_clean; [apply reverse_involutive |].
  intros c. rewrite head_reverse. apply Hl.
Qed.

End Strings.

Section FieldNames.
Import Py Rows.

Definition is_underscore (c : ascii) : bool := Ascii.eqb "_" c.

(** a character of a normalized name *)
Definition is_name_char (c : ascii) : bool :=
  is_lower_alnum c || is_underscore c.

(** no two underscores in a row *)
Definition single_underscores (l : list ascii) : Prop :=
  forall i : nat, l !! i = Some "_"%char -> l !! S i = Some "_"%char -> False.

(** the shape of a normalized name *)
Definition normalized (l : list ascii) : Prop :=
  Forall (fun c => is_name_char c = true) l
  /\ clean_ends is_underscore l
  /\ single_underscores l.

Fixpoint sub_runs_list (in_run : bool) (l : list ascii) : list ascii :=
  match l with
  | [] => []
  | c :: l' =>
      if is_lower_alnum c then c :: sub_runs_list false l'
      else if in_run then sub_runs_list true l'
      else "_"%char :: sub_runs_list true l'
  end.

Lemma chars_sub_runs (b : bool) (s : string) :
  chars (sub_runs b s) = sub_runs_list b (chars s).
Proof.
  revert b. induction s as [|c s IH]; intros b; simpl; [done |].
  destruct (is_lower_alnum c); simpl; [by rewrite IH |].
  destruct b; simpl; by rewrite IH.
Qed.

Lemma chars_normalize_fieldname (name : string) :
  chars (normalize_fieldname (Some name))
  = strip_list is_underscore
      (sub_runs_list false
         (map lower_ascii (strip_list is_space (chars name)))).
Proof.
  unfold normalize_fieldname, strip_char, lower, strip.
  change (Ascii.eqb "_") with is_underscore.
  by rewrite chars_strip_by, chars_sub_runs, chars_map_string,
    chars_strip_by.
Qed.

Lemma is_underscore_spec (c : ascii) :
  is_underscore c = true <-> c = "_"%char.
Proof. unfold is_underscore. rewrite Ascii.eqb_eq. split; congruence. Qed.

Lemma is_lower_alnum_underscore : is_lower_alnum "_" = false.
Proof. reflexivity. Qed.

Lemma name_char_cases (c : ascii) :
  is_name_char c = true -> is_lower_alnum c = false -> c = "_"%char.
Proof.
  unfold is_name_char. intros H E. rewrite E in H. simpl in H.
  by apply is_underscore_spec.
Qed.

Lemma single_underscores_cons (c : ascii) (l : list ascii) :
  single_underscores (c :: l)
  <-> single_underscores l
      /\ (c = "_"%char -> head l = Some "_"%char -> False).
Proof.
  unfold single_underscores. split.
  - intros H. split.
    + intros i Hi Hj. by apply (H (S i)).
    + intros -> Hh. apply (H 0%nat); [done |]. simpl.
      by destruct l; simplify_eq/=.
  - intros [H Hc] [|i] Hi Hj; simpl in *.
    + apply Hc; [congruence |]. by destruct l; simplify_eq/=.
    + by apply (H i).
Qed.

Lemma sub_runs_list_shape (b : bool) (l : list ascii) :
  Forall (fun c => is_name_char c = true) (sub_runs_list b l)
  /\ single_underscores (sub_runs_list b l)
  /\ (b = true -> head (sub_runs_list b l) = Some "_"%char -> False).
Proof.
  revert b. induction l as [|c l IH]; intros b; simpl.
  - split; [constructor |]. split; [by intros [|i] |]. done.
  - destruct (is_lower_alnum c) eqn:E.
    + destruct (IH false) as (HF & HS & _).
      split; [constructor; [unfold is_name_char; by rewrite E | done] |].
      split.
      * apply single_underscores_cons. split; [done |].
        intros ->. by rewrite is_lower_alnum_underscore in E.
      * intros _ [= ->]. by rewrite is_lower_alnum_underscore in E.
    + destruct (IH true) as (HF & HS & Hh). destruct b.
      * split; [done |]. split; [done |]. intros _. by apply Hh.
      * split; [constructor; [reflexivity | done] |]. split; [| done].
        apply single_underscores_cons. split; [done |].
        intros _. by apply Hh.
Qed.

Lemma sub_runs_list_id (b : bool) (l : list ascii) :
  Forall (fun c => is_name_char c = true) l ->
  single_underscores l ->
  (b = true -> head l = Some "_"%char -> False) ->
  sub_runs_list b l = l.
Proof.
  revert b. induction l as [|c l IH]; intros b HF HS Hb; simpl; [done |].
  apply Forall_cons in HF as [Hc HF].
  apply single_underscores_cons in HS as [HS Hcc].
  destruct (is_lower_alnum c) eqn:E.
  - f_equal. by apply IH.
  - pose proof (name_char_cases c Hc E) as ->.
    destruct b; [exfalso; by apply Hb |].
    f_equal. apply IH; [done | done |]. intros _. by apply Hcc.
Qed.

Lemma single_underscores_infix (pre l suf : list ascii) :
  single_underscores (pre ++ l ++ suf) -> single_underscores l.
Proof.
  intros H i Hi Hj. apply (H (length pre + i)%nat).
  - rewrite lookup_app_r by lia.
    replace (length pre + i - length pre)%nat with i by lia.
    by apply lookup_app_l_Some.
  - replace (S (length pre + i)) with (length pre + S i)%nat by lia.
    rewrite lookup_app_r by lia.
    replace (length pre + S i - length pre)%nat with (S i) by lia.
    by apply lookup_app_l_Some.
Qed.

Lemma normalize_fieldname_normalized (name : string) :
  normalized (chars (normalize_fieldname (Some name))).
Proof.
  rewrite chars_normalize_fieldname.
  set (l := map lower_ascii (strip_list is_space (chars name))).
  destruct (sub_runs_list_shape false l) as (HF & HS & _).
  destruct (strip_list_infix is_underscore (sub_runs_list false l))
    as (pre & suf & Hl).
  split; [| split].
  - rewrite Hl in HF. apply Forall_app in HF as [_ HF].
    by apply Forall_app in HF as [HF _].
  - apply strip_list_clean_ends.
  - rewrite Hl in HS. by eapply single_underscores_infix.
Qed.

Lemma lower_ascii_name_char (c : ascii) :
  is_name_char c = true -> lower_ascii c = c.
Proof. by destruct c as [[] [] [] [] [] [] [] []]. Qed.

Lemma is_space_name_char (c : ascii) :
  is_name_char c = true -> is_space c = false.
Proof. by destruct c as [[] [] [] [] [] [] [] []]. Qed.


Lemma normalized_fixed (l : list ascii) :
  normalized l ->
  strip_list is_underscore
    (sub_runs_list false (map lower_ascii (strip_list is_space l))) = l.
Proof.
  intros (HF & Hends & HS).
  rewrite (strip_list_id is_space l).
  2:{ split; intros c Hc; apply is_space_name_char;
        rewrite Forall_forall in HF; apply HF.
      - destruct l; simplify_eq/=. left.
      - apply last_Some in Hc as [l' ->]. apply elem_of_app. right. left. }
  assert (map lower_ascii l = l) as ->.
  { clear -HF. induction HF as [|c l Hc _ IH]; simpl; [done |].
    by rewrite IH, lower_ascii_name_char. }
  rewrite sub_runs_list_id by done.
  by apply strip_list_id.
Qed.

Lemma normalize_fieldname_fixed (name : string) :
  normalize_fieldname (Some (normalize_fieldname (Some name)))
  = normalize_fieldname (Some name).
Proof.
  apply chars_inj. rewrite chars_normalize_fieldname.
  apply normalized_fixed, normalize_fieldname_normalized.
Qed.


End FieldNames.

Section AugmentedRows.
Import Py Rows.
Implicit Types (r acc aliases : row) (kv : string * value).

Lemma has_key_spec (key : string) (d : row) :
  has_key key d = true <-> key ∈ d.*1.
Proof.
  unfold has_key. rewrite existsb_exists. split.
  - intros ([k v] & Hin & ->%String.eqb_eq). simpl.
    apply list_elem_of_fmap. exists (k, v).
    split; [done | by apply list_elem_of_In].
  - intros ([k v] & -> & Hin)%list_elem_of_fmap. exists (k, v).
    split; [by apply list_elem_of_In | apply String.eqb_refl].
Qed.

Lemma has_key_app (key : string) (d d' : row) :
  has_key key d = true -> has_key key (d ++ d') = true.
Proof.
  rewrite !has_key_spec, fmap_app, elem_of_app. tauto.
Qed.

(** an alias of the row: a normalized name that is not empty, with the
    value of an original key that has this name *)
Definition alias_of r kv : Prop :=
  exists key,
    (key, kv.2) ∈ r /\ kv.1 = normalize_fieldname (Some key)
    /\ kv.1 <> ""%string.

Lemma augment_fold (l r acc : row) :
  (forall kv, kv ∈ l -> kv ∈ r) ->
  exists aliases,
    fold_left augment_step l acc = acc ++ aliases
    /\ Forall (alias_of r) aliases
    /\ (NoDup acc.*1 -> NoDup (acc ++ aliases).*1)
    /\ (forall kv, kv ∈ l ->
          normalize_fieldname (Some kv.1) = ""%string
          \/ has_key (normalize_fieldname (Some kv.1)) (acc ++ aliases)
             = true).
Proof.
  revert acc. induction l as [|[k v] l IH]; intros acc Hl.
  - exists []. rewrite app_nil_r. split; [done |]. split; [constructor |].
    split; [done |]. intros kv Hkv. by apply elem_of_nil in Hkv.
  - cbn [fold_left].
    assert (Hstep : augment_step acc (k, v)
              = if negb (String.eqb (normalize_fieldname (Some k)) "")
                   && negb (has_key (normalize_fieldname (Some k)) acc)
                then acc ++ [(normalize_fieldname (Some k), v)]
                else acc) by reflexivity.
    rewrite Hstep. clear Hstep.
    destruct (String.eqb_spec (normalize_fieldname (Some k)) "")
      as [Hempty|Hne]; cbn [negb andb].
    { destruct (IH acc) as (aliases & -> & HF & Hnd & Hall).
      { intros kv Hkv. apply Hl. by right. }
      exists aliases. split; [done |]. split; [done |]. split; [done |].
      intros kv [->|Hkv]%elem_of_cons; [by left | by apply Hall]. }
    destruct (has_key (normalize_fieldname (Some k)) acc) eqn:Hk;
      cbn [negb andb].
    { destruct (IH acc) as (aliases & -> & HF & Hnd & Hall).
      { intros kv Hkv. apply Hl. by right. }
      exists aliases. split; [done |]. split; [done |]. split; [done |].
      intros kv [->|Hkv]%elem_of_cons; [| by apply Hall].
      right. by apply has_key_app. }
    destruct (IH (acc ++ [(normalize_fieldname (Some k), v)]))
      as (aliases & -> & HF & Hnd & Hall).
    { intros kv Hkv. apply Hl. by right. }
    exists ((normalize_fieldname (Some k), v) :: aliases).
    rewrite <- app_assoc. cbn [app]. split; [done |]. split; [| split].
    + constructor; [| done]. exists k. simpl.
      split; [apply Hl; left | done].
    + intros Hacc.
      replace (acc ++ (normalize_fieldname (Some k), v) :: aliases)
        with ((acc ++ [(normalize_fieldname (Some k), v)]) ++ aliases)
        by (by rewrite <- app_assoc).
      apply Hnd. rewrite fmap_app. apply NoDup_app.
      split; [done |]. split; [| apply NoDup_singleton].
      intros x Hx ->%list_elem_of_singleton. cbn [fst] in Hx.
      apply has_key_spec in Hx. congruence.
    + intros kv [->|Hkv]%elem_of_cons.
      * right. cbn [fst]. apply has_key_spec.
        rewrite fmap_app, elem_of_app. right. left.
      * destruct (Hall kv Hkv) as [?|H]; [by left | right].
        by rewrite <- app_assoc in H.
Qed.

Lemma augment_fold_noop (l acc : row) :
  (forall kv, kv ∈ l ->
     normalize_fieldname (Some kv.1) = ""%string
     \/ has_key (normalize_fieldname (Some kv.1)) acc = true) ->
  fold_left augment_step l acc = acc.
Proof.
  induction l as [|kv l IH]; intros H; [done |].
  cbn [fold_left].
  assert (augment_step acc kv = acc) as ->.
  { unfold augment_step.
    destruct (H kv ltac:(left)) as [-> | ->]; [reflexivity |].
    by rewrite andb_false_r. }
  apply IH. intros kv' Hkv'. apply H. by right.
Qed.

(** X23: [augment_row_with_normalized_keys] keeps the cells of the row, in
    their order, and appends aliases: each alias is the normalized name
    of an original key, not empty, with the value of that key.  Distinct
    keys stay distinct, every key with a name that is not empty can be
    looked up under that name, and augmenting a second time adds
    nothing. *)
Theorem augment_row_with_normalized_keys_aliases r :
  exists aliases,
    augment_row_with_normalized_keys r = r ++ aliases
    /\ Forall (alias_of r) aliases
    /\ (NoDup r.*1 -> NoDup (r ++ aliases).*1)
    /\ (forall kv, kv ∈ r ->
          normalize_fieldname (Some kv.1) = ""%string
          \/ has_key (normalize_fieldname (Some kv.1)) (r ++ aliases)
             = true)
    /\ augment_row_with_normalized_keys (r ++ aliases) = r ++ aliases.
Proof.
  unfold augment_row_with_normalized_keys.
  destruct (augment_fold r r r ltac:(done))
    as (aliases & Hfold & HF & Hnd & Hall).
  exists aliases. split; [exact Hfold |]. split; [exact HF |].
  split; [exact Hnd |]. split; [exact Hall |].
  apply augment_fold_noop.
  intros kv [Hkv|Hkv]%elem_of_app; [by apply Hall |].
  rewrite Forall_forall in HF.
  destruct (HF kv Hkv) as (key & Hkey & Hname & Hne).
  right.
  rewrite Hname, normalize_fieldname_fixed, <- Hname.
  apply has_key_spec. rewrite fmap_app, elem_of_app. right.
  apply list_elem_of_fmap. by exists kv.
Qed.

Lemma augment_row_split r :
  exists aliases,
    augment_row_with_normalized_keys r = r ++ aliases
    /\ Forall (alias_of r) aliases.
Proof.
  unfold augment_row_with_normalized_keys.
  destruct (augment_fold r r r ltac:(done)) as (aliases & Hfold & HF & _).
  by exists aliases.
Qed.

End AugmentedRows.

Section AugmentedCarriers.
Import Py Fred Rows.
Implicit Types (r aliases : row) (m : dict).

(** the key has a character outside those of a normalized name *)
Definition is_original_key (key : string) : bool :=
  existsb (fun c => negb (is_name_char c)) (chars key).

(** two rows that agree on every key that is not a normalized name *)
Definition agree (m1 m2 : dict) : Prop :=
  forall key, is_original_key key = true -> m1 !! key = m2 !! key.

Lemma agree_get (m1 m2 : dict) (key : string) (dflt : value) :
  agree m1 m2 -> is_original_key key = true ->
  get m1 key dflt = get m2 key dflt.
Proof. intros H Hk. unfold get. by rewrite (H key Hk). Qed.

Lemma agree_sum_fields (m1 m2 : dict) (fields : list string) :
  agree m1 m2 ->
  forallb is_original_key fields = true ->
  sum_fields m1 fields = sum_fields m2 fields.
Proof.
  intros H. unfold sum_fields. generalize 0 at 2 4.
  induction fields as [|f fields IH]; intros acc Hf; simpl; [done |].
  apply andb_prop in Hf as [Hf Hfs].
  rewrite (agree_get m1 m2 f _ H Hf).
  destruct (safe_int _ 0); simpl; [by apply IH | done].
Qed.

Lemma agree_should_exclude_carrier (m1 m2 : dict) :
  agree m1 m2 -> should_exclude_carrier m1 = should_exclude_carrier m2.
Proof.
  intros H.
  unfold should_exclude_carrier, inactive, status_code, passenger_classdef,
    authority_outcome, other_authority, classdef_upper.
  rewrite (agree_sum_fields m1 m2 passenger_equipment_fields H eq_refl).
  rewrite (agree_sum_fields m1 m2 truck_power_fields H eq_refl).
  repeat match goal with
         | |- context [get m1 ?k ?d] =>
             rewrite (agree_get m1 m2 k d H eq_refl)
         end.
  reflexivity.
Qed.

Lemma normalized_not_original (key : string) :
  normalized (chars key) -> is_original_key key = false.
Proof.
  intros (HF & _). unfold is_original_key.
  apply not_true_iff_false. rewrite existsb_exists.
  intros (c & Hc & Hn). rewrite Forall_forall in HF.
  rewrite (HF c) in Hn; [done | by apply list_elem_of_In].
Qed.

Lemma agree_augmented r :
  agree (dict_of (augment_row_with_normalized_keys r)) (dict_of r).
Proof.
  destruct (augment_row_split r) as (aliases & -> & HF).
  intros key Hkey. unfold dict_of.
  rewrite list_to_map_app. apply lookup_union_l.
  apply not_elem_of_list_to_map_1.
  intros ([k v] & -> & Hin)%list_elem_of_fmap. simpl in Hkey.
  rewrite Forall_forall in HF.
  destruct (HF _ Hin) as (orig & _ & Hname & _). simpl in Hname.
  rewrite Hname, normalized_not_original in Hkey; [done |].
  apply normalize_fieldname_normalized.
Qed.

(** X24: the aliases never reach the classifier.  Every key that
    [should_exclude_carrier] reads has an upper-case letter and no alias
    has one, so the classifier decides the same on the augmented row as on
    the row itself. *)
Theorem should_exclude_carrier_augmented r :
  should_exclude_carrier (dict_of (augment_row_with_normalized_keys r))
  = should_exclude_carrier (dict_of r).
Proof. apply agree_should_exclude_carrier, agree_augmented. Qed.

End AugmentedCarriers.

(** ** The dates of the violation files *)

Section FmcsaDates.
Import Py Dates Trends.

Lemma digit_val_range (c : ascii) (a : Z) :
  digit_val c = Some a -> 0 <= a <= 9.
Proof.
  unfold digit_val.
  destruct ((48 <=? N_of_ascii c)%N && (N_of_ascii c <=? 57)%N) eqn:E;
    [| discriminate].
  intros [= <-]. apply andb_prop in E as [E1 E2].
  apply N.leb_le in E1, E2. lia.
Qed.

Lemma index_of_range (x : string) (l : list string) (i m : Z) :
  index_of x l i = Some m -> i <= m < i + Z.of_nat (length l).
Proof.
  revert i. induction l as [|y l IH]; intros i; simpl; [discriminate |].
  destruct (String.eqb x y).
  - intros [= <-]. lia.
  - intros H%IH. lia.
Qed.

Lemma strptime_valid (s : string) (dt : date) :
  strptime s = Some dt ->
  1969 <= year dt <= 2068
  /\ returns (date_ordinal (year dt) (month dt) (day dt)).
Proof.
  unfold strptime. intros H.
  destruct (day_token _) as [[d l1]|]; [| discriminate]. simpl in H.
  destruct (hyphen l1) as [l2|]; [| discriminate]. simpl in H.
  destruct (month_token l2) as [[m l3]|]; [| discriminate]. simpl in H.
  destruct (hyphen l3) as [l4|]; [| discriminate]. simpl in H.
  destruct (year_token l4) as [[y l5]|] eqn:Ey; [| discriminate].
  simpl in H. destruct l5; [| discriminate].
  destruct (date_ordinal y m d) as [o|] eqn:Eo; [| discriminate].
  injection H as <-. simpl. split; [| by exists o].
  unfold year_token in Ey.
  destruct l4 as [|c1 [|c2 rest]]; try discriminate.
  destruct (digit_val c1) as [a|] eqn:E1; [| discriminate].
  destruct (digit_val c2) as [b|] eqn:E2; [| discriminate].
  apply digit_val_range in E1, E2. injection Ey as <- _.
  destruct (Z.leb_spec (10 * a + b) 68); lia.
Qed.

(** the text [strftime('%d-%b-%y')] gives for a date in the C locale *)
Definition two_digits (n : Z) : string :=
  String (ascii_of_N (48 + Z.to_N (n / 10)))
    (String (ascii_of_N (48 + Z.to_N (n mod 10))) "").

Definition month_abbr (m : Z) : string :=
  nth (Z.to_nat (m - 1))
    [ "Jan"; "Feb"; "Mar"; "Apr"; "May"; "Jun";
      "Jul"; "Aug"; "Sep"; "Oct"; "Nov"; "Dec" ]%string ""%string.

Definition render (y m d : Z) : string :=
  (two_digits d ++ "-" ++ month_abbr m ++ "-" ++ two_digits (y mod 100))
  %string.

Definition date_eqb (a b : option date) : bool :=
  match a, b with
  | Some x, Some y =>
      (year x =? year y) && (month x =? month y) && (day x =? day y)
  | None, None => true
  | _, _ => false
  end.

Lemma date_eqb_eq (a b : option date) : date_eqb a b = true -> a = b.
Proof.
  destruct a as [[y1 m1 d1]|], b as [[y2 m2 d2]|]; simpl; try done.
  intros [[->%Z.eqb_eq ->%Z.eqb_eq]%andb_prop ->%Z.eqb_eq]%andb_prop.
  reflexivity.
Qed.

(** what the parser is to return for the text of the day [d] of the month
    [m] of the year [y]: the date when there is such a day, else nothing *)
Definition expected (y m d : Z) : option date :=
  match date_ordinal y m d with
  | Ok _ => Some {| year := y; month := m; day := d |}
  | Raise _ => None
  end.

Definition round_trip (y m d : Z) : bool :=
  date_eqb (parse_fmcsa_date (Some (render y m d))) (expected y m d).

(** every day from 1 to 31 of every month of the years 1969 to 2068 *)
Lemma round_trip_all :
  forallb (fun y =>
    forallb (fun m =>
      forallb (fun d =>
        round_trip (1969 + Z.of_nat y) (1 + Z.of_nat m) (1 + Z.of_nat d))
        (seq 0 31)) (seq 0 12)) (seq 0 100) = true.
Proof. vm_compute. reflexivity. Qed.

End FmcsaDates.

Section FmcsaDateProperties.
Import Py Dates Trends.

(** X25: a date that [parse_fmcsa_date] returns is a day of the calendar
    in the years 1969 to 2068: the two digits of the year are read as
    20xx up to 68 and as 19xx from 69 on.  Its quarter is the one of its
    month, from 1 to 4.  A missing or empty date gives nothing. *)
Theorem parse_fmcsa_date_valid (s : string) (dt : date) :
  parse_fmcsa_date (Some s) = Some dt ->
  1969 <= year dt <= 2068
  /\ returns (date_ordinal (year dt) (month dt) (day dt))
  /\ (exists q,
        1 <= q <= 4 /\ 3 * q - 2 <= month dt <= 3 * q
        /\ get_quarter_period dt
           = ("Q" ++ str (PInt q) ++ " " ++ str (PInt (year dt)))%string)
  /\ parse_fmcsa_date None = None
  /\ parse_fmcsa_date (Some "") = None.
Proof.
  unfold parse_fmcsa_date. destruct (String.eqb s ""); [discriminate |].
  intros H. apply strptime_valid in H as [Hy [o Ho]].
  split; [exact Hy |]. split; [by exists o |].
  split; [| split; reflexivity].
  exists ((month dt - 1) / 3 + 1).
  unfold date_ordinal in Ho.
  destruct (_ && _) eqn:E in Ho; [| discriminate].
  repeat (apply andb_prop in E as [E ?]).
  assert (1 <= month dt <= 12) as Hm by lia.
  split; [| split; [| reflexivity]].
  - pose proof (Z.div_le_mono 0 (month dt - 1) 3 ltac:(lia) ltac:(lia)).
    pose proof (Z.div_le_mono (month dt - 1) 11 3 ltac:(lia) ltac:(lia)).
    change (0 / 3) with 0 in *. change (11 / 3) with 3 in *. lia.
  - pose proof (Z.div_mod (month dt - 1) 3 ltac:(lia)).
    pose proof (Z.mod_pos_bound (month dt - 1) 3 ltac:(lia)). lia.
Qed.

Lemma parse_fmcsa_date_valid_witness :
  parse_fmcsa_date (Some "31-DEC-68")
  = Some {| year := 2068; month := 12; day := 31 |}
  /\ get_quarter_period {| year := 2068; month := 12; day := 31 |}
     = "Q4 2068"%string
  /\ 1969 <= 2068 <= 2068.
Proof.
  split; [vm_compute; reflexivity |]. split; [vm_compute; reflexivity |].
  apply (parse_fmcsa_date_valid "31-DEC-68"
           {| year := 2068; month := 12; day := 31 |}).
  vm_compute. reflexivity.
Defined.

(** X26: the dates of the FMCSA files are read back.  For every year from
    1969 to 2068, the text [DD-Mon-YY] of a day of the calendar gives that
    day; the text of a day that the month does not have (30-Feb, 31-Apr,
    29-Feb outside a leap year) gives nothing. *)
Theorem parse_fmcsa_date_round_trip (y m d : Z) :
  1969 <= y <= 2068 -> 1 <= m <= 12 -> 1 <= d <= 31 ->
  parse_fmcsa_date (Some (render y m d)) = expected y m d.
Proof.
  intros Hy Hm Hd.
  pose proof (proj1 (forallb_forall _ _) round_trip_all
                (Z.to_nat (y - 1969)) ltac:(apply in_seq; lia)) as H1.
  cbv beta in H1.
  pose proof (proj1 (forallb_forall _ _) H1
                (Z.to_nat (m - 1)) ltac:(apply in_seq; lia)) as H2.
  cbv beta in H2.
  pose proof (proj1 (forallb_forall _ _) H2
                (Z.to_nat (d - 1)) ltac:(apply in_seq; lia)) as H.
  cbv beta in H. clear H1 H2.
  replace (1969 + Z.of_nat (Z.to_nat (y - 1969))) with y in H by lia.
  replace (1 + Z.of_nat (Z.to_nat (m - 1))) with m in H by lia.
  replace (1 + Z.of_nat (Z.to_nat (d - 1))) with d in H by lia.
  by apply date_eqb_eq.
Qed.

Lemma parse_fmcsa_date_round_trip_witness :
  parse_fmcsa_date (Some "29-Feb-24")
  = Some {| year := 2024; month := 2; day := 29 |}
  /\ parse_fmcsa_date (Some "29-Feb-23") = None.
Proof.
  split.
  - apply (parse_fmcsa_date_round_trip 2024 2 29); lia.
  - apply (parse_fmcsa_date_round_trip 2023 2 29); lia.
Defined.

End FmcsaDateProperties.

(** ** The credibility factor *)

Section CredibilityProperties.
Import Py Fred Credibility.

Lemma py_min_1_div (n k : Z) :
  0 < k ->
  (py_min 1 (inject_Z n / inject_Z k)
   == if k <=? n then 1 else inject_Z n / inject_Z k)%Q.
Proof.
  intros Hk. unfold py_min.
  destruct k as [|p|p]; try lia.
  destruct (Qltb _ 1) eqn:E.
  - apply Qltb_lt in E.
    unfold Qlt, Qdiv, Qmult, Qinv, inject_Z in E. simpl in E.
    destruct (Z.leb_spec (Z.pos p) n); [lia | reflexivity].
  - apply Qltb_ge in E.
    unfold Qle, Qdiv, Qmult, Qinv, inject_Z in E. simpl in E.
    destruct (Z.leb_spec (Z.pos p) n); [reflexivity | lia].
Qed.

(** X27: for inspection counts that are not negative, the credibility lies
    between 0 and 1; it is 1 exactly when there are at least 5 vehicle
    inspections and at least 3 driver inspections, and at least one half
    as soon as one of the two minimums is met. *)
Theorem calculate_credibility_range (v d : Z) :
  0 <= v -> 0 <= d ->
  (0 <= calculate_credibility v d <= 1)%Q
  /\ ((calculate_credibility v d == 1)%Q <-> 5 <= v /\ 3 <= d)
  /\ (5 <= v \/ 3 <= d -> (1 # 2 <= calculate_credibility v d)%Q).
Proof.
  intros Hv Hd. unfold calculate_credibility.
  change 5%Q with (inject_Z 5). change 3%Q with (inject_Z 3).
  rewrite (py_min_1_div v 5), (py_min_1_div d 3) by lia.
  destruct (Z.leb_spec 5 v), (Z.leb_spec 3 d);
    unfold Qle, Qeq, Qdiv, Qplus, Qmult, Qinv, inject_Z; simpl;
    repeat split; intros; lia.
Qed.

Lemma calculate_credibility_range_witness :
  (calculate_credibility 5 3 == 1)%Q
  /\ (calculate_credibility 4 0 == 2 # 5)%Q.
Proof.
  split; [| reflexivity].
  apply (calculate_credibility_range 5 3); lia.
Defined.

End CredibilityProperties.
